(** * Clooney agent: the UI analysis core

    A shallow embedding of [src/agent/analysis/uiAnalyzer.js] (class
    [UIAnalyzer]) and of [src/agent/analysis/styleExtractor.js] (classes
    [StyleExtractor] and [ComponentMapper]), followed by the properties of
    the analysis that the specification states.  [UIAnalyzer] is embedded
    twice: over the nodes that the capture produces, where it is total, and,
    in [Loose], over objects with fields left out, where it can throw.

    Conventions of the embedding:
    - a JavaScript string whose code units lie below 256 (Basic Latin and
      the Latin-1 supplement) is a [string], one character for each code
      unit; [toLowerCase] and the regular expression classes are the ones
      of the language on that range;
    - a JavaScript number that holds a length is a [nat]; a number parsed out
      of a style string is an [N], which is exact for magnitudes below 2^53;
    - [null] and [undefined] are [None];
    - an object literal used as a dictionary is an association list in
      insertion order, which is the order [Object.entries] enumerates keys
      that are not array indices. *)

From Stdlib Require Import String Ascii List Bool Arith NArith ZArith Lia.
From Stdlib Require DecimalString DecimalNat DecimalN HexadecimalString.
Import ListNotations.

Local Open Scope list_scope.
Local Open Scope string_scope.

(** ** JavaScript built-ins used by the analysis *)

Module JS.

(** [Array.prototype.join]. *)
Fixpoint join (sep : string) (parts : list string) : string :=
  match parts with
  | [] => ""
  | [x] => x
  | x :: rest => x ++ sep ++ join sep rest
  end.

(** Truthiness of a string value: the empty string is falsy. *)
Definition nonEmpty (s : string) : bool :=
  match s with EmptyString => false | String _ _ => true end.

(** Truthiness of an optional string field ([undefined] is falsy). *)
Definition truthy (v : option string) : bool :=
  match v with Some s => nonEmpty s | None => false end.

(** [a || b] on strings where [a] may be absent. *)
Definition orElse (v : option string) (dflt : string) : string :=
  if truthy v then match v with Some s => s | None => dflt end else dflt.

(** [String.prototype.includes]. *)
Fixpoint includes (s sub : string) : bool :=
  String.prefix sub s
  || match s with
     | EmptyString => false
     | String _ s' => includes s' sub
     end.

(** [Array.prototype.includes] on an array of strings. *)
Definition arrayIncludes (xs : list string) (x : string) : bool :=
  existsb (String.eqb x) xs.

Definition isUpper (c : ascii) : bool :=
  let n := nat_of_ascii c in ((65 <=? n) && (n <=? 90))%nat.

Definition isLower (c : ascii) : bool :=
  let n := nat_of_ascii c in ((97 <=? n) && (n <=? 122))%nat.

Definition isDigit (c : ascii) : bool :=
  let n := nat_of_ascii c in ((48 <=? n) && (n <=? 57))%nat.

(** The regular expression class [\s] on the code units below 256: tab,
    line feed, vertical tab, form feed, carriage return, space, and the
    no-break space U+00A0.  (The other white space of the language, such as
    U+2028 or U+FEFF, lies above the range.) *)
Definition isSpace (c : ascii) : bool :=
  let n := nat_of_ascii c in
  ((n =? 32) || ((9 <=? n) && (n <=? 13)) || (n =? 160))%nat.

(** The capital letters of the Latin-1 supplement, U+00C0 to U+00DE without
    the multiplication sign U+00D7. *)
Definition isLatinUpper (c : ascii) : bool :=
  let n := nat_of_ascii c in
  ((192 <=? n) && (n <=? 222) && negb (n =? 215))%nat.

(** The lower-case form of a code unit below 256: every capital letter of
    the range has its small letter 32 places further on. *)
Definition lowerChar (c : ascii) : ascii :=
  if isUpper c || isLatinUpper c
  then ascii_of_nat (nat_of_ascii c + 32) else c.

(** [String.prototype.toLowerCase]. *)
Fixpoint toLowerCase (s : string) : string :=
  match s with
  | EmptyString => EmptyString
  | String c s' => String (lowerChar c) (toLowerCase s')
  end.

(** [s.replace(/[^a-zA-Z0-9]/g, '')]. *)
Fixpoint stripNonAlnum (s : string) : string :=
  match s with
  | EmptyString => EmptyString
  | String c s' =>
      if isUpper c || isLower c || isDigit c
      then String c (stripNonAlnum s')
      else stripNonAlnum s'
  end.

(** Number-to-string conversion of a non-negative integer. *)
Definition numberToString (n : N) : string :=
  DecimalString.NilEmpty.string_of_uint (N.to_uint n).

(** The same for a length, as in a template literal. *)
Definition natToString (n : nat) : string := numberToString (N.of_nat n).

(** The longest prefix of decimal digits. *)
Fixpoint leadingDigits (s : string) : string :=
  match s with
  | EmptyString => EmptyString
  | String c s' => if isDigit c then String c (leadingDigits s') else EmptyString
  end.

(** [parseInt] on a string that starts with its digits (the only way the
    analysis calls it: on a captured [\d+] group or on a dictionary key
    such as ['12px']).  [None] is [NaN]. *)
Definition parseInt (s : string) : option N :=
  match leadingDigits s with
  | EmptyString => None
  | ds => option_map N.of_uint (DecimalString.NilEmpty.uint_of_string ds)
  end.

(** [n.toString(16)]. *)
Definition toHex (n : N) : string :=
  HexadecimalString.NilEmpty.string_of_uint (N.to_hex_uint n).

(** [s.padStart(2, '0')]. *)
Definition padStart2 (s : string) : string :=
  match s with
  | EmptyString => "00"
  | String c EmptyString => String "0"%char s
  | _ => s
  end.

(** *** Regular expressions

    The two patterns of the style extractor are sequences of literal
    characters and of greedy repetitions of a character class, some of them
    captured.  [matchHere] is the backtracking matcher anchored at the start
    of its input; [exec] tries every start position from the left, as a
    non-global [String.prototype.match] does, and returns the captured
    groups. *)

Inductive CharClass := Digit | Space.

Definition inClass (k : CharClass) (c : ascii) : bool :=
  match k with Digit => isDigit c | Space => isSpace c end.

Inductive Atom :=
| Lit (c : ascii)
| Rep (k : CharClass) (atLeastOne : bool) (captured : bool).

Definition finishRep (atLeastOne captured : bool) (taken : string)
    (tail : option (list string)) : option (list string) :=
  if atLeastOne && negb (nonEmpty taken) then None
  else match tail with
       | Some groups => Some (if captured then taken :: groups else groups)
       | None => None
       end.

(** A greedy repetition of the class [k]: take one more character when
    there is one, and fall back to what has been taken when the rest of the
    pattern, [finish], does not match after that. *)
Fixpoint greedy (k : CharClass)
    (finish : string -> string -> option (list string))
    (taken rest : string) {struct rest} : option (list string) :=
  match rest with
  | String d rest' =>
      if inClass k d then
        match greedy k finish (taken ++ String d "") rest' with
        | Some r => Some r
        | None => finish taken rest
        end
      else finish taken rest
  | EmptyString => finish taken rest
  end.

Fixpoint matchHere (re : list Atom) (s : string) {struct re}
    : option (list string) :=
  match re with
  | [] => Some []
  | Lit c :: re' =>
      match s with
      | String d s' => if Ascii.eqb c d then matchHere re' s' else None
      | EmptyString => None
      end
  | Rep k plus cap :: re' =>
      greedy k
        (fun taken rest => finishRep plus cap taken (matchHere re' rest))
        "" s
  end.

Fixpoint exec (re : list Atom) (s : string) : option (list string) :=
  match matchHere re s with
  | Some groups => Some groups
  | None =>
      match s with
      | EmptyString => None
      | String _ s' => exec re s'
      end
  end.

Definition lits (s : string) : list Atom :=
  map Lit (list_ascii_of_string s).

(** *** Object literals as dictionaries

    [obj[key]] on an object literal finds the literal's own entries and then
    the members every object inherits from [Object.prototype]. *)

Definition Dict := list (string * string).

Fixpoint assoc {A : Type} (key : string) (d : list (string * A)) : option A :=
  match d with
  | [] => None
  | (k, v) :: d' => if String.eqb key k then Some v else assoc key d'
  end.

Definition objectPrototypeKeys : list string :=
  [ "constructor"; "hasOwnProperty"; "isPrototypeOf"; "propertyIsEnumerable";
    "toLocaleString"; "toString"; "valueOf"; "__proto__";
    "__defineGetter__"; "__defineSetter__";
    "__lookupGetter__"; "__lookupSetter__" ].

(** What a dictionary lookup can evaluate to, besides [undefined]. *)
Inductive Value :=
| VStr (s : string)
| VInherited (name : string).

Definition getProp (d : Dict) (key : string) : option Value :=
  match assoc key d with
  | Some v => Some (VStr v)
  | None =>
      if arrayIncludes objectPrototypeKeys key
      then Some (VInherited key) else None
  end.

Definition truthyValue (v : option Value) : bool :=
  match v with
  | Some (VStr s) => nonEmpty s
  | Some (VInherited _) => true
  | None => false
  end.

(** [Array.prototype.forEach] with the index of each element, threading
    the state the callback updates. *)
Fixpoint forEachFrom {A St : Type} (f : A -> nat -> St -> St)
    (xs : list A) (i : nat) (st : St) : St :=
  match xs with
  | [] => st
  | x :: rest => forEachFrom f rest (S i) (f x i st)
  end.

(** [Array.prototype.reduce] without an initial value, on a non-empty
    array; on an empty one JavaScript throws, which is [None]. *)
Definition reduce1 {A : Type} (f : A -> A -> A) (xs : list A) : option A :=
  match xs with
  | [] => None
  | x :: rest => Some (fold_left f rest x)
  end.

End JS.

(** ** The snapshot tree

    The node shape that [extractDOM.js] produces for the analyzer: the fields
    below are the ones the analysis reads.  Optional fields that the capture
    leaves [undefined] are [None]; [children] is always an array of nodes. *)

Module Snapshot.

Record Rect := mkRect {
  x : Z; y : Z; width : Z; height : Z;
  top : Z; left : Z; bottom : Z; right : Z
}.

Record Styles := mkStyles {
  display : option string;
  flexDirection : option string;
  justifyContent : option string;
  alignItems : option string;
  gap : option string;
  gridTemplateColumns : option string;
  gridTemplateRows : option string;
  styleWidth : option string;
  styleHeight : option string;
  backgroundColor : option string;
  color : option string;
  fontSize : option string;
  fontWeight : option string;
  padding : option string;
  margin : option string;
  borderRadius : option string;
  boxShadow : option string
}.

#[warnings="-register-all"]
Inductive Node := mkNode {
  tag : string;
  id : option string;
  classes : list string;
  attributes : list (string * string);
  rect : option Rect;
  styles : option Styles;
  children : list Node
}.

(** Induction over a node with the hypothesis available for every child. *)
Section NodeInduction.
Variable P : Node -> Prop.
Hypothesis step :
  forall t i cl at_ r st cs, Forall P cs -> P (mkNode t i cl at_ r st cs).

Fixpoint Node_rose_ind (n : Node) : P n :=
  match n with
  | mkNode t i cl at_ r st cs =>
      step t i cl at_ r st cs
        ((fix all (l : list Node) : Forall P l :=
            match l with
            | [] => Forall_nil P
            | c :: l' => Forall_cons c (Node_rose_ind c) (all l')
            end) cs)
  end.
End NodeInduction.

(** The field [node.styles?.f]. *)
Definition style (f : Styles -> option string) (n : Node) : option string :=
  match styles n with Some s => f s | None => None end.

(** The nodes of a tree, parent before children, children left to right. *)
Fixpoint preorder (n : Node) : list Node :=
  n :: flat_map preorder (children n).

(** The nodes of a tree that lie at most [d] levels below the root. *)
Fixpoint within (d : nat) (n : Node) : list Node :=
  n :: match d with
       | O => []
       | S d' => flat_map (within d') (children n)
       end.

(** The tree cut below depth [d]: nodes at depth [d] lose their children. *)
Fixpoint prune (d : nat) (n : Node) : Node :=
  mkNode (tag n) (id n) (classes n) (attributes n) (rect n) (styles n)
    match d with
    | O => []
    | S d' => map (prune d') (children n)
    end.

End Snapshot.

(** ** The records of the analysis report *)

Module Report.
Import Snapshot.

Record ComponentRecord := mkComponent {
  c_name : string;
  c_tag : string;
  c_id : option string;
  c_classes : list string;
  c_signature : string;
  c_childCount : nat;
  c_hasInteractiveElements : bool;
  c_estimatedType : string
}.

Inductive Layout :=
| FlexLayout (direction : string) (justifyContent alignItems gap : option string)
| GridLayout (columns rows gap : option string)
| BlockLayout (width height : option string).

(** The [type] field of a layout descriptor. *)
Definition layoutType (l : Layout) : string :=
  match l with
  | FlexLayout _ _ _ _ => "flex"
  | GridLayout _ _ _ => "grid"
  | BlockLayout _ _ => "block"
  end.

Record LayoutRecord := mkLayout {
  l_tag : string;
  l_id : option string;
  l_classes : list string;
  l_layout : Layout;
  l_childCount : nat
}.

Record DesignTokens := mkTokens {
  colors : list string;
  fontSizes : list string;
  fontWeights : list string;
  spacing : list string;
  borderRadii : list string;
  shadows : list string
}.

Record Example_ := mkExample {
  e_tag : string;
  e_id : option string;
  e_classes : list string
}.

Record Pattern := mkPattern {
  count : nat;
  examples : list Example_
}.

Record SectionRecord := mkSection {
  s_tag : string;
  s_id : option string;
  s_classes : list string;
  s_rect : option Rect;
  s_childCount : nat;
  s_purpose : string
}.

Record AnalysisReport := mkReport {
  components : list ComponentRecord;
  layouts : list LayoutRecord;
  designTokens : DesignTokens;
  repeatedPatterns : list (string * Pattern);
  sections : list SectionRecord;
  timestamp : string
}.

End Report.

(** ** [class UIAnalyzer] (uiAnalyzer.js)

    The helper methods take a node; their [if (!node)] guards are decided by
    the callers, which are the tree walks and pass nodes only.  The walks
    themselves take [this.domData], which is [None] when the capture returned
    [null]. *)

Module UIAnalyzer.
Import JS Snapshot Report.

(** [node.children?.length || 0]. *)
Definition childCount (node : Node) : nat := length (children node).

Definition generateComponentSignature (node : Node) : string :=
  tag node ++ ":" ++ join "." (classes node) ++ ":"
    ++ natToString (childCount node).

Definition generateComponentName (node : Node) : string :=
  if truthy (id node) then orElse (id node) ""
  else match classes node with
       | first :: _ => stripNonAlnum first
       | [] => tag node ++ "Component"
       end.

Definition interactiveTags : list string :=
  ["button"; "a"; "input"; "select"; "textarea"].

Fixpoint hasInteractiveElements (node : Node) : bool :=
  if arrayIncludes interactiveTags (tag node) then true
  else existsb hasInteractiveElements (children node).

Definition isComponentLike (node : Node) : bool :=
  let hasId := truthy (id node) in
  let hasClasses := (0 <? length (classes node))%nat in
  let hasChildren := (0 <? length (children node))%nat in
  let isInteractive := hasInteractiveElements node in
  (hasId || hasClasses) && (hasChildren || isInteractive).

Definition estimateComponentType (node : Node) : string :=
  let tag := toLowerCase (tag node) in
  let classes := toLowerCase (join " " (classes node)) in
  let id := toLowerCase (orElse (id node) "") in
  if (tag =? "button") || includes classes "button" || includes id "btn"
  then "button"
  else if (tag =? "nav") || includes classes "nav" || includes classes "menu"
  then "navigation"
  else if (tag =? "form") || includes classes "form" then "form"
  else if (tag =? "input") || (tag =? "select") || (tag =? "textarea")
  then "input"
  else if (tag =? "img") || (tag =? "picture") then "image"
  else if (tag =? "card") || includes classes "card" then "card"
  else if (tag =? "modal") || includes classes "modal"
          || includes classes "dialog"
  then "modal"
  else if (tag =? "header") || includes id "header" then "header"
  else if (tag =? "footer") || includes id "footer" then "footer"
  else if (tag =? "aside") || includes id "sidebar" then "sidebar"
  else "container".

Definition identifySectionPurpose (node : Node) : string :=
  let tag := toLowerCase (tag node) in
  let classes := toLowerCase (join " " (classes node)) in
  let id := toLowerCase (orElse (id node) "") in
  if (tag =? "header") || includes id "header" then "header"
  else if (tag =? "nav") || includes classes "nav" then "navigation"
  else if (tag =? "main") || includes id "main" then "main-content"
  else if (tag =? "aside") || includes id "sidebar" then "sidebar"
  else if (tag =? "footer") || includes id "footer" then "footer"
  else if (tag =? "section") || (tag =? "article") then "content-section"
  else "unknown".

(** *** [analyzeComponentStructure]

    The walk keeps a [Set] of the node objects it has visited.  The snapshot
    is a tree of distinct objects, so an object is identified by its
    position: the list of child indices that leads to it from the root. *)

Definition NodeRef := list nat.

Record ComponentScan := mkScan {
  visited : list NodeRef;
  found : list ComponentRecord
}.

Definition componentOf (node : Node) : ComponentRecord :=
  {| c_name := generateComponentName node;
     c_tag := tag node;
     c_id := id node;
     c_classes := classes node;
     c_signature := generateComponentSignature node;
     c_childCount := childCount node;
     c_hasInteractiveElements := hasInteractiveElements node;
     c_estimatedType := estimateComponentType node |}.

Definition hasVisited (ref : NodeRef) (st : ComponentScan) : bool :=
  existsb (fun r => if list_eq_dec Nat.eq_dec r ref then true else false)
          (visited st).

Module ComponentWalk.
Fixpoint traverseNode (node : Node) (ref : NodeRef) (st : ComponentScan)
    {struct node} : ComponentScan :=
  if hasVisited ref st then st
  else
    let st1 := {| visited := (visited st ++ [ref])%list; found := found st |} in
    let st2 :=
      if isComponentLike node
      then {| visited := visited st1;
              found := (found st1 ++ [componentOf node])%list |}
      else st1 in
    forEachFrom
      (fun child i acc => traverseNode child (ref ++ [i])%list acc)
      (children node) O st2.
End ComponentWalk.

Definition analyzeComponentStructure (domData : option Node)
    : list ComponentRecord :=
  match domData with
  | None => []
  | Some root =>
      found (ComponentWalk.traverseNode root [] {| visited := []; found := [] |})
  end.

(** *** [analyzeLayoutPatterns] *)

(** [v === lit] for an optional string [v]. *)
Definition strictEq (v : option string) (lit : string) : bool :=
  match v with Some s => s =? lit | None => false end.

Definition detectLayout (node : Node) : option Layout :=
  let display := style display node in
  if strictEq display "flex" then
    Some (FlexLayout (orElse (style flexDirection node) "row")
            (style justifyContent node) (style alignItems node)
            (style gap node))
  else if strictEq display "grid" then
    Some (GridLayout (style gridTemplateColumns node)
            (style gridTemplateRows node) (style gap node))
  else if strictEq display "block" || strictEq display "inline-block" then
    Some (BlockLayout (style styleWidth node) (style styleHeight node))
  else None.

Definition layoutOf (node : Node) (layout : Layout) : LayoutRecord :=
  {| l_tag := tag node;
     l_id := id node;
     l_classes := classes node;
     l_layout := layout;
     l_childCount := childCount node |}.

Module LayoutWalk.
Fixpoint traverseNode (node : Node) (acc : list LayoutRecord)
    {struct node} : list LayoutRecord :=
  let acc1 :=
    match detectLayout node with
    | Some layout => (acc ++ [layoutOf node layout])%list
    | None => acc
    end in
  fold_left (fun a child => traverseNode child a) (children node) acc1.
End LayoutWalk.

Definition analyzeLayoutPatterns (domData : option Node) : list LayoutRecord :=
  match domData with
  | None => []
  | Some root => LayoutWalk.traverseNode root []
  end.

(** *** [extractDesignTokens]

    Each category is a [Set] of strings, enumerated by [Array.from] in
    insertion order. *)

Definition setAdd (v : string) (s : list string) : list string :=
  if arrayIncludes s v then s else (s ++ [v])%list.

(** [if (v && keep v) set.add(v)]. *)
Definition addIf (keep : string -> bool) (v : option string)
    (s : list string) : list string :=
  match v with
  | Some raw => if nonEmpty raw && keep raw then setAdd raw s else s
  | None => s
  end.

Definition always (_ : string) : bool := true.
Definition isNot (lit raw : string) : bool := negb (raw =? lit).

Definition collectTokens (node : Node) (tokens : DesignTokens) : DesignTokens :=
  match styles node with
  | None => tokens
  | Some st =>
      {| colors :=
           addIf always (color st)
             (addIf (isNot "rgba(0, 0, 0, 0)") (backgroundColor st)
                (colors tokens));
         fontSizes := addIf always (fontSize st) (fontSizes tokens);
         fontWeights := addIf always (fontWeight st) (fontWeights tokens);
         spacing :=
           addIf always (margin st)
             (addIf always (padding st) (spacing tokens));
         borderRadii :=
           addIf (isNot "0px") (borderRadius st) (borderRadii tokens);
         shadows := addIf (isNot "none") (boxShadow st) (shadows tokens) |}
  end.

Definition noTokens : DesignTokens :=
  {| colors := []; fontSizes := []; fontWeights := []; spacing := [];
     borderRadii := []; shadows := [] |}.

Module TokenWalk.
Fixpoint traverseNode (node : Node) (tokens : DesignTokens)
    {struct node} : DesignTokens :=
  fold_left (fun t child => traverseNode child t) (children node)
    (collectTokens node tokens).
End TokenWalk.

Definition extractDesignTokens (domData : option Node) : DesignTokens :=
  match domData with
  | None => noTokens
  | Some root => TokenWalk.traverseNode root noTokens
  end.

(** *** [detectRepeatedPatterns]

    [nodeSignatures] and [patterns] are objects keyed by signature.  A
    signature always contains a colon, so it never names an inherited member
    and never is an array index: lookups see own entries only and
    [Object.entries] enumerates them in insertion order. *)

(** [obj[key] = v]: an existing key keeps its place, a new key goes last. *)
Fixpoint objSet {A : Type} (key : string) (v : A) (obj : list (string * A))
    : list (string * A) :=
  match obj with
  | [] => [(key, v)]
  | (k, old) :: rest =>
      if String.eqb key k then (k, v) :: rest
      else (k, old) :: objSet key v rest
  end.

Definition recordSignature (node : Node)
    (nodeSignatures : list (string * list Node)) : list (string * list Node) :=
  let signature := generateComponentSignature node in
  let nodeSignatures1 :=
    match assoc signature nodeSignatures with
    | None => objSet signature [] nodeSignatures
    | Some _ => nodeSignatures
    end in
  match assoc signature nodeSignatures1 with
  | Some nodes => objSet signature (nodes ++ [node])%list nodeSignatures1
  | None => nodeSignatures1
  end.

Module PatternWalk.
Fixpoint traverseNode (node : Node)
    (nodeSignatures : list (string * list Node)) {struct node}
    : list (string * list Node) :=
  fold_left (fun m child => traverseNode child m) (children node)
    (recordSignature node nodeSignatures).
End PatternWalk.

Definition exampleOf (n : Node) : Example_ :=
  {| e_tag := tag n; e_id := id n; e_classes := classes n |}.

Definition keepRepeated (patterns : list (string * Pattern))
    (entry : string * list Node) : list (string * Pattern) :=
  let (signature, nodes) := entry in
  if (1 <? length nodes)%nat then
    objSet signature
      {| count := length nodes;
         examples := map exampleOf (firstn 3 nodes) |} patterns
  else patterns.

Definition detectRepeatedPatterns (domData : option Node)
    : list (string * Pattern) :=
  let nodeSignatures :=
    match domData with
    | None => []
    | Some root => PatternWalk.traverseNode root []
    end in
  fold_left keepRepeated nodeSignatures [].

(** *** [identifyPageSections] *)

(** The attribute selector text [[role=QvalueQ]], where Q is the double
    quote character (code 34). *)
Definition roleSelector (value : string) : string :=
  let quote := String (ascii_of_nat 34) EmptyString in
  "[role=" ++ quote ++ value ++ quote ++ "]".

Definition sectionSelectors : list string :=
  [ "header"; "nav"; "main"; "section"; "article"; "aside"; "footer";
    roleSelector "navigation"; roleSelector "main";
    roleSelector "contentinfo" ].

Definition sectionOf (node : Node) : SectionRecord :=
  {| s_tag := tag node;
     s_id := id node;
     s_classes := classes node;
     s_rect := rect node;
     s_childCount := childCount node;
     s_purpose := identifySectionPurpose node |}.

Module SectionWalk.
Fixpoint traverseNode (node : Node) (depth : nat)
    (sections : list SectionRecord) {struct node} : list SectionRecord :=
  if (10 <? depth)%nat then sections
  else
    let isSectionTag := arrayIncludes sectionSelectors (tag node) in
    let sections1 :=
      if isSectionTag then (sections ++ [sectionOf node])%list
      else sections in
    fold_left (fun s child => traverseNode child (S depth) s)
      (children node) sections1.
End SectionWalk.

Definition identifyPageSections (domData : option Node) : list SectionRecord :=
  match domData with
  | None => []
  | Some root => SectionWalk.traverseNode root 0 []
  end.

(** *** [generateAnalysisReport]

    [now] is what [new Date().toISOString()] evaluates to at the call. *)

Definition generateAnalysisReport (now : string) (domData : option Node)
    : AnalysisReport :=
  {| components := analyzeComponentStructure domData;
     layouts := analyzeLayoutPatterns domData;
     designTokens := extractDesignTokens domData;
     repeatedPatterns := detectRepeatedPatterns domData;
     sections := identifyPageSections domData;
     timestamp := now |}.

End UIAnalyzer.

(** ** The analyzer on objects with fields left out

    [new UIAnalyzer(domData)] takes whatever object its caller passes.  The
    capture fills in every field of a node, but a caller may leave fields
    out, down to the empty object.  Here every field of a node can be
    [undefined]; a field that is present has the type the capture gives it.
    Reading a property of [undefined] throws a [TypeError], so the methods
    that can throw return a [Completion]. *)

Module Loose.
Import JS Snapshot Report.

#[warnings="-register-all"]
Inductive Obj := mkObj {
  tag : option string;
  id : option string;
  classes : option (list string);
  attributes : option (list (string * string));
  rect : option Rect;
  styles : option Styles;
  children : option (list Obj)
}.

(** The object literal without any field. *)
Definition emptyObject : Obj := mkObj None None None None None None None.

(** A node of the capture, as an object with all its fields. *)
Fixpoint inject (n : Node) : Obj :=
  mkObj (Some (Snapshot.tag n)) (Snapshot.id n) (Some (Snapshot.classes n))
    (Some (Snapshot.attributes n)) (Snapshot.rect n) (Snapshot.styles n)
    (Some (map inject (Snapshot.children n))).

Inductive Thrown := TypeError.

Inductive Completion (A : Type) :=
| Normal (a : A)
| Throw (e : Thrown).
Arguments Normal {A} a.
Arguments Throw {A} e.

Definition bind {A B : Type} (c : Completion A) (k : A -> Completion B)
    : Completion B :=
  match c with
  | Normal a => k a
  | Throw e => Throw e
  end.

Notation "x <- c ;; k" := (bind c (fun x => k))
  (at level 61, c at next level, right associativity).

(** [forEach] with a callback that may throw. *)
Fixpoint forEachFrom {A St : Type} (f : A -> nat -> St -> Completion St)
    (xs : list A) (i : nat) (st : St) : Completion St :=
  match xs with
  | [] => Normal st
  | x :: rest => st' <- f x i st ;; forEachFrom f rest (S i) st'
  end.

(** The records of the report; [tag] and [classes] are what the node has,
    which may be nothing. *)
Record ComponentRecord := mkComponent {
  c_name : string;
  c_tag : option string;
  c_id : option string;
  c_classes : option (list string);
  c_signature : string;
  c_childCount : nat;
  c_hasInteractiveElements : bool;
  c_estimatedType : string
}.

Record LayoutRecord := mkLayout {
  l_tag : option string;
  l_id : option string;
  l_classes : option (list string);
  l_layout : Layout;
  l_childCount : nat
}.

Record Example_ := mkExample {
  e_tag : option string;
  e_id : option string;
  e_classes : option (list string)
}.

Record Pattern := mkPattern {
  count : nat;
  examples : list Example_
}.

Record SectionRecord := mkSection {
  s_tag : option string;
  s_id : option string;
  s_classes : option (list string);
  s_rect : option Rect;
  s_childCount : nat;
  s_purpose : string
}.

Record AnalysisReport := mkReport {
  components : list ComponentRecord;
  layouts : list LayoutRecord;
  designTokens : DesignTokens;
  repeatedPatterns : list (string * Pattern);
  sections : list SectionRecord;
  timestamp : string
}.

(** [${v}] in a template literal. *)
Definition interpolate (v : option string) : string :=
  match v with Some s => s | None => "undefined" end.

(** [xs.includes(v)] for a field that may be missing. *)
Definition includesField (xs : list string) (v : option string) : bool :=
  match v with Some s => arrayIncludes xs s | None => false end.

(** [xs || []]. *)
Definition orEmpty (xs : option (list string)) : list string :=
  match xs with Some l => l | None => [] end.

(** [node.children?.length || 0]. *)
Definition childCount (node : Obj) : nat :=
  match children node with Some cs => length cs | None => 0 end.

(** [node.classes.join('.')] throws when [classes] is missing. *)
Definition generateComponentSignature (node : Obj) : Completion string :=
  match classes node with
  | None => Throw TypeError
  | Some cl =>
      Normal (interpolate (tag node) ++ ":" ++ join "." cl ++ ":"
                ++ natToString (childCount node))
  end.

Definition generateComponentName (node : Obj) : string :=
  if truthy (id node) then orElse (id node) ""
  else match classes node with
       | Some (first :: _) => stripNonAlnum first
       | _ => interpolate (tag node) ++ "Component"
       end.

Fixpoint hasInteractiveElements (node : Obj) : bool :=
  if includesField UIAnalyzer.interactiveTags (tag node) then true
  else match children node with
       | Some cs => existsb hasInteractiveElements cs
       | None => false
       end.

Definition isComponentLike (node : Obj) : bool :=
  let hasId := truthy (id node) in
  let hasClasses :=
    match classes node with
    | Some cl => (0 <? length cl)%nat
    | None => false
    end in
  let hasChildren :=
    match children node with
    | Some cs => (0 <? length cs)%nat
    | None => false
    end in
  let isInteractive := hasInteractiveElements node in
  (hasId || hasClasses) && (hasChildren || isInteractive).

(** [node.tag.toLowerCase()] throws when [tag] is missing. *)
Definition estimateComponentType (node : Obj) : Completion string :=
  match tag node with
  | None => Throw TypeError
  | Some t =>
      let tag := toLowerCase t in
      let classes := toLowerCase (join " " (orEmpty (classes node))) in
      let id := toLowerCase (orElse (id node) "") in
      Normal
        (if (tag =? "button") || includes classes "button" || includes id "btn"
         then "button"
         else if (tag =? "nav") || includes classes "nav"
                 || includes classes "menu"
         then "navigation"
         else if (tag =? "form") || includes classes "form" then "form"
         else if (tag =? "input") || (tag =? "select") || (tag =? "textarea")
         then "input"
         else if (tag =? "img") || (tag =? "picture") then "image"
         else if (tag =? "card") || includes classes "card" then "card"
         else if (tag =? "modal") || includes classes "modal"
                 || includes classes "dialog"
         then "modal"
         else if (tag =? "header") || includes id "header" then "header"
         else if (tag =? "footer") || includes id "footer" then "footer"
         else if (tag =? "aside") || includes id "sidebar" then "sidebar"
         else "container")
  end.

Definition identifySectionPurpose (node : Obj) : Completion string :=
  match tag node with
  | None => Throw TypeError
  | Some t =>
      let tag := toLowerCase t in
      let classes := toLowerCase (join " " (orEmpty (classes node))) in
      let id := toLowerCase (orElse (id node) "") in
      Normal
        (if (tag =? "header") || includes id "header" then "header"
         else if (tag =? "nav") || includes classes "nav" then "navigation"
         else if (tag =? "main") || includes id "main" then "main-content"
         else if (tag =? "aside") || includes id "sidebar" then "sidebar"
         else if (tag =? "footer") || includes id "footer" then "footer"
         else if (tag =? "section") || (tag =? "article")
         then "content-section"
         else "unknown")
  end.

(** *** [analyzeComponentStructure] *)

Record ComponentScan := mkScan {
  visited : list UIAnalyzer.NodeRef;
  found : list ComponentRecord
}.

Definition hasVisited (ref : UIAnalyzer.NodeRef) (st : ComponentScan) : bool :=
  existsb (fun r => if list_eq_dec Nat.eq_dec r ref then true else false)
          (visited st).

(** The object literal that is pushed; its last field is the one that can
    throw. *)
Definition componentOf (node : Obj) (componentSignature : string)
    : Completion ComponentRecord :=
  estimatedType <- estimateComponentType node ;;
  Normal {| c_name := generateComponentName node;
            c_tag := tag node;
            c_id := id node;
            c_classes := classes node;
            c_signature := componentSignature;
            c_childCount := childCount node;
            c_hasInteractiveElements := hasInteractiveElements node;
            c_estimatedType := estimatedType |}.

Module ComponentWalk.
Fixpoint traverseNode (node : Obj) (ref : UIAnalyzer.NodeRef)
    (st : ComponentScan) {struct node} : Completion ComponentScan :=
  if hasVisited ref st then Normal st
  else
    let st1 := {| visited := (visited st ++ [ref])%list; found := found st |} in
    componentSignature <- generateComponentSignature node ;;
    st2 <- (if isComponentLike node
            then
              component <- componentOf node componentSignature ;;
              Normal {| visited := visited st1;
                        found := (found st1 ++ [component])%list |}
            else Normal st1) ;;
    match children node with
    | Some cs =>
        forEachFrom
          (fun child i acc => traverseNode child (ref ++ [i])%list acc)
          cs O st2
    | None => Normal st2
    end.
End ComponentWalk.

Definition analyzeComponentStructure (domData : option Obj)
    : Completion (list ComponentRecord) :=
  match domData with
  | None => Normal []
  | Some root =>
      st <- ComponentWalk.traverseNode root []
              {| visited := []; found := [] |} ;;
      Normal (found st)
  end.

(** *** [analyzeLayoutPatterns]: every field is read through a guard *)

Definition style (f : Styles -> option string) (node : Obj) : option string :=
  match styles node with Some s => f s | None => None end.

Definition detectLayout (node : Obj) : option Layout :=
  let display := style display node in
  if UIAnalyzer.strictEq display "flex" then
    Some (FlexLayout (orElse (style flexDirection node) "row")
            (style justifyContent node) (style alignItems node)
            (style gap node))
  else if UIAnalyzer.strictEq display "grid" then
    Some (GridLayout (style gridTemplateColumns node)
            (style gridTemplateRows node) (style gap node))
  else if UIAnalyzer.strictEq display "block"
          || UIAnalyzer.strictEq display "inline-block" then
    Some (BlockLayout (style styleWidth node) (style styleHeight node))
  else None.

Definition layoutOf (node : Obj) (layout : Layout) : LayoutRecord :=
  {| l_tag := tag node;
     l_id := id node;
     l_classes := classes node;
     l_layout := layout;
     l_childCount := childCount node |}.

Module LayoutWalk.
Fixpoint traverseNode (node : Obj) (acc : list LayoutRecord)
    {struct node} : list LayoutRecord :=
  let acc1 :=
    match detectLayout node with
    | Some layout => (acc ++ [layoutOf node layout])%list
    | None => acc
    end in
  match children node with
  | Some cs => fold_left (fun a child => traverseNode child a) cs acc1
  | None => acc1
  end.
End LayoutWalk.

Definition analyzeLayoutPatterns (domData : option Obj) : list LayoutRecord :=
  match domData with
  | None => []
  | Some root => LayoutWalk.traverseNode root []
  end.

(** *** [extractDesignTokens]: guarded by [if (node.styles)] *)

Definition collectTokens (node : Obj) (tokens : DesignTokens) : DesignTokens :=
  match styles node with
  | None => tokens
  | Some st =>
      {| colors :=
           UIAnalyzer.addIf UIAnalyzer.always (color st)
             (UIAnalyzer.addIf (UIAnalyzer.isNot "rgba(0, 0, 0, 0)")
                (backgroundColor st) (colors tokens));
         fontSizes :=
           UIAnalyzer.addIf UIAnalyzer.always (fontSize st) (fontSizes tokens);
         fontWeights :=
           UIAnalyzer.addIf UIAnalyzer.always (fontWeight st)
             (fontWeights tokens);
         spacing :=
           UIAnalyzer.addIf UIAnalyzer.always (margin st)
             (UIAnalyzer.addIf UIAnalyzer.always (padding st)
                (spacing tokens));
         borderRadii :=
           UIAnalyzer.addIf (UIAnalyzer.isNot "0px") (borderRadius st)
             (borderRadii tokens);
         shadows :=
           UIAnalyzer.addIf (UIAnalyzer.isNot "none") (boxShadow st)
             (shadows tokens) |}
  end.

Module TokenWalk.
Fixpoint traverseNode (node : Obj) (tokens : DesignTokens)
    {struct node} : DesignTokens :=
  let tokens1 := collectTokens node tokens in
  match children node with
  | Some cs => fold_left (fun t child => traverseNode child t) cs tokens1
  | None => tokens1
  end.
End TokenWalk.

Definition extractDesignTokens (domData : option Obj) : DesignTokens :=
  match domData with
  | None => UIAnalyzer.noTokens
  | Some root => TokenWalk.traverseNode root UIAnalyzer.noTokens
  end.

(** *** [detectRepeatedPatterns] *)

Definition recordSignature (node : Obj)
    (nodeSignatures : list (string * list Obj))
    : Completion (list (string * list Obj)) :=
  signature <- generateComponentSignature node ;;
  let nodeSignatures1 :=
    match assoc signature nodeSignatures with
    | None => UIAnalyzer.objSet signature [] nodeSignatures
    | Some _ => nodeSignatures
    end in
  Normal
    match assoc signature nodeSignatures1 with
    | Some nodes =>
        UIAnalyzer.objSet signature (nodes ++ [node])%list nodeSignatures1
    | None => nodeSignatures1
    end.

(** [forEach] over the children, without the index. *)
Fixpoint forEach {A St : Type} (f : St -> A -> Completion St)
    (xs : list A) (st : St) : Completion St :=
  match xs with
  | [] => Normal st
  | x :: rest => st' <- f st x ;; forEach f rest st'
  end.

Module PatternWalk.
Fixpoint traverseNode (node : Obj)
    (nodeSignatures : list (string * list Obj)) {struct node}
    : Completion (list (string * list Obj)) :=
  nodeSignatures1 <- recordSignature node nodeSignatures ;;
  match children node with
  | Some cs => forEach (fun m child => traverseNode child m) cs nodeSignatures1
  | None => Normal nodeSignatures1
  end.
End PatternWalk.

Definition exampleOf (n : Obj) : Example_ :=
  {| e_tag := tag n; e_id := id n; e_classes := classes n |}.

Definition keepRepeated (patterns : list (string * Pattern))
    (entry : string * list Obj) : list (string * Pattern) :=
  let (signature, nodes) := entry in
  if (1 <? length nodes)%nat then
    UIAnalyzer.objSet signature
      {| count := length nodes;
         examples := map exampleOf (firstn 3 nodes) |} patterns
  else patterns.

Definition detectRepeatedPatterns (domData : option Obj)
    : Completion (list (string * Pattern)) :=
  nodeSignatures <- match domData with
                    | None => Normal []
                    | Some root => PatternWalk.traverseNode root []
                    end ;;
  Normal (fold_left keepRepeated nodeSignatures []).

(** *** [identifyPageSections] *)

Definition sectionOf (node : Obj) : Completion SectionRecord :=
  purpose <- identifySectionPurpose node ;;
  Normal {| s_tag := tag node;
            s_id := id node;
            s_classes := classes node;
            s_rect := rect node;
            s_childCount := childCount node;
            s_purpose := purpose |}.

Module SectionWalk.
Fixpoint traverseNode (node : Obj) (depth : nat)
    (sections : list SectionRecord) {struct node}
    : Completion (list SectionRecord) :=
  if (10 <? depth)%nat then Normal sections
  else
    let isSectionTag := includesField UIAnalyzer.sectionSelectors (tag node) in
    sections1 <- (if isSectionTag
                  then
                    section <- sectionOf node ;;
                    Normal (sections ++ [section])%list
                  else Normal sections) ;;
    match children node with
    | Some cs =>
        forEach (fun s child => traverseNode child (S depth) s) cs sections1
    | None => Normal sections1
    end.
End SectionWalk.

Definition identifyPageSections (domData : option Obj)
    : Completion (list SectionRecord) :=
  match domData with
  | None => Normal []
  | Some root => SectionWalk.traverseNode root 0 []
  end.

(** *** [generateAnalysisReport]

    The fields of the object literal are evaluated in the order they are
    written; the first throw ends the call. *)

Definition generateAnalysisReport (now : string) (domData : option Obj)
    : Completion AnalysisReport :=
  components <- analyzeComponentStructure domData ;;
  let layouts := analyzeLayoutPatterns domData in
  let designTokens := extractDesignTokens domData in
  repeatedPatterns <- detectRepeatedPatterns domData ;;
  sections <- identifyPageSections domData ;;
  Normal {| components := components;
            layouts := layouts;
            designTokens := designTokens;
            repeatedPatterns := repeatedPatterns;
            sections := sections;
            timestamp := now |}.

(** The report without any finding. *)
Definition emptyReport (now : string) : AnalysisReport :=
  {| components := [];
     layouts := [];
     designTokens := UIAnalyzer.noTokens;
     repeatedPatterns := [];
     sections := [];
     timestamp := now |}.

(** *** The records of the capture's nodes, as records of objects *)

Definition injectComponent (r : Report.ComponentRecord) : ComponentRecord :=
  {| c_name := Report.c_name r;
     c_tag := Some (Report.c_tag r);
     c_id := Report.c_id r;
     c_classes := Some (Report.c_classes r);
     c_signature := Report.c_signature r;
     c_childCount := Report.c_childCount r;
     c_hasInteractiveElements := Report.c_hasInteractiveElements r;
     c_estimatedType := Report.c_estimatedType r |}.

Definition injectLayout (r : Report.LayoutRecord) : LayoutRecord :=
  {| l_tag := Some (Report.l_tag r);
     l_id := Report.l_id r;
     l_classes := Some (Report.l_classes r);
     l_layout := Report.l_layout r;
     l_childCount := Report.l_childCount r |}.

Definition injectExample (e : Report.Example_) : Example_ :=
  {| e_tag := Some (Report.e_tag e);
     e_id := Report.e_id e;
     e_classes := Some (Report.e_classes e) |}.

Definition injectPattern (p : Report.Pattern) : Pattern :=
  {| count := Report.count p;
     examples := map injectExample (Report.examples p) |}.

Definition injectSection (r : Report.SectionRecord) : SectionRecord :=
  {| s_tag := Some (Report.s_tag r);
     s_id := Report.s_id r;
     s_classes := Some (Report.s_classes r);
     s_rect := Report.s_rect r;
     s_childCount := Report.s_childCount r;
     s_purpose := Report.s_purpose r |}.

(** The same entries, each value mapped. *)
Definition mapValues {A B : Type} (f : A -> B) (m : list (string * A))
    : list (string * B) :=
  map (fun e => (fst e, f (snd e))) m.

Definition injectReport (r : Report.AnalysisReport) : AnalysisReport :=
  {| components := map injectComponent (Report.components r);
     layouts := map injectLayout (Report.layouts r);
     designTokens := Report.designTokens r;
     repeatedPatterns := mapValues injectPattern (Report.repeatedPatterns r);
     sections := map injectSection (Report.sections r);
     timestamp := Report.timestamp r |}.

Definition injectScan (st : UIAnalyzer.ComponentScan) : ComponentScan :=
  {| visited := UIAnalyzer.visited st;
     found := map injectComponent (UIAnalyzer.found st) |}.

End Loose.


(** ** [class StyleExtractor] (styleExtractor.js) *)

Module StyleExtractor.
Import JS.

Definition buildColorMap : Dict :=
  [ ("#000000", "black");
    ("#ffffff", "white");
    ("#f3f4f6", "gray-100");
    ("#e5e7eb", "gray-200");
    ("#d1d5db", "gray-300");
    ("#9ca3af", "gray-400");
    ("#6b7280", "gray-500");
    ("#4b5563", "gray-600");
    ("#374151", "gray-700");
    ("#1f2937", "gray-800");
    ("#111827", "gray-900");
    ("#3b82f6", "blue-500");
    ("#2563eb", "blue-600");
    ("#1d4ed8", "blue-700");
    ("#ef4444", "red-500");
    ("#dc2626", "red-600");
    ("#b91c1c", "red-700");
    ("#10b981", "green-500");
    ("#059669", "green-600");
    ("#047857", "green-700");
    ("#f59e0b", "amber-500");
    ("#d97706", "amber-600");
    ("#b45309", "amber-700") ].

Definition buildSpacingMap : Dict :=
  [ ("0px", "0");
    ("4px", "1");
    ("8px", "2");
    ("12px", "3");
    ("16px", "4");
    ("20px", "5");
    ("24px", "6");
    ("28px", "7");
    ("32px", "8");
    ("36px", "9");
    ("40px", "10");
    ("44px", "11");
    ("48px", "12");
    ("64px", "16");
    ("80px", "20");
    ("96px", "24") ].

Definition colorMap : Dict := buildColorMap.
Definition spacingMap : Dict := buildSpacingMap.

(** [/rgb\((\d+),\s*(\d+),\s*(\d+)\)/] *)
Definition rgbPattern : list Atom :=
  (lits "rgb(" ++ [Rep Digit true true] ++ lits ","
     ++ [Rep Space false false; Rep Digit true true] ++ lits ","
     ++ [Rep Space false false; Rep Digit true true] ++ lits ")")%list.

(** [/(\d+)px/] *)
Definition pxPattern : list Atom :=
  (Rep Digit true true :: lits "px")%list.

(** [parseInt(group).toString(16).padStart(2, '0')] *)
Definition hexByte (group : string) : string :=
  match parseInt group with
  | Some n => padStart2 (toHex n)
  | None => "NaN"
  end.

Definition normalizeColor (color : string) : string :=
  if negb (nonEmpty color) then ""
  else
    match exec rgbPattern color with
    | Some [r; g; b] => toLowerCase ("#" ++ hexByte r ++ hexByte g ++ hexByte b)
    | _ => toLowerCase color
    end.

(** [None] is [null]. *)
Definition mapColor (color : option string) : option Value :=
  if negb (truthy color) then None
  else
    let color := orElse color "" in
    if truthyValue (getProp colorMap color) then getProp colorMap color
    else
      let normalized := normalizeColor color in
      if truthyValue (getProp colorMap normalized)
      then getProp colorMap normalized
      else None.

(** [|a - b|] on parsed magnitudes; [None] is [NaN]. *)
Definition absDiff (a b : option N) : option Z :=
  match a, b with
  | Some a, Some b => Some (Z.abs (Z.of_N a - Z.of_N b))
  | _, _ => None
  end.

(** [a < b] on numbers: false as soon as one side is [NaN]. *)
Definition lessThan (a b : option Z) : bool :=
  match a, b with
  | Some a, Some b => (a <? b)%Z
  | _, _ => false
  end.

(** The callback of the [reduce] in [mapSpacing]. *)
Definition closer (px : option N) (prev entry : string * string)
    : string * string :=
  let keyPx := parseInt (fst entry) in
  if lessThan (absDiff keyPx px) (absDiff (parseInt (fst prev)) px)
  then entry else prev.

Definition mapSpacing (value : option string) : option Value :=
  if negb (truthy value) then None
  else
    let value := orElse value "" in
    if truthyValue (getProp spacingMap value) then getProp spacingMap value
    else
      match exec pxPattern value with
      | Some (digits :: _) =>
          let px := parseInt digits in
          match reduce1 (closer px) spacingMap with
          | Some closest => Some (VStr (snd closest))
          | None => None
          end
      | _ => None
      end.

(** *** The font-size scale, border radii and the Tailwind configuration *)

Definition buildFontSizeMap : Dict :=
  [ ("12px", "xs");
    ("14px", "sm");
    ("16px", "base");
    ("18px", "lg");
    ("20px", "xl");
    ("24px", "2xl");
    ("30px", "3xl");
    ("36px", "4xl");
    ("48px", "5xl") ].

Definition fontSizeMap : Dict := buildFontSizeMap.

(** The callback of its [reduce] is the one of [mapSpacing]. *)
Definition mapFontSize (size : option string) : option Value :=
  if negb (truthy size) then None
  else
    let size := orElse size "" in
    if truthyValue (getProp fontSizeMap size) then getProp fontSizeMap size
    else
      match exec pxPattern size with
      | Some (digits :: _) =>
          let px := parseInt digits in
          match reduce1 (closer px) fontSizeMap with
          | Some closest => Some (VStr (snd closest))
          | None => None
          end
      | _ => None
      end.

Definition mapBorderRadius (radius : option string) : option string :=
  if negb (truthy radius) then None
  else
    let radius := orElse radius "" in
    if radius =? "0px" then None
    else if radius =? "4px" then Some "sm"
    else if (radius =? "6px") || (radius =? "8px") then Some "md"
    else if radius =? "12px" then Some "lg"
    else if radius =? "16px" then Some "xl"
    else if radius =? "9999px" then Some "full"
    else Some "md".

(** An object of the configuration, [{}] filled by [obj[mapped] = raw].  Its
    keys are kept as the mapped values themselves: a token is its own
    property name, and the inherited members print to names that differ from
    one another and from every token.  Only lookups are modelled, not the
    order in which an engine enumerates the keys. *)
Definition valueEqb (a b : Value) : bool :=
  match a, b with
  | VStr s, VStr t => s =? t
  | VInherited s, VInherited t => s =? t
  | _, _ => false
  end.

Fixpoint lookupEntry (key : Value) (obj : list (Value * string))
    : option string :=
  match obj with
  | [] => None
  | (k, raw) :: rest => if valueEqb key k then Some raw else lookupEntry key rest
  end.

Fixpoint setEntry (key : Value) (raw : string) (obj : list (Value * string))
    : list (Value * string) :=
  match obj with
  | [] => [(key, raw)]
  | (k, old) :: rest =>
      if valueEqb key k then (k, raw) :: rest
      else (k, old) :: setEntry key raw rest
  end.

(** [const mapped = mapper(raw); if (mapped) obj[mapped] = raw]. *)
Definition extend (mapper : option string -> option Value)
    (obj : list (Value * string)) (raw : string) : list (Value * string) :=
  match mapper (Some raw) with
  | Some mapped =>
      if truthyValue (Some mapped) then setEntry mapped raw obj else obj
  | None => obj
  end.

(** The three objects under [theme.extend]. *)
Record TailwindConfig := mkConfig {
  cfg_colors : list (Value * string);
  cfg_fontSize : list (Value * string);
  cfg_spacing : list (Value * string)
}.

Definition generateTailwindConfig (designTokens : Report.DesignTokens)
    : TailwindConfig :=
  {| cfg_colors :=
       fold_left (extend mapColor) (Report.colors designTokens) [];
     cfg_fontSize :=
       fold_left (extend mapFontSize) (Report.fontSizes designTokens) [];
     cfg_spacing :=
       fold_left (extend mapSpacing) (Report.spacing designTokens) [] |}.

End StyleExtractor.

(** ** [class ComponentMapper] (second class of styleExtractor.js) *)

Module ComponentMapper.
Import JS Report.

Record NavigationComponent := mkNav {
  n_name : string;
  n_originalTag : string;
  n_classes : list string;
  n_reactComponent : string;
  n_layout : string
}.

Definition detectLayoutType (section : option SectionRecord) : string :=
  match section with
  | None => "flex"
  | Some section =>
      let classes := toLowerCase (join " " (s_classes section)) in
      if includes classes "grid" then "grid"
      else if includes classes "flex" then "flex"
      else "block"
  end.

Definition navigationOf (section : SectionRecord) : NavigationComponent :=
  {| n_name := orElse (s_id section) "Navigation";
     n_originalTag := s_tag section;
     n_classes := s_classes section;
     n_reactComponent := "Navigation";
     n_layout := detectLayoutType (Some section) |}.

Definition mapNavigationComponents (analysisReport : AnalysisReport)
    : list NavigationComponent :=
  fold_left
    (fun navs section =>
       if s_purpose section =? "navigation"
       then (navs ++ [navigationOf section])%list
       else navs)
    (sections analysisReport) [].

(** *** The other categories of the component map *)

(** [forEach] over an array that pushes a descriptor for the elements that
    pass a test. *)
Definition pushEach {A B : Type} (keep : A -> bool) (make : A -> B)
    (xs : list A) : list B :=
  fold_left
    (fun out a => if keep a then (out ++ [make a])%list else out) xs [].

Definition extractButtonVariant (component : ComponentRecord) : string :=
  let classes := toLowerCase (join " " (c_classes component)) in
  if includes classes "primary" then "default"
  else if includes classes "secondary" then "outline"
  else if includes classes "danger" || includes classes "destructive"
  then "destructive"
  else if includes classes "ghost" then "ghost"
  else "default".

Definition extractButtonSize (component : ComponentRecord) : string :=
  let classes := toLowerCase (join " " (c_classes component)) in
  if includes classes "lg" || includes classes "large" then "lg"
  else if includes classes "sm" || includes classes "small" then "sm"
  else "default".

Definition extractInputType (component : ComponentRecord) : string :=
  let classes := toLowerCase (join " " (c_classes component)) in
  if includes classes "email" then "email"
  else if includes classes "password" then "password"
  else if includes classes "search" then "search"
  else if includes classes "number" then "number"
  else "text".

Definition hasFooter (component : ComponentRecord) : bool :=
  (2 <? c_childCount component)%nat.

Record ButtonProps := mkButtonProps {
  p_variant : string;
  p_size : string;
  p_disabled : bool
}.

Record ButtonComponent := mkButton {
  b_name : string;
  b_originalTag : string;
  b_classes : list string;
  b_reactComponent : string;
  b_props : ButtonProps
}.

Record FormComponent := mkForm {
  f_name : string;
  f_originalTag : string;
  f_classes : list string;
  f_reactComponent : string;
  f_fields : list string
}.

Record CardComponent := mkCard {
  k_name : string;
  k_originalTag : string;
  k_classes : list string;
  k_reactComponent : string;
  k_hasImage : bool;
  k_hasFooter : bool
}.

Record ModalComponent := mkModal {
  m_name : string;
  m_originalTag : string;
  m_classes : list string;
  m_reactComponent : string;
  m_hasCloseButton : bool
}.

Record LayoutComponent := mkLayoutComponent {
  y_tag : string;
  y_id : option string;
  y_classes : list string;
  y_layoutType : string;
  y_layoutProps : Layout;
  y_childCount : nat
}.

Record InputComponent := mkInput {
  i_name : string;
  i_originalTag : string;
  i_classes : list string;
  i_reactComponent : string;
  i_type : string
}.

Definition hasType (type : string) (comp : ComponentRecord) : bool :=
  c_estimatedType comp =? type.

Definition buttonOf (comp : ComponentRecord) : ButtonComponent :=
  {| b_name := c_name comp;
     b_originalTag := c_tag comp;
     b_classes := c_classes comp;
     b_reactComponent := "Button";
     b_props :=
       {| p_variant := extractButtonVariant comp;
          p_size := extractButtonSize comp;
          p_disabled :=
            existsb (fun c => includes c "disabled") (c_classes comp) |} |}.

Definition mapButtonComponents (analysisReport : AnalysisReport)
    : list ButtonComponent :=
  pushEach (hasType "button") buttonOf (components analysisReport).

Definition formOf (comp : ComponentRecord) : FormComponent :=
  {| f_name := c_name comp;
     f_originalTag := c_tag comp;
     f_classes := c_classes comp;
     f_reactComponent := "Form";
     f_fields := [] |}.

Definition mapFormComponents (analysisReport : AnalysisReport)
    : list FormComponent :=
  pushEach (hasType "form") formOf (components analysisReport).

Definition cardOf (comp : ComponentRecord) : CardComponent :=
  {| k_name := c_name comp;
     k_originalTag := c_tag comp;
     k_classes := c_classes comp;
     k_reactComponent := "Card";
     k_hasImage := (0 <? c_childCount comp)%nat;
     k_hasFooter := hasFooter comp |}.

Definition mapCardComponents (analysisReport : AnalysisReport)
    : list CardComponent :=
  pushEach (hasType "card") cardOf (components analysisReport).

Definition modalOf (comp : ComponentRecord) : ModalComponent :=
  {| m_name := c_name comp;
     m_originalTag := c_tag comp;
     m_classes := c_classes comp;
     m_reactComponent := "Dialog";
     m_hasCloseButton := true |}.

Definition mapModalComponents (analysisReport : AnalysisReport)
    : list ModalComponent :=
  pushEach (hasType "modal") modalOf (components analysisReport).

Definition layoutComponentOf (layout : LayoutRecord) : LayoutComponent :=
  {| y_tag := l_tag layout;
     y_id := l_id layout;
     y_classes := l_classes layout;
     y_layoutType := layoutType (l_layout layout);
     y_layoutProps := l_layout layout;
     y_childCount := l_childCount layout |}.

Definition mapLayoutComponents (analysisReport : AnalysisReport)
    : list LayoutComponent :=
  pushEach (fun _ => true) layoutComponentOf (layouts analysisReport).

Definition inputOf (comp : ComponentRecord) : InputComponent :=
  {| i_name := c_name comp;
     i_originalTag := c_tag comp;
     i_classes := c_classes comp;
     i_reactComponent := "Input";
     i_type := extractInputType comp |}.

Definition mapInputComponents (analysisReport : AnalysisReport)
    : list InputComponent :=
  pushEach (hasType "input") inputOf (components analysisReport).

Record ComponentMap := mkComponentMap {
  buttons : list ButtonComponent;
  forms : list FormComponent;
  navigation : list NavigationComponent;
  cards : list CardComponent;
  modals : list ModalComponent;
  layoutComponents : list LayoutComponent;
  inputs : list InputComponent
}.

Definition generateComponentMap (analysisReport : AnalysisReport)
    : ComponentMap :=
  {| buttons := mapButtonComponents analysisReport;
     forms := mapFormComponents analysisReport;
     navigation := mapNavigationComponents analysisReport;
     cards := mapCardComponents analysisReport;
     modals := mapModalComponents analysisReport;
     layoutComponents := mapLayoutComponents analysisReport;
     inputs := mapInputComponents analysisReport |}.

End ComponentMapper.

(** ** [class SimilarityScore] (similarityScore.js): the structure list *)

Module SimilarityScore.
Import JS Snapshot.

Module Structure.
Fixpoint extractStructure (node : Node) (depth : nat) {struct node}
    : list string :=
  if (10 <? depth)%nat then []
  else
    (tag node
     :: flat_map (fun child => extractStructure child (S depth))
          (children node))%list.
End Structure.

(** [None] is a missing tree; [depth] starts at its default, 0. *)
Definition extractStructure (node : option Node) : list string :=
  match node with
  | None => []
  | Some root => Structure.extractStructure root 0
  end.

End SimilarityScore.

(** ** Predicates and sample inputs used by the statements *)

Module Props.
Import JS Snapshot Report UIAnalyzer.

(** [c] occurs in [s]. *)
Fixpoint occurs (c : ascii) (s : string) : bool :=
  match s with
  | EmptyString => false
  | String d s' => Ascii.eqb c d || occurs c s'
  end.

(** The three inputs of the signature. *)
Definition shape (n : Node) : string * list string * nat :=
  (tag n, classes n, length (children n)).

(** Names that keep the separators of the signature unambiguous: no colon
    in the tag, and class tokens that are non-empty and hold no dot. *)
Definition separable (n : Node) : Prop :=
  occurs ":" (tag n) = false
  /\ Forall (fun c => nonEmpty c = true /\ occurs "." c = false) (classes n).

(** A node with nothing but a tag, classes and children. *)
Definition element (t : string) (cls : list string) (cs : list Node) : Node :=
  mkNode t None cls [] None None cs.

(** What each walk appends to its output at one node. *)
Definition componentsAt (n : Node) : list ComponentRecord :=
  if isComponentLike n then [componentOf n] else [].

Definition layoutsAt (n : Node) : list LayoutRecord :=
  match detectLayout n with
  | Some layout => [layoutOf n layout]
  | None => []
  end.

Definition isSectionTag (n : Node) : bool :=
  arrayIncludes sectionSelectors (tag n).

Definition sectionsAt (n : Node) : list SectionRecord :=
  if isSectionTag n then [sectionOf n] else [].

(** One object position lies below another. *)
Definition below (ref r : NodeRef) : Prop :=
  exists rest, r = (ref ++ rest)%list.

(** What one call of the walk does, given that nothing at or below the
    node's position has been visited before. *)
Definition walks_subtree (c : Node) : Prop :=
  forall ref st,
    (forall r, In r (visited st) -> ~ below ref r) ->
    found (ComponentWalk.traverseNode c ref st)
    = (found st ++ flat_map componentsAt (preorder c))%list
    /\ (forall r, In r (visited (ComponentWalk.traverseNode c ref st)) ->
                  In r (visited st) \/ below ref r).

(** The nodes of a list that carry a given signature, in order. *)
Definition withSignature (s : string) (l : list Node) : list Node :=
  filter (fun n => generateComponentSignature n =? s) l.

(** [obj[key] || []]. *)
Definition lookupGroup (s : string) (m : list (string * list Node))
    : list Node :=
  match assoc s m with Some nodes => nodes | None => [] end.

Definition patternOf (nodes : list Node) : Pattern :=
  {| count := length nodes; examples := map exampleOf (firstn 3 nodes) |}.

Definition isNil {A : Type} (l : list A) : bool :=
  match l with [] => true | _ => false end.

Fixpoint allDigits (s : string) : bool :=
  match s with
  | EmptyString => true
  | String c s' => isDigit c && allDigits s'
  end.

(** The pixel magnitude of a dictionary entry, [parseInt(key)]. *)
Definition pixels (entry : string * string) : Z :=
  match parseInt (fst entry) with
  | Some k => Z.of_N k
  | None => 0%Z
  end.

(** [Math.abs(keyPx - px)]. *)
Definition distance (px : N) (entry : string * string) : Z :=
  Z.abs (pixels entry - Z.of_N px).

(** [entry] is the first entry of [d], in declaration order, at the least
    distance from [px]: every earlier entry is strictly farther and no
    later entry is nearer. *)
Definition FirstNearest (px : N) (d : Dict) (entry : string * string) : Prop :=
  exists earlier later,
    d = (earlier ++ entry :: later)%list
    /\ (forall e, In e earlier -> (distance px entry < distance px e)%Z)
    /\ (forall e, In e later -> (distance px entry <= distance px e)%Z).

(** The raw style string of a pixel magnitude. *)
Definition pxString (px : N) : string := numberToString px ++ "px".

(** A name that every object answers to without having it as an entry of
    its own: the members of [Object.prototype]. *)
Definition inherited (key : string) : bool :=
  arrayIncludes objectPrototypeKeys key.

(** The channels that the rgb pattern captures in a color, read as
    numbers; none when the pattern does not match. *)
Definition channels (color : string) : list (option N) :=
  match exec StyleExtractor.rgbPattern color with
  | Some groups => map parseInt groups
  | None => []
  end.

(** Every captured channel lies below 2^53, where [parseInt] and
    [toString(16)] are exact. *)
Definition exactChannels (color : string) : bool :=
  forallb (fun channel =>
             match channel with
             | Some n => (n <? 2 ^ 53)%N
             | None => false
             end)
          (channels color).

(** An rgb triple as a style string, with the white space [sp1] and [sp2]
    after its commas. *)
Definition rgbTriple (r g b : N) (sp1 sp2 : string) : string :=
  "rgb(" ++ numberToString r ++ "," ++ sp1 ++ numberToString g ++ ","
    ++ sp2 ++ numberToString b ++ ")".

(** White space only. *)
Fixpoint allSpace (s : string) : bool :=
  match s with
  | EmptyString => true
  | String c s' => isSpace c && allSpace s'
  end.

(** The landmark tags among the section selectors. *)
Definition landmarkTags : list string :=
  ["header"; "nav"; "main"; "section"; "article"; "aside"; "footer"].

Definition hasLandmarkTag (t : string) : bool := arrayIncludes landmarkTags t.

(** The landmarks as the specification words them: one of five tags, or a
    [role] attribute naming a landmark role. *)
Definition specLandmark (n : Node) : bool :=
  arrayIncludes ["header"; "nav"; "main"; "aside"; "footer"] (tag n)
  || match assoc "role" (attributes n) with
     | Some role => arrayIncludes ["navigation"; "main"; "contentinfo"] role
     | None => false
     end.

(** The node carries a [role] attribute that names a landmark role. *)
Definition hasLandmarkRole (n : Node) : bool :=
  match assoc "role" (attributes n) with
  | Some role => arrayIncludes ["navigation"; "main"; "contentinfo"] role
  | None => false
  end.

(** The tag is the name of an element, not the text of an attribute
    selector: it holds no opening bracket. *)
Definition isElementName (t : string) : bool := negb (includes t "[").

(** A node that the claim about sections covers: an element without a
    landmark role. *)
Definition isPlainElement (n : Node) : bool :=
  isElementName (tag n) && negb (hasLandmarkRole n).


(** *** Sample snapshots *)

Definition noStyles : Styles :=
  mkStyles None None None None None None None None None
           None None None None None None None None.

(** [button.btn.btn-primary] without children. *)
Definition primaryButton : Node := element "button" ["btn"; "btn-primary"] [].

(** [div.container] holding three primary buttons. *)
Definition buttonBar : Node :=
  element "div" ["container"] [primaryButton; primaryButton; primaryButton].

(** Two nodes of different shape whose signatures coincide. *)
Definition dottedClass : Node := element "div" ["w-1.5"] [].
Definition splitClass : Node := element "div" ["w-1"; "5"] [].

(** Two buttons of the same shape that differ in their [id]. *)
Definition saveButton : Node :=
  mkNode "button" (Some "save") ["btn"] [] None None [].
Definition cancelButton : Node :=
  mkNode "button" (Some "cancel") ["btn"] [] None None [].

(** [div[role=navigation]] around a [section]. *)
Definition plainSection : Node := element "section" [] [].
Definition roleNavigation : Node :=
  mkNode "div" None [] [("role", "navigation")] None None [plainSection].

(** A page of a header, a plain container with an article in it, and a
    footer. *)
Definition landingPage : Node :=
  element "body" []
    [ element "header" ["top"] [];
      element "div" ["content"] [element "article" [] []];
      element "footer" [] [] ].

(** [nav.navbar]: a navigation section whose classes name no layout. *)
Definition navbar : Node := element "nav" ["navbar"] [].

(** A chain of [k] flex containers around [inner]. *)
Definition wrapStyles : Styles :=
  mkStyles (Some "flex") None None None None None None None None
           None None None None None None None None.

Definition wrapper (cs : list Node) : Node :=
  mkNode "div" None ["wrap"] [] None (Some wrapStyles) cs.

Fixpoint nest (k : nat) (inner : Node) : Node :=
  match k with
  | O => inner
  | S k' => wrapper [nest k' inner]
  end.

Definition leafStyles : Styles :=
  mkStyles (Some "flex") None None None None None None None None
           None (Some "red") None None None None None None.

Definition deepLeaf : Node :=
  mkNode "button" (Some "deep") ["leaf"] [] None (Some leafStyles) [].

(** Two leaves one level below depth [k]. *)
Definition tower (k : nat) : Node := nest k (wrapper [deepLeaf; deepLeaf]).




(** A root that has nothing but its tag. *)
Definition bareRoot : Node := element "body" [] [].

End Props.

(** ** Vocabulary of the further properties *)

Module Vocabulary.
Import JS Snapshot Report UIAnalyzer Props.

(** The closed set of semantic types. *)
Definition semanticTypes : list string :=
  [ "button"; "navigation"; "form"; "input"; "image"; "card"; "modal";
    "header"; "footer"; "sidebar"; "container" ].

(** The purposes of a section other than unknown. *)
Definition sectionPurposes : list string :=
  [ "header"; "navigation"; "main-content"; "sidebar"; "footer";
    "content-section" ].

(** The lower-cased strings the classifiers inspect. *)
Definition lowerClasses (cls : list string) : string :=
  toLowerCase (join " " cls).

Definition lowerId (i : option string) : string :=
  toLowerCase (orElse i "").

(** The display values that give a node a layout record, and the type the
    record reports for them. *)
Definition layoutDisplays : list string :=
  ["flex"; "grid"; "block"; "inline-block"].

Definition hasLayoutDisplay (n : Node) : bool :=
  match style display n with
  | Some d => arrayIncludes layoutDisplays d
  | None => false
  end.

Definition displayType (n : Node) : string :=
  match style display n with
  | Some d => if d =? "inline-block" then "block" else d
  | None => ""
  end.

(** A style value is collected: it is present, non-empty and passes the
    filter of its category. *)
Definition offers (keep : string -> bool) (v : option string) (u : string)
    : Prop :=
  v = Some u /\ nonEmpty u = true /\ keep u = true.

(** The style fields that feed a token category, in the order the walk reads
    them, each with its filter. *)
Definition Source : Type := (string -> bool) * (Styles -> option string).

Definition colorSources : list Source :=
  [(isNot "rgba(0, 0, 0, 0)", backgroundColor); (always, color)].
Definition fontSizeSources : list Source := [(always, fontSize)].
Definition fontWeightSources : list Source := [(always, fontWeight)].
Definition spacingSources : list Source := [(always, padding); (always, margin)].
Definition radiusSources : list Source := [(isNot "0px", borderRadius)].
Definition shadowSources : list Source := [(isNot "none", boxShadow)].

(** Node [n] feeds the value [u] through one of the sources. *)
Definition feeds (sources : list Source) (n : Node) (u : string) : Prop :=
  exists keep f, In (keep, f) sources /\ offers keep (style f n) u.

(** What one node adds to a category. *)
Definition contribute (sources : list Source) (n : Node) (s : list string)
    : list string :=
  fold_left (fun acc src => addIf (fst src) (style (snd src) n) acc) sources s.

(** A category of the palette together with the sources that feed it. *)
Definition fed_by (cat : DesignTokens -> list string) (sources : list Source)
    : Prop :=
  forall n tokens,
    cat (collectTokens n tokens) = contribute sources n (cat tokens).

(** Only ASCII letters and digits. *)
Fixpoint allAlnum (s : string) : bool :=
  match s with
  | EmptyString => true
  | String c s' => (isUpper c || isLower c || isDigit c) && allAlnum s'
  end.

(** [div.card--wide] with one child: named after its first class. *)
Definition wideCard : Node :=
  mkNode "div" None ["card--wide"; "shadow"] [] None None
    [mkNode "p" None [] [] None None []].

(** The body that [mapSpacing] and [mapFontSize] share, over the dictionary
    each of them reads. *)
Definition mapWith (d : Dict) (value : option string) : option Value :=
  if negb (truthy value) then None
  else
    let value := orElse value "" in
    if truthyValue (getProp d value) then getProp d value
    else
      match exec StyleExtractor.pxPattern value with
      | Some (digits :: _) =>
          let px := parseInt digits in
          match reduce1 (StyleExtractor.closer px) d with
          | Some closest => Some (VStr (snd closest))
          | None => None
          end
      | _ => None
      end.

(** The entry the [reduce] of a quantizer ends on. *)
Definition bestEntry (d : Dict) (px : N) : string * string :=
  match reduce1 (StyleExtractor.closer (Some px)) d with
  | Some entry => entry
  | None => ("", "")
  end.

(** The pixel magnitude a token of a dictionary stands for. *)
Definition tokenPixels (d : Dict) (token : string) : Z :=
  match find (fun e => snd e =? token) d with
  | Some entry => pixels entry
  | None => 0%Z
  end.

(** A box with rounded corners and a padding. *)
Definition roundedBox : Node :=
  mkNode "div" None ["box"] [] None
    (Some (mkStyles (Some "block") None None None None None None None None
             None None None None (Some "9px") None (Some "4px") None))
    [].

(** The least number of characters a pattern consumes. *)
Fixpoint minLen (re : list Atom) : nat :=
  match re with
  | [] => 0
  | Lit _ :: re' => S (minLen re')
  | Rep _ atLeastOne _ :: re' => (if atLeastOne then 1 else 0) + minLen re'
  end.

(** The mapper sends the raw value to the key [m], and the configuration
    stores it. *)
Definition accepts (mapper : option string -> option Value) (m : Value)
    (raw : string) : bool :=
  match mapper (Some raw) with
  | Some v => truthyValue (Some v) && StyleExtractor.valueEqb m v
  | None => false
  end.

(** The last raw value of a list that the mapper sends to [m]. *)
Definition lastAccepted (mapper : option string -> option Value) (m : Value)
    (raws : list string) : option string :=
  find (accepts mapper m) (rev raws).

(** A palette whose two spacing values quantize to the same token. *)
Definition twoPaddings : DesignTokens :=
  {| colors := ["rgb(59, 130, 246)"; "#3B82F6"];
     fontSizes := [];
     fontWeights := [];
     spacing := ["9px"; "8px"];
     borderRadii := [];
     shadows := [] |}.

(** The computed-style text of a color, as a browser reports it. *)
Definition rgbString (r g b : N) : string :=
  "rgb(" ++ numberToString r ++ ", " ++ numberToString g ++ ", "
    ++ numberToString b ++ ")".

(** The two lower-case hex digits [normalizeColor] writes for a channel. *)
Definition hexPair (n : N) : string := toLowerCase (padStart2 (toHex n)).

(** Reading hex digits back. *)
Definition hexValue (s : string) : option N :=
  option_map N.of_hex_uint (HexadecimalString.NilEmpty.uint_of_string s).

(** The string is empty or starts with a character outside the class. *)
Definition startsOutside (k : CharClass) (s : string) : Prop :=
  match s with
  | EmptyString => True
  | String c _ => inClass k c = false
  end.

Fixpoint allIn (k : CharClass) (s : string) : bool :=
  match s with
  | EmptyString => true
  | String c s' => inClass k c && allIn k s'
  end.

(** The types of the five component categories of the component map. *)
Definition mappedTypes : list string :=
  ["button"; "form"; "card"; "modal"; "input"].

(** [button.nav]: a button that also carries a navigation class. *)
Definition navButton : Node :=
  mkNode "button" None ["nav"] [] None None [].

(** [nav#top] around one link. *)
Definition topNav : Node :=
  mkNode "nav" (Some "top") [] [] None None
    [mkNode "a" None [] [] None None []].

(** [input.form-control.email] inside a form. *)
Definition emailField : Node :=
  mkNode "input" None ["form-control"; "email"] [] None None [].

Definition searchField : Node :=
  mkNode "input" (Some "q") ["search"] [] None None [].

Definition searchForm : Node :=
  mkNode "form" (Some "find") [] [] None None [emailField; searchField].

End Vocabulary.

Import JS Snapshot Report UIAnalyzer Props.

(** ** Facts about strings *)

Section StringFacts.

Lemma append_nil_r (s : string) : s ++ "" = s.
Proof. induction s as [|c s IH]; simpl; [reflexivity | now rewrite IH]. Qed.

Lemma append_assoc (a b c : string) : (a ++ b) ++ c = a ++ (b ++ c).
Proof. induction a as [|x a IH]; simpl; [reflexivity | now rewrite IH]. Qed.

Lemma occurs_append c a b : occurs c (a ++ b) = occurs c a || occurs c b.
Proof.
  induction a as [|x a IH]; simpl; [reflexivity|].
  now rewrite IH, orb_assoc.
Qed.

Lemma occurs_here c s : occurs c (String c s) = true.
Proof. simpl. now rewrite Ascii.eqb_refl. Qed.

(** Cutting at the first occurrence of a separator. *)
Lemma cut_first c a a' r r' :
  occurs c a = false -> occurs c a' = false ->
  a ++ String c r = a' ++ String c r' -> a = a' /\ r = r'.
Proof.
  revert a'. induction a as [|x a IH]; intros [|x' a'] Ha Ha' E; simpl in *.
  - now inversion E.
  - inversion E; subst. now rewrite Ascii.eqb_refl in Ha'.
  - inversion E; subst. now rewrite Ascii.eqb_refl in Ha.
  - inversion E; subst.
    apply orb_false_iff in Ha as [_ Ha]. apply orb_false_iff in Ha' as [_ Ha'].
    destruct (IH a' Ha Ha' H1) as [-> ->]. now split.
Qed.

(** Cutting at the last occurrence of a separator. *)
Lemma cut_last c a a' r r' :
  occurs c r = false -> occurs c r' = false ->
  a ++ String c r = a' ++ String c r' -> a = a' /\ r = r'.
Proof.
  revert a'. induction a as [|x a IH]; intros [|x' a'] Hr Hr' E; simpl in *.
  - now inversion E.
  - inversion E; subst.
    rewrite occurs_append, occurs_here, orb_true_r in Hr. discriminate.
  - inversion E; subst.
    rewrite occurs_append, occurs_here, orb_true_r in Hr'. discriminate.
  - inversion E; subst.
    destruct (IH a' Hr Hr' H1) as [-> ->]. now split.
Qed.

Lemma digits_no_colon (d : Decimal.uint) :
  occurs ":" (DecimalString.NilEmpty.string_of_uint d) = false.
Proof. induction d; simpl; auto. Qed.

Lemma natToString_no_colon n : occurs ":" (natToString n) = false.
Proof. apply digits_no_colon. Qed.

Lemma numberToString_inj n m : numberToString n = numberToString m -> n = m.
Proof.
  unfold numberToString. intros E.
  apply DecimalN.Unsigned.to_uint_inj.
  assert (H : Some (N.to_uint n) = Some (N.to_uint m)).
  { rewrite <- (DecimalString.NilEmpty.usu (N.to_uint n)),
            <- (DecimalString.NilEmpty.usu (N.to_uint m)).
    now rewrite E. }
  now inversion H.
Qed.

Lemma natToString_inj n m : natToString n = natToString m -> n = m.
Proof. intros E. now apply Nat2N.inj, numberToString_inj. Qed.

Lemma join_cons sep x y rest :
  join sep (x :: y :: rest) = x ++ sep ++ join sep (y :: rest).
Proof. reflexivity. Qed.

(** [join] with a one-character separator is injective on lists of
    non-empty parts that do not contain the separator. *)
Lemma join_inj c (l l' : list string) :
  Forall (fun p => nonEmpty p = true /\ occurs c p = false) l ->
  Forall (fun p => nonEmpty p = true /\ occurs c p = false) l' ->
  join (String c "") l = join (String c "") l' -> l = l'.
Proof.
  intros Hl. revert l'. induction Hl as [|x l [Hx Hc] Hl IH]; intros l' Hl' E.
  - destruct Hl' as [|x' l' [Hx' _] Hl']; [reflexivity|].
    destruct l' as [|y' l']; simpl in E.
    + subst x'. discriminate.
    + destruct x'; [discriminate | discriminate].
  - destruct Hl' as [|x' l' [Hx' Hc'] Hl'].
    + destruct l as [|y l]; simpl in E.
      * subst x. discriminate.
      * destruct x; discriminate.
    + destruct l as [|y l], l' as [|y' l'].
      * simpl in E. now subst.
      * rewrite join_cons in E. simpl in E. subst x.
        rewrite occurs_append, occurs_here, orb_true_r in Hc. discriminate.
      * rewrite join_cons in E. simpl in E. subst x'.
        rewrite occurs_append, occurs_here, orb_true_r in Hc'. discriminate.
      * rewrite !join_cons in E. simpl in E.
        destruct (cut_first c x x' _ _ Hc Hc' E) as [-> E'].
        f_equal. now apply IH.
Qed.

End StringFacts.

(** ** The structural signature *)

Section Signature.

Lemma signature_unfold n :
  generateComponentSignature n
  = tag n ++ String ":" (join "." (classes n)
              ++ String ":" (natToString (length (children n)))).
Proof. reflexivity. Qed.

(** The child count is always recoverable from a signature. *)
Lemma signature_count n1 n2 :
  generateComponentSignature n1 = generateComponentSignature n2 ->
  length (children n1) = length (children n2).
Proof.
  rewrite !signature_unfold. intros E.
  change (tag n1 ++ String ":" (join "." (classes n1)
            ++ String ":" (natToString (length (children n1)))))
    with (tag n1 ++ (String ":" (join "." (classes n1))
            ++ String ":" (natToString (length (children n1))))) in E.
  change (tag n2 ++ String ":" (join "." (classes n2)
            ++ String ":" (natToString (length (children n2)))))
    with (tag n2 ++ (String ":" (join "." (classes n2))
            ++ String ":" (natToString (length (children n2))))) in E.
  rewrite <- !append_assoc in E.
  apply cut_last in E; auto using natToString_no_colon.
  destruct E as [_ E]. now apply natToString_inj.
Qed.

Lemma signature_inj n1 n2 :
  separable n1 -> separable n2 ->
  generateComponentSignature n1 = generateComponentSignature n2 ->
  shape n1 = shape n2.
Proof.
  intros [T1 C1] [T2 C2] E.
  pose proof (signature_count _ _ E) as Hn.
  rewrite !signature_unfold in E.
  apply cut_first in E; auto. destruct E as [Ht E].
  apply cut_last in E; auto using natToString_no_colon. destruct E as [Hj _].
  apply join_inj in Hj; auto.
  unfold shape. now rewrite Ht, Hj, Hn.
Qed.

End Signature.

(** ** The tree walks visit the nodes in pre-order *)

Section Walks.

Lemma fold_children {A : Type} (walk : Node -> A -> A)
    (visit : A -> Node -> A) (nodes : Node -> list Node) (cs : list Node) :
  Forall (fun c => forall acc, walk c acc = fold_left visit (nodes c) acc) cs ->
  forall acc,
    fold_left (fun a c => walk c a) cs acc
    = fold_left visit (flat_map nodes cs) acc.
Proof.
  induction 1 as [|c cs Hc _ IH]; intros acc; simpl; [reflexivity|].
  now rewrite fold_left_app, IH, Hc.
Qed.

Lemma fold_children_app {B : Type} (walk : Node -> list B -> list B)
    (out : Node -> list B) (nodes : Node -> list Node) (cs : list Node) :
  Forall (fun c => forall acc,
              walk c acc = (acc ++ flat_map out (nodes c))%list) cs ->
  forall acc,
    fold_left (fun a c => walk c a) cs acc
    = (acc ++ flat_map out (flat_map nodes cs))%list.
Proof.
  induction 1 as [|c cs Hc _ IH]; intros acc; simpl.
  - now rewrite app_nil_r.
  - now rewrite IH, Hc, flat_map_app, app_assoc.
Qed.

Lemma flat_map_filter {A B : Type} (p : A -> bool) (f : A -> B) (l : list A) :
  flat_map (fun a => if p a then [f a] else []) l = map f (filter p l).
Proof.
  induction l as [|a l IH]; simpl; [reflexivity|].
  destruct (p a); simpl; now rewrite IH.
Qed.

Lemma layout_walk (n : Node) :
  forall acc,
    LayoutWalk.traverseNode n acc
    = (acc ++ flat_map layoutsAt (preorder n))%list.
Proof.
  induction n as [t i cl at_ r st cs IH] using Node_rose_ind. intros acc.
  cbn [LayoutWalk.traverseNode preorder flat_map children].
  rewrite (fold_children_app _ layoutsAt preorder cs IH).
  unfold layoutsAt at 2.
  destruct (detectLayout _); [|reflexivity].
  now rewrite <- app_assoc.
Qed.

Lemma token_walk (n : Node) :
  forall tokens,
    TokenWalk.traverseNode n tokens
    = fold_left (fun t m => collectTokens m t) (preorder n) tokens.
Proof.
  induction n as [t i cl at_ r st cs IH] using Node_rose_ind. intros tokens.
  cbn [TokenWalk.traverseNode preorder fold_left children].
  now rewrite (fold_children _ (fun t m => collectTokens m t) preorder cs IH).
Qed.

Lemma pattern_walk (n : Node) :
  forall m,
    PatternWalk.traverseNode n m
    = fold_left (fun m k => recordSignature k m) (preorder n) m.
Proof.
  induction n as [t i cl at_ r st cs IH] using Node_rose_ind. intros m.
  cbn [PatternWalk.traverseNode preorder fold_left children].
  now rewrite (fold_children _ (fun m k => recordSignature k m) preorder cs IH).
Qed.

Lemma fold_skip {B : Type} (walk : Node -> list B -> list B) (cs : list Node) :
  (forall c acc, walk c acc = acc) ->
  forall acc, fold_left (fun a c => walk c a) cs acc = acc.
Proof.
  intros H. induction cs as [|c cs IH]; intros acc; simpl; [reflexivity|].
  now rewrite H, IH.
Qed.

Lemma section_walk (n : Node) :
  forall depth acc,
    SectionWalk.traverseNode n depth acc
    = if (10 <? depth)%nat then acc
      else (acc ++ flat_map sectionsAt (within (10 - depth) n))%list.
Proof.
  induction n as [t i cl at_ r st cs IH] using Node_rose_ind.
  intros depth acc.
  cbn [SectionWalk.traverseNode children tag].
  destruct (10 <? depth)%nat eqn:Hd; [reflexivity|].
  apply Nat.ltb_ge in Hd.
  assert (Hhere : (if arrayIncludes sectionSelectors t
                   then (acc ++ [sectionOf (mkNode t i cl at_ r st cs)])%list
                   else acc)
                  = (acc ++ sectionsAt (mkNode t i cl at_ r st cs))%list).
  { unfold sectionsAt, isSectionTag. cbn [tag].
    destruct (arrayIncludes sectionSelectors t); [reflexivity|].
    now rewrite app_nil_r. }
  rewrite Hhere.
  destruct (Nat.eq_dec depth 10) as [->|Hne].
  - rewrite fold_skip.
    + cbn. now rewrite app_nil_r.
    + intros c a. destruct c. reflexivity.
  - replace (10 - depth) with (S (10 - S depth)) by lia.
    cbn [within flat_map children].
    rewrite (fold_children_app _ sectionsAt (within (10 - S depth)) cs).
    + now rewrite <- app_assoc.
    + eapply Forall_impl; [|exact IH]. intros c Hc a.
      rewrite Hc. replace (10 <? S depth)%nat with false; [reflexivity|].
      symmetry. apply Nat.ltb_ge. lia.
Qed.

End Walks.

(** ** The component walk and its visited set *)

Section ComponentWalkFacts.

Lemma below_refl ref : below ref ref.
Proof. exists []. now rewrite app_nil_r. Qed.

Lemma hasVisited_false ref st :
  (forall r, In r (visited st) -> ~ below ref r) -> hasVisited ref st = false.
Proof.
  intros H. unfold hasVisited.
  destruct (existsb _ _) eqn:E; [|reflexivity].
  apply existsb_exists in E as (r & Hin & Hr).
  destruct (list_eq_dec Nat.eq_dec r ref) as [->|]; [|discriminate].
  destruct (H _ Hin (below_refl ref)).
Qed.

Lemma component_forEach (ref : NodeRef) (cs : list Node) :
  Forall walks_subtree cs ->
  forall i st,
    (forall r, In r (visited st) ->
               forall j rest, i <= j -> r <> (ref ++ j :: rest)%list) ->
    let st' :=
      forEachFrom
        (fun child k acc =>
           ComponentWalk.traverseNode child (ref ++ [k])%list acc) cs i st in
    found st' = (found st ++ flat_map componentsAt (flat_map preorder cs))%list
    /\ (forall r, In r (visited st') -> In r (visited st) \/ below ref r).
Proof.
  induction 1 as [|c cs Hc _ IH]; intros i st Inv; cbn [forEachFrom flat_map].
  - split; [now rewrite app_nil_r | auto].
  - destruct (Hc (ref ++ [i])%list st) as [Hf Hv].
    { intros r Hin [rest Hr]. rewrite <- app_assoc in Hr.
      exact (Inv r Hin i rest (le_n i) Hr). }
    destruct (IH (S i) (ComponentWalk.traverseNode c (ref ++ [i])%list st))
      as [Hf' Hv'].
    { intros r Hin j rest Hj Hr.
      destruct (Hv r Hin) as [Hold | [rest' Hr']].
      - apply (Inv r Hold j rest); [lia | exact Hr].
      - rewrite <- app_assoc, Hr in Hr'. apply app_inv_head in Hr'.
        inversion Hr'. lia. }
    split.
    + rewrite Hf', Hf, flat_map_app, app_assoc. reflexivity.
    + intros r Hin. destruct (Hv' r Hin) as [Hmid | Hb]; [|now right].
      destruct (Hv r Hmid) as [Hold | [rest Hr]]; [now left|].
      right. exists ([i] ++ rest)%list. now rewrite app_assoc.
Qed.

Lemma component_walk (n : Node) : walks_subtree n.
Proof.
  induction n as [t i cl at_ r st cs IH] using Node_rose_ind.
  intros ref s Hfresh.
  cbn [ComponentWalk.traverseNode].
  rewrite (hasVisited_false ref s Hfresh).
  cbn [children preorder flat_map].
  set (node := mkNode t i cl at_ r st cs).
  set (s2 := if isComponentLike node then _ else _).
  assert (Hs2v : visited s2 = (visited s ++ [ref])%list)
    by (unfold s2; destruct (isComponentLike node); reflexivity).
  assert (Hs2f : found s2 = (found s ++ componentsAt node)%list).
  { unfold s2, componentsAt. destruct (isComponentLike node); cbn.
    - reflexivity.
    - now rewrite app_nil_r. }
  destruct (component_forEach ref cs IH 0 s2) as [Hf Hv].
  { intros q Hin j rest _ Hq. rewrite Hs2v in Hin.
    apply in_app_or in Hin as [Hin | [<- | []]].
    - apply (Hfresh q Hin). now exists (j :: rest).
    - apply (f_equal (@length nat)) in Hq.
      rewrite length_app in Hq. cbn in Hq. lia. }
  split.
  - rewrite Hf, Hs2f, <- app_assoc. reflexivity.
  - intros q Hin. destruct (Hv q Hin) as [Hin2 | Hb]; [|now right].
    rewrite Hs2v in Hin2. apply in_app_or in Hin2 as [Hin2 | [<- | []]].
    + now left.
    + right. apply below_refl.
Qed.

Lemma analyzeComponentStructure_preorder (root : Node) :
  analyzeComponentStructure (Some root)
  = map componentOf (filter isComponentLike (preorder root)).
Proof.
  unfold analyzeComponentStructure.
  destruct (component_walk root [] {| visited := []; found := [] |}) as [H _].
  { intros r []. }
  rewrite H. cbn [found app]. apply flat_map_filter.
Qed.

End ComponentWalkFacts.

(** ** Objects keyed by signature *)

Section Objects.
Context {A : Type}.

Lemma assoc_objSet_same (k : string) (v : A) m :
  assoc k (objSet k v m) = Some v.
Proof.
  induction m as [|[k' v'] m IH]; cbn.
  - now rewrite String.eqb_refl.
  - destruct (k =? k') eqn:E; cbn; rewrite E; auto.
Qed.

Lemma assoc_objSet_other (k k' : string) (v : A) m :
  k' <> k -> assoc k' (objSet k v m) = assoc k' m.
Proof.
  intros Hne. induction m as [|[k0 v0] m IH]; cbn.
  - apply String.eqb_neq in Hne. now rewrite Hne.
  - destruct (k =? k0) eqn:E; cbn.
    + apply String.eqb_eq in E. subst k0.
      apply String.eqb_neq in Hne. now rewrite Hne.
    + now rewrite IH.
Qed.

Lemma keys_objSet (k k' : string) (v : A) m :
  In k' (map fst (objSet k v m)) <-> k' = k \/ In k' (map fst m).
Proof.
  induction m as [|[k0 v0] m IH]; cbn.
  - intuition.
  - destruct (k =? k0) eqn:E; cbn.
    + apply String.eqb_eq in E. subst k0. intuition.
    + rewrite IH. intuition.
Qed.

Lemma NoDup_objSet (k : string) (v : A) m :
  NoDup (map fst m) -> NoDup (map fst (objSet k v m)).
Proof.
  induction m as [|[k0 v0] m IH]; cbn; intros H.
  - constructor; [intros [] | constructor].
  - inversion H as [|? ? Hnotin Hrest]; subst.
    destruct (k =? k0) eqn:E; cbn.
    + now constructor.
    + constructor; [|now apply IH].
      rewrite keys_objSet. intros [-> | Hin]; [|contradiction].
      now rewrite String.eqb_refl in E.
Qed.

Lemma assoc_None_iff (k : string) (m : list (string * A)) :
  assoc k m = None <-> ~ In k (map fst m).
Proof.
  induction m as [|[k0 v0] m IH]; cbn; [intuition|].
  destruct (k =? k0) eqn:E.
  - apply String.eqb_eq in E. subst. split; [discriminate | intuition].
  - apply String.eqb_neq in E. rewrite IH. intuition congruence.
Qed.

End Objects.

(** ** Grouping by signature *)

Section Patterns.

(** A signature never names a member inherited from [Object.prototype], so
    a lookup by signature sees own entries only. *)
Lemma signature_has_colon (n : Node) :
  occurs ":" (generateComponentSignature n) = true.
Proof.
  rewrite signature_unfold, occurs_append, occurs_here. apply orb_true_r.
Qed.

Lemma signature_not_inherited (n : Node) :
  arrayIncludes objectPrototypeKeys (generateComponentSignature n) = false.
Proof.
  destruct (arrayIncludes _ _) eqn:E; [|reflexivity].
  apply existsb_exists in E as (k & Hin & Hk).
  apply String.eqb_eq in Hk.
  pose proof (signature_has_colon n) as C. rewrite Hk in C.
  cbn in Hin.
  repeat (destruct Hin as [<- | Hin]; [discriminate C|]).
  destruct Hin.
Qed.

Lemma recordSignature_lookup (n : Node) m (s : string) :
  assoc s (recordSignature n m)
  = if generateComponentSignature n =? s
    then Some (lookupGroup s m ++ [n])%list
    else assoc s m.
Proof.
  unfold recordSignature, lookupGroup.
  destruct (generateComponentSignature n =? s) eqn:E.
  - apply String.eqb_eq in E. rewrite E.
    destruct (assoc s m) as [nodes|] eqn:Hm.
    + rewrite Hm. apply assoc_objSet_same.
    + rewrite assoc_objSet_same. apply assoc_objSet_same.
  - apply String.eqb_neq in E.
    assert (E' : s <> generateComponentSignature n) by congruence.
    destruct (assoc (generateComponentSignature n) m) as [nodes|] eqn:Hm.
    + rewrite Hm. now apply assoc_objSet_other.
    + rewrite assoc_objSet_same.
      rewrite !assoc_objSet_other by assumption. reflexivity.
Qed.

Lemma recordSignature_NoDup (n : Node) m :
  NoDup (map fst m) -> NoDup (map fst (recordSignature n m)).
Proof.
  intros H. unfold recordSignature.
  destruct (assoc (generateComponentSignature n) m) as [nodes|] eqn:Hm.
  - rewrite Hm. now apply NoDup_objSet.
  - rewrite assoc_objSet_same. now apply NoDup_objSet, NoDup_objSet.
Qed.

Lemma withSignature_cons (s : string) (n : Node) (l : list Node) :
  withSignature s (n :: l)
  = if generateComponentSignature n =? s
    then n :: withSignature s l else withSignature s l.
Proof. reflexivity. Qed.

Lemma groups_lookup (l : list Node) : forall m (s : string),
  assoc s (fold_left (fun m k => recordSignature k m) l m)
  = if isNil (withSignature s l) then assoc s m
    else Some (lookupGroup s m ++ withSignature s l)%list.
Proof.
  induction l as [|n l IH]; intros m s; cbn [fold_left]; [reflexivity|].
  rewrite IH, withSignature_cons.
  unfold lookupGroup at 1. rewrite !recordSignature_lookup.
  destruct (generateComponentSignature n =? s) eqn:E; cbn [isNil].
  - destruct (withSignature s l) as [|n' g]; cbn [isNil].
    + reflexivity.
    + now rewrite <- app_assoc.
  - reflexivity.
Qed.

Lemma groups_NoDup (l : list Node) : forall m,
  NoDup (map fst m) ->
  NoDup (map fst (fold_left (fun m k => recordSignature k m) l m)).
Proof.
  induction l as [|n l IH]; intros m H; cbn [fold_left]; [assumption|].
  now apply IH, recordSignature_NoDup.
Qed.

Lemma keepRepeated_NoDup entries : forall acc,
  NoDup (map fst acc) ->
  NoDup (map fst (fold_left keepRepeated entries acc)).
Proof.
  induction entries as [|[k nodes] entries IH]; intros acc H; cbn [fold_left];
    [assumption|].
  apply IH. unfold keepRepeated.
  destruct (1 <? length nodes)%nat; [now apply NoDup_objSet | assumption].
Qed.

Lemma keepRepeated_lookup entries : forall acc (s : string),
  NoDup (map fst entries) ->
  assoc s (fold_left keepRepeated entries acc)
  = match assoc s entries with
    | Some nodes =>
        if (1 <? length nodes)%nat then Some (patternOf nodes)
        else assoc s acc
    | None => assoc s acc
    end.
Proof.
  induction entries as [|[k nodes] entries IH]; intros acc s H;
    cbn [fold_left assoc]; [reflexivity|].
  cbn [map fst] in H. inversion H as [|? ? Hnotin Hrest]; subst.
  rewrite (IH _ s Hrest).
  destruct (s =? k) eqn:E.
  - apply String.eqb_eq in E. subst k.
    apply assoc_None_iff in Hnotin. rewrite Hnotin.
    unfold keepRepeated. destruct (1 <? length nodes)%nat; [|reflexivity].
    apply assoc_objSet_same.
  - apply String.eqb_neq in E.
    assert (Hacc : assoc s (keepRepeated acc (k, nodes)) = assoc s acc).
    { unfold keepRepeated. destruct (1 <? length nodes)%nat; [|reflexivity].
      now apply assoc_objSet_other. }
    now rewrite Hacc.
Qed.

Lemma detectRepeatedPatterns_lookup (root : Node) (s : string) :
  assoc s (detectRepeatedPatterns (Some root))
  = if (1 <? length (withSignature s (preorder root)))%nat
    then Some (patternOf (withSignature s (preorder root)))
    else None.
Proof.
  unfold detectRepeatedPatterns. rewrite pattern_walk.
  rewrite keepRepeated_lookup by (apply groups_NoDup; constructor).
  rewrite groups_lookup. cbn [assoc lookupGroup app].
  destruct (withSignature s (preorder root)) as [|n g]; cbn [isNil];
    reflexivity.
Qed.

Lemma detectRepeatedPatterns_NoDup (root : Node) :
  NoDup (map fst (detectRepeatedPatterns (Some root))).
Proof.
  unfold detectRepeatedPatterns. apply keepRepeated_NoDup. constructor.
Qed.

Lemma firstn_min {B : Type} (k : nat) (l : list B) :
  firstn (Nat.min k (length l)) l = firstn k l.
Proof.
  destruct (Nat.le_ge_cases k (length l)) as [H | H].
  - now rewrite Nat.min_l.
  - rewrite Nat.min_r by assumption.
    now rewrite firstn_all, firstn_all2.
Qed.

End Patterns.

(** ** Spacing quantization *)

Section Spacing.
Import StyleExtractor.

Lemma digits_allDigits (d : Decimal.uint) :
  allDigits (DecimalString.NilEmpty.string_of_uint d) = true.
Proof. induction d; cbn; auto. Qed.

Lemma leadingDigits_all (s : string) :
  allDigits s = true -> leadingDigits s = s.
Proof.
  induction s as [|c s IH]; cbn; [reflexivity|].
  intros H. apply andb_prop in H as [Hc Hs]. rewrite Hc. now rewrite IH.
Qed.

Lemma numberToString_nonEmpty (n : N) : nonEmpty (numberToString n) = true.
Proof.
  unfold numberToString.
  destruct (DecimalString.NilEmpty.string_of_uint (N.to_uint n)) eqn:E;
    [|reflexivity].
  pose proof (DecimalString.NilEmpty.usu (N.to_uint n)) as U.
  rewrite E in U. cbn in U. inversion U as [U'].
  pose proof (DecimalN.Unsigned.of_to n) as O. rewrite <- U' in O.
  cbn in O. subst n. discriminate.
Qed.

Lemma parseInt_numberToString (n : N) : parseInt (numberToString n) = Some n.
Proof.
  unfold parseInt.
  rewrite leadingDigits_all by apply digits_allDigits.
  pose proof (numberToString_nonEmpty n) as Hne.
  destruct (numberToString n) eqn:E; [discriminate|].
  rewrite <- E. unfold numberToString.
  rewrite DecimalString.NilEmpty.usu. cbn.
  now rewrite DecimalN.Unsigned.of_to.
Qed.

(** A run of digits followed by [px] is matched whole by [(\d+)px]. *)
Lemma greedy_digits_px (ds : string) : forall taken,
  allDigits ds = true ->
  nonEmpty (taken ++ ds) = true ->
  greedy Digit
    (fun t rest => finishRep true true t (matchHere (lits "px") rest))
    taken (ds ++ "px")
  = Some [taken ++ ds].
Proof.
  induction ds as [|c ds IH]; intros taken Hd Hne.
  - rewrite append_nil_r in *. cbn. unfold finishRep. now rewrite Hne.
  - cbn in Hd. apply andb_prop in Hd as [Hc Hd].
    cbn [append greedy inClass]. rewrite Hc.
    rewrite (IH (taken ++ String c "")).
    + now rewrite append_assoc.
    + assumption.
    + rewrite append_assoc. exact Hne.
Qed.

Lemma exec_pxString (px : N) :
  exec pxPattern (pxString px) = Some [numberToString px].
Proof.
  assert (H : matchHere pxPattern (pxString px) = Some [numberToString px]).
  { unfold pxPattern, pxString. cbn [matchHere].
    rewrite (greedy_digits_px (numberToString px) "").
    - reflexivity.
    - apply digits_allDigits.
    - apply numberToString_nonEmpty. }
  destruct (pxString px); cbn [exec]; now rewrite H.
Qed.

Lemma eqb_first_char c r c' r' :
  isDigit c = true -> isDigit c' = false ->
  (String c r =? String c' r') = false.
Proof.
  intros H H'. apply String.eqb_neq. intros E. inversion E; subst.
  congruence.
Qed.

(** No inherited member of an object starts with a digit. *)
Lemma pxString_not_inherited (px : N) :
  arrayIncludes objectPrototypeKeys (pxString px) = false.
Proof.
  unfold pxString.
  pose proof (numberToString_nonEmpty px) as Hne.
  pose proof (digits_allDigits (N.to_uint px)) as Hd.
  fold (numberToString px) in Hd.
  destruct (numberToString px) as [|c r]; [discriminate|].
  cbn in Hd. apply andb_prop in Hd as [Hc _].
  unfold arrayIncludes, objectPrototypeKeys. cbn [existsb append].
  rewrite !(eqb_first_char c) by (assumption || reflexivity).
  reflexivity.
Qed.

(** The [reduce] of [mapSpacing] keeps the first nearest entry. *)
Lemma closer_step (px : N) (prev entry : string * string) :
  parseInt (fst prev) <> None -> parseInt (fst entry) <> None ->
  closer (Some px) prev entry
  = if (distance px entry <? distance px prev)%Z then entry else prev.
Proof.
  unfold closer, distance, pixels, absDiff, lessThan.
  destruct (parseInt (fst prev)); [|congruence].
  destruct (parseInt (fst entry)); [|congruence].
  reflexivity.
Qed.

Lemma FirstNearest_snoc (px : N) (d : Dict) (best entry : string * string) :
  FirstNearest px d best ->
  FirstNearest px (d ++ [entry])%list
    (if (distance px entry <? distance px best)%Z then entry else best).
Proof.
  intros (earlier & later & -> & He & Hl).
  destruct (distance px entry <? distance px best)%Z eqn:E.
  - apply Z.ltb_lt in E.
    exists (earlier ++ best :: later)%list, []. split; [reflexivity|].
    split; [|intros e []].
    intros e Hin. apply in_app_or in Hin as [Hin | [<- | Hin]].
    + specialize (He e Hin). lia.
    + exact E.
    + specialize (Hl e Hin). lia.
  - apply Z.ltb_ge in E.
    exists earlier, (later ++ [entry])%list.
    split; [now rewrite <- app_assoc|]. split; [exact He|].
    intros e Hin. apply in_app_or in Hin as [Hin | [<- | []]]; auto.
Qed.

Lemma FirstNearest_parses (px : N) (d : Dict) (best : string * string) :
  Forall (fun e => parseInt (fst e) <> None) d ->
  FirstNearest px d best -> parseInt (fst best) <> None.
Proof.
  intros Hall (earlier & later & -> & _).
  apply Forall_app in Hall as [_ Hall]. now inversion Hall.
Qed.

Lemma reduce_closer (px : N) (rest : Dict) : forall seen best,
  Forall (fun e => parseInt (fst e) <> None) (seen ++ rest)%list ->
  FirstNearest px seen best ->
  FirstNearest px (seen ++ rest)%list (fold_left (closer (Some px)) rest best).
Proof.
  induction rest as [|entry rest IH]; intros seen best Hall Hbest.
  - now rewrite app_nil_r.
  - cbn [fold_left].
    replace (seen ++ entry :: rest)%list
      with ((seen ++ [entry]) ++ rest)%list in * by now rewrite <- app_assoc.
    apply IH; [exact Hall|].
    rewrite closer_step.
    + now apply FirstNearest_snoc.
    + apply Forall_app in Hall as [Hseen _].
      apply Forall_app in Hseen as [Hseen _].
      now apply (FirstNearest_parses px seen).
    + apply Forall_app in Hall as [Hseen _].
      apply Forall_app in Hseen as [_ Hentry]. now inversion Hentry.
Qed.

Lemma spacingMap_parses :
  Forall (fun e => parseInt (fst e) <> None) spacingMap.
Proof. repeat constructor; discriminate. Qed.

Lemma reduce_spacingMap (px : N) :
  exists best,
    reduce1 (closer (Some px)) spacingMap = Some best
    /\ FirstNearest px spacingMap best.
Proof.
  unfold spacingMap, buildSpacingMap, reduce1.
  eexists. split; [reflexivity|].
  apply (reduce_closer px _ [_]).
  - apply spacingMap_parses.
  - exists [], []. split; [reflexivity|]. split; intros e [].
Qed.

Lemma mapSpacing_pxString (px : N) :
  assoc (pxString px) spacingMap = None ->
  exists best,
    mapSpacing (Some (pxString px)) = Some (VStr (snd best))
    /\ FirstNearest px spacingMap best.
Proof.
  intros Hkey.
  destruct (reduce_spacingMap px) as (best & Hred & Hbest).
  exists best. split; [|exact Hbest].
  unfold mapSpacing.
  assert (Hne : nonEmpty (pxString px) = true).
  { unfold pxString. pose proof (numberToString_nonEmpty px) as H.
    destruct (numberToString px); [discriminate | reflexivity]. }
  unfold truthy, orElse, truthy. rewrite Hne. cbn [negb].
  unfold getProp. rewrite Hkey, pxString_not_inherited. cbn [truthyValue].
  rewrite exec_pxString, parseInt_numberToString, Hred. reflexivity.
Qed.

(** The pattern reads the first run of digits that [px] follows directly:
    the second value of a shorthand is ignored, and of a fractional value
    the digits after the point are read. *)
Example mapSpacing_shorthand :
  mapSpacing (Some "8px 16px") = Some (VStr "2")
  /\ mapSpacing (Some "9px 16px") = Some (VStr "2")
  /\ mapSpacing (Some "10.5px") = Some (VStr "1")
  /\ mapSpacing (Some "auto") = None.
Proof. repeat split. Qed.

End Spacing.

(** ** Color lookup *)

Section Colors.
Import StyleExtractor.

Lemma arrayIncludes_In (xs : list string) (x : string) :
  arrayIncludes xs x = true <-> In x xs.
Proof.
  unfold arrayIncludes. rewrite existsb_exists. split.
  - intros (y & Hin & Hy). apply String.eqb_eq in Hy. now subst.
  - intros H. exists x. split; [exact H | apply String.eqb_refl].
Qed.

Lemma assoc_In {A : Type} (k : string) (v : A) m :
  assoc k m = Some v -> In (k, v) m.
Proof.
  induction m as [|[k0 v0] m IH]; cbn; [discriminate|].
  destruct (k =? k0) eqn:E.
  - apply String.eqb_eq in E. intros [= ->]. subst. now left.
  - intros H. right. now apply IH.
Qed.

Lemma getProp_token d key token :
  getProp d key = Some (VStr token) -> In (key, token) d.
Proof.
  unfold getProp. destruct (assoc key d) eqn:E.
  - intros [= ->]. now apply assoc_In.
  - destruct (arrayIncludes objectPrototypeKeys key); discriminate.
Qed.

Lemma mapColor_keys :
  Forall (fun e => mapColor (Some (fst e)) = Some (VStr (snd e))) colorMap.
Proof. repeat constructor. Qed.

End Colors.

(** ** Colors are matched without regard to case *)

Section ColorCase.
Import Vocabulary StyleExtractor.

Lemma length_append (a b : string) :
  String.length (a ++ b) = String.length a + String.length b.
Proof. induction a as [|c a IH]; cbn; [reflexivity | now rewrite IH]. Qed.

Lemma toLowerCase_length (s : string) :
  String.length (toLowerCase s) = String.length s.
Proof. induction s as [|c s IH]; cbn; [reflexivity | now rewrite IH]. Qed.

(** A greedy repetition takes a prefix of its input and hands the rest to
    what follows. *)
Lemma greedy_split k finish (rest : string) : forall taken g,
  greedy k finish taken rest = Some g ->
  exists a b, rest = a ++ b /\ finish (taken ++ a) b = Some g.
Proof.
  induction rest as [|c rest IH]; intros taken g; cbn [greedy].
  - intros H. exists "", "". split; [reflexivity | now rewrite append_nil_r].
  - assert (Here : finish taken (String c rest) = Some g ->
                   exists a b, String c rest = a ++ b
                               /\ finish (taken ++ a) b = Some g).
    { intros H. exists "", (String c rest).
      split; [reflexivity | now rewrite append_nil_r]. }
    destruct (inClass k c); [|exact Here].
    destruct (greedy k finish (taken ++ String c "") rest) as [r|] eqn:G;
      [|exact Here].
    intros [= <-]. destruct (IH _ _ G) as (a & b & -> & F).
    exists (String c a), b. split; [reflexivity|].
    now rewrite append_assoc in F.
Qed.

Lemma matchHere_length (re : list Atom) : forall s g,
  matchHere re s = Some g -> minLen re <= String.length s.
Proof.
  induction re as [|[c | k plus cap] re IH]; intros s g; cbn [matchHere minLen].
  - intros _. lia.
  - destruct s as [|d s]; [discriminate|].
    destruct (Ascii.eqb c d); [|discriminate].
    intros H. apply IH in H. cbn. lia.
  - intros H. apply greedy_split in H as (a & b & -> & F).
    unfold finishRep in F. cbn [append] in F.
    rewrite length_append.
    destruct plus; cbn [andb] in F.
    + destruct (nonEmpty a) eqn:Na; cbn [negb] in F; [|discriminate].
      destruct (matchHere re b) as [g'|] eqn:M; [|discriminate].
      apply IH in M. destruct a; [discriminate|]. cbn. lia.
    + destruct (matchHere re b) as [g'|] eqn:M; [|discriminate].
      apply IH in M. lia.
Qed.

Lemma exec_length (re : list Atom) (s : string) : forall g,
  exec re s = Some g -> minLen re <= String.length s.
Proof.
  induction s as [|c s IH]; intros g; cbn [exec].
  - destruct (matchHere re "") eqn:M; [|discriminate].
    intros _. now apply matchHere_length in M.
  - destruct (matchHere re (String c s)) eqn:M.
    + intros _. now apply matchHere_length in M.
    + intros H. apply IH in H. cbn. lia.
Qed.

Lemma exec_rgb_short (s : string) :
  String.length s < 10 -> exec rgbPattern s = None.
Proof.
  intros H. destruct (exec rgbPattern s) as [g|] eqn:E; [|reflexivity].
  apply exec_length in E.
  change (minLen rgbPattern) with 10 in E. lia.
Qed.

Lemma colorMap_keys :
  Forall (fun e => String.length (fst e) = 7 /\ nonEmpty (snd e) = true)
         colorMap.
Proof. repeat constructor. Qed.

Lemma mapColor_lower (c t : string) :
  assoc (toLowerCase c) colorMap = Some t ->
  mapColor (Some c) = Some (VStr t).
Proof.
  intros H.
  pose proof (assoc_In _ _ _ H) as Hin.
  pose proof colorMap_keys as K. rewrite Forall_forall in K.
  destruct (K _ Hin) as [Hlen Hval]. cbn [fst snd] in Hlen, Hval.
  rewrite toLowerCase_length in Hlen.
  assert (Hne : nonEmpty c = true) by (destruct c; [discriminate | reflexivity]).
  unfold mapColor. cbn [truthy]. rewrite Hne. cbn [negb]. cbv zeta.
  unfold orElse. cbn [truthy]. rewrite Hne.
  unfold getProp at 1 2.
  destruct (assoc c colorMap) as [t'|] eqn:A.
  - (* the raw string is itself a key: it is its own lower case *)
    apply assoc_In in A. unfold colorMap, buildColorMap in A.
    cbn [In] in A.
    repeat (destruct A as [A | A];
            [injection A as <- <-; vm_compute in H; injection H as <-;
             reflexivity|]).
    destruct A.
  - destruct (arrayIncludes objectPrototypeKeys c) eqn:P.
    + apply arrayIncludes_In in P. unfold objectPrototypeKeys in P.
      cbn [In] in P.
      repeat (destruct P as [<- | P]; [vm_compute in H; discriminate H|]).
      destruct P.
    + cbn [truthyValue].
      unfold normalizeColor. rewrite Hne. cbn [negb].
      rewrite exec_rgb_short by lia.
      unfold getProp. rewrite H. cbn [truthyValue]. now rewrite Hval.
Qed.

End ColorCase.

(** ** Normalizing computed colors *)

Section RgbFacts.
Import Vocabulary StyleExtractor.

(** A run of characters of the class, followed by a character outside it,
    is taken whole when the rest of the pattern matches after it. *)
Lemma greedy_run k finish (ds : string) : forall taken s g,
  allIn k ds = true -> startsOutside k s ->
  finish (taken ++ ds) s = Some g ->
  greedy k finish taken (ds ++ s) = Some g.
Proof.
  induction ds as [|c ds IH]; intros taken s g Hd Hs F.
  - rewrite append_nil_r in F. cbn [append].
    destruct s as [|c s]; cbn [greedy]; [exact F|].
    cbn in Hs. now rewrite Hs.
  - cbn in Hd. apply andb_prop in Hd as [Hc Hd].
    cbn [append greedy]. rewrite Hc.
    rewrite (IH (taken ++ String c "") s g Hd Hs); [reflexivity|].
    now rewrite append_assoc.
Qed.

Lemma lit_step (c : ascii) re (s : string) :
  matchHere (Lit c :: re) (String c s) = matchHere re s.
Proof. cbn [matchHere]. now rewrite Ascii.eqb_refl. Qed.

Lemma numberToString_head (n : N) :
  exists c r, numberToString n = String c r /\ isDigit c = true.
Proof.
  pose proof (numberToString_nonEmpty n) as Hne.
  pose proof (digits_allDigits (N.to_uint n)) as Hd.
  fold (numberToString n) in Hd.
  destruct (numberToString n) as [|c r]; [discriminate|].
  cbn in Hd. apply andb_prop in Hd as [Hc _]. now exists c, r.
Qed.

Lemma digit_is_no_space (c : ascii) : isDigit c = true -> isSpace c = false.
Proof.
  destruct c as [[] [] [] [] [] [] [] []]; vm_compute; congruence.
Qed.

Lemma allDigits_allIn (s : string) : allDigits s = allIn Digit s.
Proof. induction s as [|c s IH]; cbn; [reflexivity | now rewrite IH]. Qed.

Lemma digits_group re (n : N) (s : string) g :
  startsOutside Digit s ->
  matchHere re s = Some g ->
  matchHere (Rep Digit true true :: re) (numberToString n ++ s)
  = Some (numberToString n :: g).
Proof.
  intros Hs M. cbn [matchHere]. apply greedy_run.
  - rewrite <- allDigits_allIn. apply digits_allDigits.
  - exact Hs.
  - cbn [append]. unfold finishRep.
    rewrite numberToString_nonEmpty, M. reflexivity.
Qed.

Lemma one_space re (s : string) g :
  startsOutside Space s ->
  matchHere re s = Some g ->
  matchHere (Rep Space false false :: re) (String " " s) = Some g.
Proof.
  intros Hs M. cbn [matchHere].
  apply (greedy_run Space _ " " "" s g); [reflexivity | exact Hs |].
  cbn [append]. unfold finishRep. now rewrite M.
Qed.

Lemma number_starts_outside_space (n : N) (s : string) :
  startsOutside Space (numberToString n ++ s).
Proof.
  destruct (numberToString_head n) as (c & r & -> & Hc).
  cbn. now apply digit_is_no_space.
Qed.

Lemma matchHere_rgbString (r g b : N) :
  matchHere rgbPattern (rgbString r g b)
  = Some [numberToString r; numberToString g; numberToString b].
Proof.
  change rgbPattern
    with [Lit "r"%char; Lit "g"%char; Lit "b"%char; Lit "("%char;
          Rep Digit true true; Lit ","%char;
          Rep Space false false; Rep Digit true true; Lit ","%char;
          Rep Space false false; Rep Digit true true; Lit ")"%char].
  unfold rgbString. cbn [append]. rewrite !lit_step.
  apply digits_group; [reflexivity|]. cbn [append]. rewrite lit_step.
  apply one_space; [apply number_starts_outside_space|].
  apply digits_group; [reflexivity|]. cbn [append]. rewrite lit_step.
  apply one_space; [apply number_starts_outside_space|].
  apply digits_group; [reflexivity|]. cbn [append]. rewrite lit_step.
  reflexivity.
Qed.

Lemma exec_rgbString (r g b : N) :
  exec rgbPattern (rgbString r g b)
  = Some [numberToString r; numberToString g; numberToString b].
Proof.
  pose proof (matchHere_rgbString r g b) as M.
  destruct (rgbString r g b); cbn [exec]; now rewrite M.
Qed.

Lemma toLowerCase_append (a b : string) :
  toLowerCase (a ++ b) = toLowerCase a ++ toLowerCase b.
Proof. induction a as [|c a IH]; cbn; [reflexivity | now rewrite IH]. Qed.

Lemma hexByte_numberToString (n : N) :
  hexByte (numberToString n) = padStart2 (toHex n).
Proof. unfold hexByte. now rewrite parseInt_numberToString. Qed.

Lemma normalizeColor_rgbString (r g b : N) :
  normalizeColor (rgbString r g b) = "#" ++ hexPair r ++ hexPair g ++ hexPair b.
Proof.
  unfold normalizeColor.
  replace (nonEmpty (rgbString r g b)) with true by reflexivity.
  cbn [negb]. rewrite exec_rgbString, !hexByte_numberToString.
  unfold hexPair. cbn [append toLowerCase].
  rewrite !toLowerCase_append. reflexivity.
Qed.

Lemma hexPair_bytes (n : N) :
  (n < 256)%N ->
  String.length (hexPair n) = 2 /\ hexValue (hexPair n) = Some n.
Proof.
  intros H.
  assert (C : forallb
                (fun i =>
                   (String.length (hexPair (N.of_nat i)) =? 2)%nat
                   && match hexValue (hexPair (N.of_nat i)) with
                      | Some v => (v =? N.of_nat i)%N
                      | None => false
                      end) (seq 0 256) = true) by (vm_compute; reflexivity).
  rewrite forallb_forall in C.
  specialize (C (N.to_nat n)). rewrite N2Nat.id in C.
  assert (I : In (N.to_nat n) (seq 0 256)) by (apply in_seq; lia).
  apply C in I. apply andb_prop in I as [L V].
  apply Nat.eqb_eq in L. split; [exact L|].
  destruct (hexValue (hexPair n)) as [v|]; [|discriminate].
  apply N.eqb_eq in V. now subst.
Qed.

Lemma mapColor_rgbString (r g b : N) :
  mapColor (Some (rgbString r g b))
  = option_map VStr
      (assoc ("#" ++ hexPair r ++ hexPair g ++ hexPair b) colorMap).
Proof.
  unfold mapColor.
  replace (truthy (Some (rgbString r g b))) with true by reflexivity.
  cbn [negb]. cbv zeta.
  replace (orElse (Some (rgbString r g b)) "") with (rgbString r g b)
    by reflexivity.
  replace (getProp colorMap (rgbString r g b)) with (@None Value)
    by reflexivity.
  cbn [truthyValue]. rewrite normalizeColor_rgbString.
  unfold getProp.
  destruct (assoc ("#" ++ hexPair r ++ hexPair g ++ hexPair b) colorMap)
    as [t|] eqn:A.
  - cbn [truthyValue option_map].
    apply assoc_In in A. pose proof colorMap_keys as K.
    rewrite Forall_forall in K. destruct (K _ A) as [_ V].
    cbn [snd] in V. now rewrite V.
  - reflexivity.
Qed.

End RgbFacts.

(** ** Colors are looked up, never approximated *)

Section ColorLookup.
Import Vocabulary StyleExtractor.

Lemma allSpace_allIn (s : string) : allSpace s = allIn Space s.
Proof. induction s as [|c s IH]; cbn; [reflexivity | now rewrite IH]. Qed.

Lemma spaces_run re (sp s : string) g :
  allSpace sp = true ->
  startsOutside Space s ->
  matchHere re s = Some g ->
  matchHere (Rep Space false false :: re) (sp ++ s) = Some g.
Proof.
  intros Hsp Hs M. cbn [matchHere].
  apply greedy_run; [now rewrite <- allSpace_allIn | exact Hs |].
  cbn [append]. unfold finishRep. cbn [andb]. now rewrite M.
Qed.

Lemma matchHere_rgbTriple (r g b : N) (sp1 sp2 : string) :
  allSpace sp1 = true -> allSpace sp2 = true ->
  matchHere rgbPattern (rgbTriple r g b sp1 sp2)
  = Some [numberToString r; numberToString g; numberToString b].
Proof.
  intros H1 H2.
  change rgbPattern
    with [Lit "r"%char; Lit "g"%char; Lit "b"%char; Lit "("%char;
          Rep Digit true true; Lit ","%char;
          Rep Space false false; Rep Digit true true; Lit ","%char;
          Rep Space false false; Rep Digit true true; Lit ")"%char].
  unfold rgbTriple. cbn [append]. rewrite !lit_step.
  apply digits_group; [reflexivity|]. cbn [append]. rewrite lit_step.
  apply spaces_run; [exact H1 | apply number_starts_outside_space|].
  apply digits_group; [reflexivity|]. cbn [append]. rewrite lit_step.
  apply spaces_run; [exact H2 | apply number_starts_outside_space|].
  apply digits_group; [reflexivity|]. cbn [append]. rewrite lit_step.
  reflexivity.
Qed.

Lemma normalizeColor_rgbTriple (r g b : N) (sp1 sp2 : string) :
  allSpace sp1 = true -> allSpace sp2 = true ->
  normalizeColor (rgbTriple r g b sp1 sp2)
  = toLowerCase ("#" ++ padStart2 (toHex r) ++ padStart2 (toHex g)
                   ++ padStart2 (toHex b)).
Proof.
  intros H1 H2. pose proof (matchHere_rgbTriple r g b sp1 sp2 H1 H2) as M.
  unfold normalizeColor.
  replace (nonEmpty (rgbTriple r g b sp1 sp2)) with true by reflexivity.
  cbn [negb].
  replace (exec rgbPattern (rgbTriple r g b sp1 sp2))
    with (Some [numberToString r; numberToString g; numberToString b]).
  - now rewrite !hexByte_numberToString.
  - unfold rgbTriple in *. cbn [append exec] in *. now rewrite M.
Qed.

(** The pattern matches only where the text [rgb(] stands. *)
Lemma matchHere_rgb_prefix (s : string) g :
  matchHere rgbPattern s = Some g -> String.prefix "rgb(" s = true.
Proof.
  change rgbPattern
    with (Lit "r"%char :: Lit "g"%char :: Lit "b"%char :: Lit "("%char
            :: skipn 4 rgbPattern).
  generalize (skipn 4 rgbPattern). intros re.
  destruct s as [|c1 [|c2 [|c3 [|c4 s]]]]; cbn [matchHere];
    try discriminate;
    repeat match goal with
           | |- context [Ascii.eqb ?a ?b] =>
               destruct (Ascii.eqb_spec a b); [subst|discriminate]
           end; try discriminate.
  intros _. cbn. now destruct s.
Qed.

Lemma exec_rgb_includes (s : string) : forall g,
  exec rgbPattern s = Some g -> includes s "rgb(" = true.
Proof.
  induction s as [|c s IH]; intros g; cbn [exec includes].
  - destruct (matchHere rgbPattern "") eqn:M; [|discriminate].
    apply matchHere_rgb_prefix in M. discriminate M.
  - destruct (matchHere rgbPattern (String c s)) eqn:M.
    + intros _. apply matchHere_rgb_prefix in M. now rewrite M.
    + intros H. apply IH in H. rewrite H. apply orb_true_r.
Qed.

Lemma normalizeColor_plain (color : string) :
  includes color "rgb(" = false -> normalizeColor color = toLowerCase color.
Proof.
  intros H. unfold normalizeColor.
  destruct color as [|c color]; [reflexivity|]. cbn [nonEmpty negb].
  destruct (exec rgbPattern (String c color)) as [g|] eqn:E; [|reflexivity].
  apply exec_rgb_includes in E. congruence.
Qed.

Lemma getProp_None (d : Dict) (key : string) :
  getProp d key = None <-> assoc key d = None /\ inherited key = false.
Proof.
  unfold getProp, inherited. destruct (assoc key d).
  - split; [discriminate | intros [H _]; discriminate H].
  - destruct (arrayIncludes objectPrototypeKeys key); split;
      solve [discriminate | intros [_ H]; discriminate H | auto].
Qed.

Lemma getProp_VStr (d : Dict) (key token : string) :
  getProp d key = Some (VStr token) <-> assoc key d = Some token.
Proof.
  unfold getProp. destruct (assoc key d).
  - split; intros [= ->]; reflexivity.
  - destruct (arrayIncludes objectPrototypeKeys key); split; discriminate.
Qed.

Lemma getProp_colorMap_truthy (key : string) v :
  getProp colorMap key = Some v -> truthyValue (Some v) = true.
Proof.
  unfold getProp. destruct (assoc key colorMap) as [t|] eqn:A.
  - intros [= <-]. apply assoc_In in A.
    pose proof colorMap_keys as K. rewrite Forall_forall in K.
    now destruct (K _ A) as [_ V].
  - destruct (arrayIncludes objectPrototypeKeys key); [|discriminate].
    intros [= <-]. reflexivity.
Qed.

(** The two lookups of [mapColor], one after the other. *)
Lemma mapColor_steps (color : string) :
  mapColor (Some color)
  = match getProp colorMap color with
    | Some v => Some v
    | None => getProp colorMap (normalizeColor color)
    end.
Proof.
  destruct color as [|c color]; [reflexivity|].
  unfold mapColor. cbn [truthy nonEmpty negb]. cbv zeta.
  unfold orElse. cbn [truthy nonEmpty].
  set (raw := String c color).
  destruct (getProp colorMap raw) as [v|] eqn:G.
  - now rewrite (getProp_colorMap_truthy raw v G).
  - cbn [truthyValue].
    destruct (getProp colorMap (normalizeColor raw)) as [v|] eqn:G'.
    + now rewrite (getProp_colorMap_truthy _ v G').
    + reflexivity.
Qed.

Lemma keys_are_normal :
  Forall (fun e => normalizeColor (fst e) = fst e) colorMap.
Proof. repeat constructor. Qed.

Lemma inherited_names :
  Forall (fun name =>
            assoc name colorMap = None
            /\ assoc (normalizeColor name) colorMap = None
            /\ mapColor (Some name) = Some (VInherited name))
         objectPrototypeKeys.
Proof. repeat constructor. Qed.

Lemma mapColor_token_iff (color token : string) :
  mapColor (Some color) = Some (VStr token)
  <-> assoc color colorMap = Some token
      \/ assoc (normalizeColor color) colorMap = Some token.
Proof.
  rewrite mapColor_steps. split.
  - destruct (getProp colorMap color) as [v|] eqn:G.
    + intros [= ->]. left. now apply getProp_VStr.
    + intros H. right. now apply getProp_VStr.
  - intros [H | H].
    + apply getProp_VStr in H. now rewrite H.
    + destruct (assoc color colorMap) as [t|] eqn:A.
      * pose proof (assoc_In _ _ _ A) as I.
        pose proof keys_are_normal as K. rewrite Forall_forall in K.
        apply K in I. cbn [fst] in I. rewrite I in H.
        assert (t = token) by congruence. subst t.
        apply getProp_VStr in A. now rewrite A.
      * destruct (inherited color) eqn:P.
        -- apply arrayIncludes_In in P.
           pose proof inherited_names as K. rewrite Forall_forall in K.
           destruct (K _ P) as (_ & N & _). congruence.
        -- assert (G : getProp colorMap color = None)
             by (apply getProp_None; now split).
           rewrite G. now apply getProp_VStr.
Qed.

Lemma mapColor_null_iff (color : string) :
  mapColor (Some color) = None
  <-> (assoc color colorMap = None /\ inherited color = false)
      /\ (assoc (normalizeColor color) colorMap = None
          /\ inherited (normalizeColor color) = false).
Proof.
  rewrite mapColor_steps, <- !getProp_None.
  destruct (getProp colorMap color) as [v|].
  - split; [discriminate | intros [H _]; discriminate H].
  - split; [intros H; now split | intros [_ H]; exact H].
Qed.

End ColorLookup.

(** ** Navigation entries *)

Section Navigation.
Import ComponentMapper.

Lemma fold_keep {A B : Type} (p : A -> bool) (f : A -> B) (l : list A) :
  forall acc,
    fold_left (fun out a => if p a then (out ++ [f a])%list else out) l acc
    = (acc ++ map f (filter p l))%list.
Proof.
  induction l as [|a l IH]; intros acc; cbn [fold_left filter].
  - now rewrite app_nil_r.
  - rewrite IH. destruct (p a); cbn [map]; [|reflexivity].
    now rewrite <- app_assoc.
Qed.

Lemma mapNavigationComponents_filter (report : AnalysisReport) :
  mapNavigationComponents report
  = map navigationOf
      (filter (fun s => s_purpose s =? "navigation") (sections report)).
Proof. unfold mapNavigationComponents. now rewrite fold_keep. Qed.

End Navigation.

(** ** Sections and the depth bound *)

Section Sections.

Lemma identifyPageSections_within (root : Node) :
  identifyPageSections (Some root)
  = map sectionOf (filter isSectionTag (within 10 root)).
Proof.
  unfold identifyPageSections. rewrite section_walk. cbn [Nat.ltb Nat.leb app].
  apply flat_map_filter.
Qed.

Lemma landmark_is_selector (t : string) :
  hasLandmarkTag t = true -> arrayIncludes sectionSelectors t = true.
Proof.
  unfold hasLandmarkTag, arrayIncludes, landmarkTags, sectionSelectors.
  cbn [existsb]. intros H.
  repeat (apply orb_prop in H as [H | H]; [rewrite H; now rewrite ?orb_true_r|]).
  discriminate.
Qed.

Lemma selector_of_element (n : Node) :
  isElementName (tag n) = true -> isSectionTag n = hasLandmarkTag (tag n).
Proof.
  intros E. destruct (hasLandmarkTag (tag n)) eqn:L.
  - now apply landmark_is_selector.
  - destruct (isSectionTag n) eqn:S; [|reflexivity].
    unfold isSectionTag in S. apply arrayIncludes_In in S.
    unfold sectionSelectors in S. cbn [In] in S.
    repeat (destruct S as [S | S];
            [rewrite <- S in L, E; vm_compute in L, E; congruence|]).
    destruct S.
Qed.

Lemma filter_map_comm {A B : Type} (p : B -> bool) (f : A -> B) (l : list A) :
  filter p (map f l) = map f (filter (fun a => p (f a)) l).
Proof.
  induction l as [|a l IH]; cbn; [reflexivity|].
  destruct (p (f a)); cbn; now rewrite IH.
Qed.

Lemma filter_filter {A : Type} (p q : A -> bool) (l : list A) :
  (forall a, q a = true -> p a = true) ->
  filter q (filter p l) = filter q l.
Proof.
  intros H. induction l as [|a l IH]; cbn; [reflexivity|].
  destruct (p a) eqn:Hp; cbn.
  - destruct (q a); now rewrite IH.
  - destruct (q a) eqn:Hq; [|exact IH].
    apply H in Hq. congruence.
Qed.

Lemma prune_children (d : nat) (n : Node) :
  children (prune (S d) n) = map (prune d) (children n).
Proof. reflexivity. Qed.




End Sections.

(** ** The walks without a depth bound *)

Section Unbounded.





Lemma analyzeLayoutPatterns_preorder (root : Node) :
  analyzeLayoutPatterns (Some root) = flat_map layoutsAt (preorder root).
Proof. unfold analyzeLayoutPatterns. now rewrite layout_walk. Qed.


Lemma extractDesignTokens_preorder (root : Node) :
  extractDesignTokens (Some root)
  = fold_left (fun t m => collectTokens m t) (preorder root) noTokens.
Proof. unfold extractDesignTokens. now rewrite token_walk. Qed.



Lemma detectRepeatedPatterns_preorder (root : Node) :
  detectRepeatedPatterns (Some root)
  = fold_left keepRepeated
      (fold_left (fun m k => recordSignature k m) (preorder root) []) [].
Proof. unfold detectRepeatedPatterns. now rewrite pattern_walk. Qed.





End Unbounded.

(** ** Interactive descendants *)

Section Eligibility.

Lemma hasInteractiveElements_preorder (n : Node) :
  hasInteractiveElements n
  = existsb (fun m => arrayIncludes interactiveTags (tag m)) (preorder n).
Proof.
  induction n as [t i cl at_ r st cs IH] using Node_rose_ind.
  cbn [hasInteractiveElements preorder existsb tag children].
  destruct (arrayIncludes interactiveTags t); [reflexivity|].
  cbn [orb]. induction IH as [|c cs Hc _ IHcs]; [reflexivity|].
  cbn [existsb flat_map]. now rewrite existsb_app, Hc, IHcs.
Qed.

Lemma nonempty_length {A : Type} (l : list A) :
  (0 <? length l)%nat = true <-> l <> [].
Proof.
  destruct l; cbn; split; intros H; try discriminate; try reflexivity.
  now destruct H.
Qed.

Lemma isComponentLike_iff (n : Node) :
  isComponentLike n = true
  <-> (truthy (id n) = true \/ classes n <> [])
      /\ (children n <> []
          \/ exists m, In m (preorder n)
                       /\ arrayIncludes interactiveTags (tag m) = true).
Proof.
  unfold isComponentLike.
  rewrite andb_true_iff, !orb_true_iff, !nonempty_length.
  rewrite hasInteractiveElements_preorder, existsb_exists.
  reflexivity.
Qed.

End Eligibility.

(** ** Nodes with all their fields never throw *)

Section Refinement.

Lemma inject_unfold (n : Node) :
  Loose.inject n
  = Loose.mkObj (Some (tag n)) (id n) (Some (classes n)) (Some (attributes n))
      (rect n) (styles n) (Some (map Loose.inject (children n))).
Proof. destruct n; reflexivity. Qed.

Lemma loose_childCount (n : Node) :
  Loose.childCount (Loose.inject n) = childCount n.
Proof.
  rewrite inject_unfold. unfold Loose.childCount, childCount.
  cbn [Loose.children]. apply length_map.
Qed.

Lemma loose_signature (n : Node) :
  Loose.generateComponentSignature (Loose.inject n)
  = Loose.Normal (generateComponentSignature n).
Proof.
  unfold Loose.generateComponentSignature, generateComponentSignature.
  rewrite loose_childCount, inject_unfold. reflexivity.
Qed.

Lemma loose_name (n : Node) :
  Loose.generateComponentName (Loose.inject n) = generateComponentName n.
Proof.
  rewrite inject_unfold.
  unfold Loose.generateComponentName, generateComponentName.
  cbn [Loose.id Loose.classes Loose.tag Loose.interpolate].
  destruct (truthy (id n)); [reflexivity|]. now destruct (classes n).
Qed.

Lemma loose_interactive (n : Node) :
  Loose.hasInteractiveElements (Loose.inject n) = hasInteractiveElements n.
Proof.
  induction n as [t i cl at_ r st cs IH] using Node_rose_ind.
  cbn [Loose.inject Loose.hasInteractiveElements hasInteractiveElements
       Loose.tag Loose.children tag children Loose.includesField].
  destruct (arrayIncludes interactiveTags t); [reflexivity|].
  induction IH as [|c cs Hc _ IHcs]; cbn [map existsb]; [reflexivity|].
  now rewrite Hc, IHcs.
Qed.

Lemma loose_isComponentLike (n : Node) :
  Loose.isComponentLike (Loose.inject n) = isComponentLike n.
Proof.
  unfold Loose.isComponentLike, isComponentLike.
  rewrite loose_interactive, inject_unfold.
  cbn [Loose.id Loose.classes Loose.children]. now rewrite length_map.
Qed.

Lemma loose_type (n : Node) :
  Loose.estimateComponentType (Loose.inject n)
  = Loose.Normal (estimateComponentType n).
Proof. rewrite inject_unfold. reflexivity. Qed.

Lemma loose_purpose (n : Node) :
  Loose.identifySectionPurpose (Loose.inject n)
  = Loose.Normal (identifySectionPurpose n).
Proof. rewrite inject_unfold. reflexivity. Qed.

Lemma loose_componentOf (n : Node) :
  Loose.componentOf (Loose.inject n) (generateComponentSignature n)
  = Loose.Normal (Loose.injectComponent (componentOf n)).
Proof.
  unfold Loose.componentOf. rewrite loose_type. cbn [Loose.bind].
  rewrite loose_name, loose_childCount, loose_interactive, inject_unfold.
  reflexivity.
Qed.

Lemma loose_component_forEach (ref : NodeRef) (cs : list Node) :
  Forall (fun c => forall ref st,
            Loose.ComponentWalk.traverseNode (Loose.inject c) ref
              (Loose.injectScan st)
            = Loose.Normal
                (Loose.injectScan (ComponentWalk.traverseNode c ref st))) cs ->
  forall i st,
    Loose.forEachFrom
      (fun child k acc =>
         Loose.ComponentWalk.traverseNode child (ref ++ [k])%list acc)
      (map Loose.inject cs) i (Loose.injectScan st)
    = Loose.Normal
        (Loose.injectScan
           (forEachFrom
              (fun child k acc =>
                 ComponentWalk.traverseNode child (ref ++ [k])%list acc)
              cs i st)).
Proof.
  induction 1 as [|c cs Hc _ IH]; intros i st;
    cbn [map Loose.forEachFrom forEachFrom]; [reflexivity|].
  rewrite Hc. cbn [Loose.bind]. apply IH.
Qed.

Lemma loose_component_walk (n : Node) : forall ref st,
  Loose.ComponentWalk.traverseNode (Loose.inject n) ref (Loose.injectScan st)
  = Loose.Normal (Loose.injectScan (ComponentWalk.traverseNode n ref st)).
Proof.
  induction n as [t i cl at_ r s cs IH] using Node_rose_ind. intros ref st.
  set (node := mkNode t i cl at_ r s cs).
  pose proof (loose_signature node) as Hs.
  pose proof (loose_isComponentLike node) as Hl.
  pose proof (loose_componentOf node) as Hc.
  pose proof (loose_component_forEach ref cs IH 0) as Hf.
  change (Loose.inject node)
    with (Loose.mkObj (Some t) i (Some cl) (Some at_) r s
            (Some (map Loose.inject cs))) in *.
  subst node.
  cbn [Loose.ComponentWalk.traverseNode ComponentWalk.traverseNode].
  change (Loose.hasVisited ref (Loose.injectScan st)) with (hasVisited ref st).
  destruct (hasVisited ref st); [reflexivity|].
  rewrite Hs. cbn [Loose.bind]. rewrite Hl.
  cbn [Loose.children children].
  destruct (isComponentLike (mkNode t i cl at_ r s cs)).
  - rewrite Hc. cbn [Loose.bind].
    rewrite <- Hf. f_equal. unfold Loose.injectScan.
    cbn [visited found Loose.visited Loose.found]. now rewrite map_app.
  - cbn [Loose.bind]. rewrite <- Hf. reflexivity.
Qed.

Lemma loose_components (domData : option Node) :
  Loose.analyzeComponentStructure (option_map Loose.inject domData)
  = Loose.Normal (map Loose.injectComponent (analyzeComponentStructure domData)).
Proof.
  destruct domData as [root|]; [|reflexivity].
  cbn [option_map Loose.analyzeComponentStructure analyzeComponentStructure].
  change {| Loose.visited := []; Loose.found := [] |}
    with (Loose.injectScan {| visited := []; found := [] |}).
  now rewrite loose_component_walk.
Qed.

Lemma loose_detectLayout (n : Node) :
  Loose.detectLayout (Loose.inject n) = detectLayout n.
Proof. rewrite inject_unfold. reflexivity. Qed.

Lemma loose_layout_walk (n : Node) : forall acc,
  Loose.LayoutWalk.traverseNode (Loose.inject n) (map Loose.injectLayout acc)
  = map Loose.injectLayout (LayoutWalk.traverseNode n acc).
Proof.
  induction n as [t i cl at_ r s cs IH] using Node_rose_ind. intros acc.
  set (node := mkNode t i cl at_ r s cs).
  pose proof (loose_detectLayout node) as Hd.
  pose proof (loose_childCount node) as Hn.
  change (Loose.inject node)
    with (Loose.mkObj (Some t) i (Some cl) (Some at_) r s
            (Some (map Loose.inject cs))) in *.
  subst node.
  cbn [Loose.LayoutWalk.traverseNode LayoutWalk.traverseNode].
  rewrite Hd. cbn [Loose.children children].
  match goal with
  | |- fold_left _ _ ?a = map _ (fold_left _ _ ?b) =>
      replace a with (map Loose.injectLayout b); [generalize b|]
  end.
  - clear Hd Hn acc.
    induction IH as [|c cs' Hc _ IHcs]; intros acc; cbn [map fold_left];
      [reflexivity|].
    now rewrite Hc, IHcs.
  - destruct (detectLayout (mkNode t i cl at_ r s cs)); [|reflexivity].
    rewrite map_app. cbn [map]. unfold Loose.layoutOf, Loose.injectLayout.
    rewrite Hn. reflexivity.
Qed.

Lemma loose_layouts (domData : option Node) :
  Loose.analyzeLayoutPatterns (option_map Loose.inject domData)
  = map Loose.injectLayout (analyzeLayoutPatterns domData).
Proof.
  destruct domData as [root|]; [|reflexivity].
  exact (loose_layout_walk root []).
Qed.

Lemma loose_token_walk (n : Node) : forall tokens,
  Loose.TokenWalk.traverseNode (Loose.inject n) tokens
  = TokenWalk.traverseNode n tokens.
Proof.
  induction n as [t i cl at_ r s cs IH] using Node_rose_ind. intros tokens.
  cbn [Loose.inject Loose.TokenWalk.traverseNode TokenWalk.traverseNode
       Loose.children children].
  change (Loose.collectTokens _ tokens)
    with (collectTokens (mkNode t i cl at_ r s cs) tokens).
  generalize (collectTokens (mkNode t i cl at_ r s cs) tokens).
  induction IH as [|c cs Hc _ IHcs]; intros acc; cbn [map fold_left];
    [reflexivity|].
  now rewrite Hc, IHcs.
Qed.

Lemma loose_tokens (domData : option Node) :
  Loose.extractDesignTokens (option_map Loose.inject domData)
  = extractDesignTokens domData.
Proof.
  destruct domData as [root|]; [|reflexivity].
  exact (loose_token_walk root noTokens).
Qed.

Lemma assoc_mapValues {A B : Type} (f : A -> B) (k : string) m :
  assoc k (Loose.mapValues f m) = option_map f (assoc k m).
Proof.
  unfold Loose.mapValues.
  induction m as [|[k0 v] m IH]; cbn; [reflexivity|].
  destruct (k =? k0); [reflexivity | exact IH].
Qed.

Lemma objSet_mapValues {A B : Type} (f : A -> B) (k : string) (v : A) m :
  objSet k (f v) (Loose.mapValues f m) = Loose.mapValues f (objSet k v m).
Proof.
  unfold Loose.mapValues.
  induction m as [|[k0 v0] m IH]; cbn; [reflexivity|].
  destruct (k =? k0); cbn; [reflexivity | now rewrite IH].
Qed.

Lemma loose_recordSignature (n : Node) m :
  Loose.recordSignature (Loose.inject n)
    (Loose.mapValues (map Loose.inject) m)
  = Loose.Normal (Loose.mapValues (map Loose.inject) (recordSignature n m)).
Proof.
  unfold Loose.recordSignature, recordSignature.
  rewrite loose_signature. cbn [Loose.bind]. f_equal.
  set (sig := generateComponentSignature n).
  rewrite assoc_mapValues.
  destruct (assoc sig m) as [nodes|] eqn:A; cbn [option_map].
  - rewrite assoc_mapValues, A. cbn [option_map].
    rewrite <- objSet_mapValues, map_app. reflexivity.
  - change (@nil Loose.Obj) with (map Loose.inject []).
    rewrite objSet_mapValues, assoc_mapValues.
    destruct (assoc sig (objSet sig [] m)) as [nodes|]; cbn [option_map];
      [|reflexivity].
    rewrite <- (objSet_mapValues _ sig (nodes ++ [n])%list), map_app.
    reflexivity.
Qed.

Lemma loose_pattern_walk (n : Node) : forall m,
  Loose.PatternWalk.traverseNode (Loose.inject n)
    (Loose.mapValues (map Loose.inject) m)
  = Loose.Normal
      (Loose.mapValues (map Loose.inject) (PatternWalk.traverseNode n m)).
Proof.
  induction n as [t i cl at_ r s cs IH] using Node_rose_ind. intros m.
  set (node := mkNode t i cl at_ r s cs).
  pose proof (loose_recordSignature node m) as Hr.
  change (Loose.inject node)
    with (Loose.mkObj (Some t) i (Some cl) (Some at_) r s
            (Some (map Loose.inject cs))) in *.
  subst node.
  cbn [Loose.PatternWalk.traverseNode PatternWalk.traverseNode].
  rewrite Hr. cbn [Loose.bind Loose.children children].
  generalize (recordSignature (mkNode t i cl at_ r s cs) m). clear Hr.
  induction IH as [|c cs' Hc _ IHcs]; intros acc;
    cbn [map fold_left Loose.forEach]; [reflexivity|].
  rewrite Hc. cbn [Loose.bind]. apply IHcs.
Qed.

Lemma loose_keepRepeated entries : forall patterns,
  fold_left Loose.keepRepeated (Loose.mapValues (map Loose.inject) entries)
    (Loose.mapValues Loose.injectPattern patterns)
  = Loose.mapValues Loose.injectPattern
      (fold_left keepRepeated entries patterns).
Proof.
  induction entries as [|[sig nodes] entries IH]; intros patterns;
    [reflexivity|].
  change (Loose.mapValues (map Loose.inject) ((sig, nodes) :: entries))
    with ((sig, map Loose.inject nodes)
            :: Loose.mapValues (map Loose.inject) entries).
  cbn [fold_left]. rewrite <- IH. f_equal.
  unfold Loose.keepRepeated, keepRepeated. rewrite length_map.
  destruct (1 <? length nodes)%nat; [|reflexivity].
  rewrite <- objSet_mapValues. f_equal.
  unfold Loose.injectPattern. cbn [count examples]. f_equal.
  rewrite firstn_map, !map_map. apply map_ext.
  intros n. rewrite inject_unfold. reflexivity.
Qed.

Lemma loose_patterns (domData : option Node) :
  Loose.detectRepeatedPatterns (option_map Loose.inject domData)
  = Loose.Normal
      (Loose.mapValues Loose.injectPattern (detectRepeatedPatterns domData)).
Proof.
  unfold Loose.detectRepeatedPatterns, detectRepeatedPatterns.
  destruct domData as [root|]; cbn [option_map].
  - change (@nil (string * list Loose.Obj))
      with (Loose.mapValues (map Loose.inject) []).
    rewrite loose_pattern_walk. cbn [Loose.bind]. f_equal.
    exact (loose_keepRepeated _ []).
  - reflexivity.
Qed.

Lemma loose_sectionOf (n : Node) :
  Loose.sectionOf (Loose.inject n)
  = Loose.Normal (Loose.injectSection (sectionOf n)).
Proof.
  unfold Loose.sectionOf. rewrite loose_purpose. cbn [Loose.bind].
  rewrite loose_childCount, inject_unfold. reflexivity.
Qed.

Lemma loose_section_walk (n : Node) : forall depth acc,
  Loose.SectionWalk.traverseNode (Loose.inject n) depth
    (map Loose.injectSection acc)
  = Loose.Normal
      (map Loose.injectSection (SectionWalk.traverseNode n depth acc)).
Proof.
  induction n as [t i cl at_ r s cs IH] using Node_rose_ind.
  intros depth acc.
  set (node := mkNode t i cl at_ r s cs).
  pose proof (loose_sectionOf node) as Hs.
  change (Loose.inject node)
    with (Loose.mkObj (Some t) i (Some cl) (Some at_) r s
            (Some (map Loose.inject cs))) in *.
  subst node.
  cbn [Loose.SectionWalk.traverseNode SectionWalk.traverseNode].
  destruct (10 <? depth)%nat; [reflexivity|].
  cbn [Loose.tag tag Loose.includesField Loose.children children].
  match goal with
  | |- Loose.bind ?c _ = Loose.Normal (map _ (fold_left _ _ ?b)) =>
      replace c with (Loose.Normal (map Loose.injectSection b));
        [cbn [Loose.bind]; generalize b|]
  end.
  - clear Hs acc.
    induction IH as [|c cs' Hc _ IHcs]; intros acc;
      cbn [map fold_left Loose.forEach]; [reflexivity|].
    rewrite Hc. cbn [Loose.bind]. apply IHcs.
  - destruct (arrayIncludes sectionSelectors t); [|reflexivity].
    rewrite Hs. cbn [Loose.bind]. now rewrite map_app.
Qed.

Lemma loose_sections (domData : option Node) :
  Loose.identifyPageSections (option_map Loose.inject domData)
  = Loose.Normal (map Loose.injectSection (identifyPageSections domData)).
Proof.
  destruct domData as [root|]; [|reflexivity].
  exact (loose_section_walk root 0 []).
Qed.

Lemma loose_report (now : string) (domData : option Node) :
  Loose.generateAnalysisReport now (option_map Loose.inject domData)
  = Loose.Normal (Loose.injectReport (generateAnalysisReport now domData)).
Proof.
  unfold Loose.generateAnalysisReport.
  rewrite loose_components, loose_patterns, loose_sections.
  cbn [Loose.bind]. now rewrite loose_layouts, loose_tokens.
Qed.

End Refinement.

(** * The properties the specification states *)

(** C1 (amended).  The signature of a node is its tag, a colon, its classes
    joined with dots, a colon, and its immediate child count in decimal.  Two
    nodes with the same tag, classes and child count have the same signature;
    two nodes with the same signature have the same child count; and when the
    tags hold no colon and the class tokens are non-empty and hold no dot, two
    nodes with the same signature have the same tag, classes and child
    count. *)
Theorem signature_of_shape (n1 n2 : Node) :
  generateComponentSignature n1
  = tag n1 ++ ":" ++ join "." (classes n1) ++ ":"
      ++ natToString (length (children n1))
  /\ (shape n1 = shape n2 ->
      generateComponentSignature n1 = generateComponentSignature n2)
  /\ (generateComponentSignature n1 = generateComponentSignature n2 ->
      length (children n1) = length (children n2))
  /\ (separable n1 -> separable n2 ->
      generateComponentSignature n1 = generateComponentSignature n2 ->
      shape n1 = shape n2).
Proof.
  split; [reflexivity|]. split; [|split].
  - unfold shape. intros [= Ht Hc Hn].
    unfold generateComponentSignature, childCount. now rewrite Ht, Hc, Hn.
  - apply signature_count.
  - apply signature_inj.
Qed.

(** The save and the cancel button differ in their id only, so equal
    signatures give back one and the same shape. *)
Lemma signature_of_shape_witness :
  separable saveButton /\ separable cancelButton
  /\ shape saveButton = shape cancelButton.
Proof.
  assert (Hs : separable saveButton) by (split; [reflexivity | repeat constructor]).
  assert (Hc : separable cancelButton) by (split; [reflexivity | repeat constructor]).
  split; [exact Hs|]. split; [exact Hc|].
  exact (proj2 (proj2 (proj2 (signature_of_shape saveButton cancelButton)))
           Hs Hc eq_refl).
Defined.

(** C1, as stated, fails: a class token with a dot in it and the two tokens
    it splits into give one signature for two different class lists. *)
Lemma signature_collision :
  generateComponentSignature dottedClass = generateComponentSignature splitClass
  /\ generateComponentSignature dottedClass = "div:w-1.5:0"
  /\ classes dottedClass <> classes splitClass.
Proof. split; [reflexivity|]. split; [reflexivity | discriminate]. Qed.

(** C2 (amended).  A raw pixel value [N px], with [N] below 2^53 and no exact
    key in the spacing dictionary, resolves to the token of the entry whose
    pixel magnitude is nearest to [N], and among equally near entries to the
    one declared first.  Raw 9px resolves to token 2 (the 8px entry), and raw
    10px, at distance 2 from both the 8px and the 12px entry, resolves to
    token 2 as well: the 8px entry is declared before the 12px entry. *)
Theorem spacing_first_nearest :
  (forall px : N,
      (px < 2 ^ 53)%N ->
      assoc (pxString px) StyleExtractor.spacingMap = None ->
      exists entry,
        StyleExtractor.mapSpacing (Some (pxString px)) = Some (VStr (snd entry))
        /\ FirstNearest px StyleExtractor.spacingMap entry)
  /\ StyleExtractor.mapSpacing (Some "9px") = Some (VStr "2")
  /\ StyleExtractor.mapSpacing (Some "10px") = Some (VStr "2")
  /\ FirstNearest 10 StyleExtractor.spacingMap ("8px", "2")
  /\ distance 10 ("8px", "2") = distance 10 ("12px", "3").
Proof.
  split; [intros px _; apply mapSpacing_pxString|].
  split; [reflexivity|]. split; [reflexivity|]. split; [|reflexivity].
  exists [("0px", "0"); ("4px", "1")],
         (skipn 3 StyleExtractor.spacingMap).
  split; [reflexivity|].
  split; intros e H; cbn in H;
    repeat (destruct H as [<- | H]; [vm_compute; reflexivity || discriminate|]);
    destruct H.
Qed.

(** Raw 10px has no key of its own, lies below 2^53, and resolves to the
    first of its nearest entries. *)
Lemma spacing_first_nearest_witness :
  (10 < 2 ^ 53)%N
  /\ assoc (pxString 10) StyleExtractor.spacingMap = None
  /\ exists entry,
       StyleExtractor.mapSpacing (Some (pxString 10)) = Some (VStr (snd entry))
       /\ FirstNearest 10 StyleExtractor.spacingMap entry.
Proof.
  assert (Hlt : (10 < 2 ^ 53)%N) by reflexivity.
  assert (Hkey : assoc (pxString 10) StyleExtractor.spacingMap = None)
    by reflexivity.
  split; [exact Hlt|]. split; [exact Hkey|].
  exact (proj1 spacing_first_nearest 10%N Hlt Hkey).
Defined.

(** C2, as stated, fails at raw 10px: the tie between the 8px and the 12px
    entry goes to the 8px entry, token 2, not to token 3. *)
Lemma spacing_tie_goes_to_first :
  StyleExtractor.mapSpacing (Some "10px") = Some (VStr "2")
  /\ StyleExtractor.mapSpacing (Some "10px") <> Some (VStr "3").
Proof.
  split; [reflexivity|]. intros H. vm_compute in H. discriminate H.
Qed.

(** C3 (amended).  [mapColor] yields a token only by dictionary lookup: of
    the raw string and, failing that, of its normalized form.  It has no
    nearest-color fallback.  For every raw color whose rgb channels, if it
    has any, lie below 2^53:
    - the result is the token [t] exactly when the raw string or its
      normalized form is a key with the token [t];
    - the result is null exactly when neither the raw string nor its
      normalized form is a key or one of the twelve names that every object
      inherits.
    Each of those twelve names is no key and still comes back non-null, with
    the inherited member.  The normalized form of a string without the text
    [rgb(] is its lower-case form; the normalized form of an rgb triple, with
    any white space after its commas, is the hash sign and the three
    channels in lower-case hex, two digits at least for each.  Every key maps
    to its own token, and a color one step away from a key maps to
    nothing. *)
Theorem color_lookup_only :
  (forall color token,
      exactChannels color = true ->
      StyleExtractor.mapColor (Some color) = Some (VStr token)
      <-> assoc color StyleExtractor.colorMap = Some token
          \/ assoc (StyleExtractor.normalizeColor color) StyleExtractor.colorMap
             = Some token)
  /\ (forall color,
         exactChannels color = true ->
         StyleExtractor.mapColor (Some color) = None
         <-> (assoc color StyleExtractor.colorMap = None
              /\ inherited color = false)
             /\ (assoc (StyleExtractor.normalizeColor color)
                       StyleExtractor.colorMap = None
                 /\ inherited (StyleExtractor.normalizeColor color) = false))
  /\ Forall (fun name =>
               assoc name StyleExtractor.colorMap = None
               /\ StyleExtractor.mapColor (Some name)
                  = Some (VInherited name))
            objectPrototypeKeys
  /\ (forall color,
         includes color "rgb(" = false ->
         StyleExtractor.normalizeColor color = toLowerCase color)
  /\ (forall (r g b : N) (sp1 sp2 : string),
         (r < 2 ^ 53)%N -> (g < 2 ^ 53)%N -> (b < 2 ^ 53)%N ->
         allSpace sp1 = true -> allSpace sp2 = true ->
         StyleExtractor.normalizeColor (rgbTriple r g b sp1 sp2)
         = toLowerCase ("#" ++ padStart2 (toHex r) ++ padStart2 (toHex g)
                          ++ padStart2 (toHex b)))
  /\ Forall (fun e => StyleExtractor.mapColor (Some (fst e)) = Some (VStr (snd e)))
            StyleExtractor.colorMap
  /\ StyleExtractor.mapColor (Some "#3b82f5") = None
  /\ StyleExtractor.mapColor (Some "rgb(59, 130, 245)") = None.
Proof.
  split; [intros color token _; apply mapColor_token_iff|].
  split; [intros color _; apply mapColor_null_iff|].
  split.
  { pose proof inherited_names as K. rewrite Forall_forall in *.
    intros name H. destruct (K name H) as (A & _ & M). now split. }
  split; [exact normalizeColor_plain|].
  split; [intros r g b sp1 sp2 _ _ _; apply normalizeColor_rgbTriple|].
  split; [exact mapColor_keys|]. split; reflexivity.
Qed.

(** The computed style [rgb(59, 130, 246)] is no key of the dictionary; it
    gets its token through its normalized form. *)
Lemma color_lookup_only_witness :
  exactChannels "rgb(59, 130, 246)" = true
  /\ assoc (StyleExtractor.normalizeColor "rgb(59, 130, 246)")
           StyleExtractor.colorMap = Some "blue-500"
  /\ StyleExtractor.mapColor (Some "rgb(59, 130, 246)") = Some (VStr "blue-500").
Proof.
  assert (E : exactChannels "rgb(59, 130, 246)" = true) by reflexivity.
  assert (A : assoc (StyleExtractor.normalizeColor "rgb(59, 130, 246)")
                StyleExtractor.colorMap = Some "blue-500") by reflexivity.
  split; [exact E|]. split; [exact A|].
  exact (proj2 (proj1 color_lookup_only "rgb(59, 130, 246)" "blue-500" E)
           (or_intror A)).
Defined.

(** C3, as stated, fails: a raw color that is not a key of the dictionary
    still gets a token when its normalized form is a key. *)
Lemma color_mapped_after_normalizing :
  assoc "rgb(59, 130, 246)" StyleExtractor.colorMap = None
  /\ StyleExtractor.mapColor (Some "rgb(59, 130, 246)") = Some (VStr "blue-500")
  /\ assoc "#FFFFFF" StyleExtractor.colorMap = None
  /\ StyleExtractor.mapColor (Some "#FFFFFF") = Some (VStr "white").
Proof. repeat split. Qed.

(** C4 (amended).  Each of the five analysis fields of a report is a
    function of the nodes of the snapshot alone, taken in pre-order (for the
    sections: of the nodes within ten levels): the records of the eligible
    nodes, the layout records, the tokens collected node by node, the
    signatures grouped node by node, the records of the nodes with a section
    tag.  Nothing in them comes from the clock, from an earlier call or from
    the identity of a node object, so two runs on the same snapshot agree on
    the five fields.  The report also carries a timestamp, the clock reading
    of the call, so two reports are equal exactly when the two clock
    readings are. *)
Theorem report_core_deterministic (now1 now2 : string) (domData : option Node) :
  let r1 := generateAnalysisReport now1 domData in
  let r2 := generateAnalysisReport now2 domData in
  match domData with
  | Some root =>
      r1 = {| components :=
                map componentOf (filter isComponentLike (preorder root));
              layouts := flat_map layoutsAt (preorder root);
              designTokens :=
                fold_left (fun t m => collectTokens m t) (preorder root)
                  noTokens;
              repeatedPatterns :=
                fold_left keepRepeated
                  (fold_left (fun m k => recordSignature k m) (preorder root)
                     []) [];
              sections := map sectionOf (filter isSectionTag (within 10 root));
              timestamp := now1 |}
  | None =>
      r1 = {| components := []; layouts := []; designTokens := noTokens;
              repeatedPatterns := []; sections := []; timestamp := now1 |}
  end
  /\ components r1 = components r2
  /\ layouts r1 = layouts r2
  /\ designTokens r1 = designTokens r2
  /\ repeatedPatterns r1 = repeatedPatterns r2
  /\ sections r1 = sections r2
  /\ timestamp r1 = now1
  /\ timestamp r2 = now2
  /\ (r1 = r2 <-> now1 = now2).
Proof.
  cbv zeta. split.
  - destruct domData as [root|]; [|reflexivity].
    unfold generateAnalysisReport.
    now rewrite analyzeComponentStructure_preorder,
      analyzeLayoutPatterns_preorder, extractDesignTokens_preorder,
      detectRepeatedPatterns_preorder, identifyPageSections_within.
  - repeat (split; [reflexivity|]). split.
    + intros H. now apply (f_equal timestamp) in H.
    + now intros ->.
Qed.

(** C4, as stated, fails: the report of a run holds the time of the run, so
    two runs on one snapshot a second apart give different reports. *)
Lemma report_differs_by_timestamp :
  timestamp (generateAnalysisReport "2024-01-01T00:00:00.000Z" (Some buttonBar))
  = "2024-01-01T00:00:00.000Z"
  /\ generateAnalysisReport "2024-01-01T00:00:00.000Z" (Some buttonBar)
     <> generateAnalysisReport "2024-01-01T00:00:01.000Z" (Some buttonBar).
Proof.
  split; [reflexivity|]. intros H.
  apply (f_equal timestamp) in H. discriminate.
Qed.

(** C5.  The components of a snapshot are the records of its eligible nodes,
    in pre-order.  A node is eligible exactly when it has a non-empty id or
    at least one class, and it has at least one child or an interactive tag
    (button, a, input, select, textarea) occurs in its subtree, the node
    itself included.  A childless button with classes btn and btn-primary is
    eligible and classified as a button; the container of three such buttons
    yields one container record and three button records. *)
Theorem component_gate :
  (forall root,
      analyzeComponentStructure (Some root)
      = map componentOf (filter isComponentLike (preorder root)))
  /\ (forall n,
         isComponentLike n = true
         <-> (truthy (id n) = true \/ classes n <> [])
             /\ (children n <> []
                 \/ exists m, In m (preorder n)
                              /\ arrayIncludes interactiveTags (tag m) = true))
  /\ (forall i at_ r st,
         let button := mkNode "button" i ["btn"; "btn-primary"] at_ r st [] in
         isComponentLike button = true
         /\ c_estimatedType (componentOf button) = "button")
  /\ map c_estimatedType (analyzeComponentStructure (Some buttonBar))
     = ["container"; "button"; "button"; "button"].
Proof.
  split; [exact analyzeComponentStructure_preorder|].
  split; [exact isComponentLike_iff|].
  split; [|reflexivity].
  intros i at_ r st. cbv zeta. split.
  - unfold isComponentLike. cbn. now rewrite orb_true_r.
  - reflexivity.
Qed.

(** C6.  A signature is a key of the repeated patterns exactly when more than
    one node of the tree carries it; its count is then the number of those
    nodes and its examples describe the first min(3, count) of them in
    pre-order.  The keys are pairwise different. *)
Theorem repeated_patterns_exact (root : Node) (s : string) :
  let group := withSignature s (preorder root) in
  let patterns := detectRepeatedPatterns (Some root) in
  (In s (map fst patterns) <-> 1 < length group)
  /\ (1 < length group ->
      assoc s patterns
      = Some {| count := length group;
                examples :=
                  map exampleOf (firstn (Nat.min 3 (length group)) group) |})
  /\ (length group <= 1 -> assoc s patterns = None)
  /\ NoDup (map fst patterns).
Proof.
  cbv zeta.
  pose proof (detectRepeatedPatterns_lookup root s) as L.
  destruct (1 <? length (withSignature s (preorder root)))%nat eqn:E.
  - apply Nat.ltb_lt in E. split; [|split; [|split]].
    + split; [intros _; exact E|]. intros _.
      destruct (in_dec string_dec s
                  (map fst (detectRepeatedPatterns (Some root)))) as [H | H];
        [exact H|].
      apply assoc_None_iff in H. congruence.
    + intros _. rewrite L. unfold patternOf. now rewrite firstn_min.
    + intros H. lia.
    + apply detectRepeatedPatterns_NoDup.
  - apply Nat.ltb_ge in E. split; [|split; [|split]].
    + split; [|intros H; lia]. intros H.
      apply assoc_None_iff in L. contradiction.
    + intros H. lia.
    + intros _. exact L.
    + apply detectRepeatedPatterns_NoDup.
Qed.

(** Three primary buttons in one container: the signature of the button is
    repeated three times. *)
Lemma repeated_patterns_exact_witness :
  1 < length (withSignature "button:btn.btn-primary:0" (preorder buttonBar))
  /\ assoc "button:btn.btn-primary:0" (detectRepeatedPatterns (Some buttonBar))
     = Some {| count := 3;
               examples := [exampleOf primaryButton; exampleOf primaryButton;
                            exampleOf primaryButton] |}.
Proof.
  assert (H : 1 < length (withSignature "button:btn.btn-primary:0"
                            (preorder buttonBar)))
    by (vm_compute; repeat constructor).
  split; [exact H|].
  exact (proj1 (proj2 (repeated_patterns_exact buttonBar
                         "button:btn.btn-primary:0")) H).
Defined.

(** C7 (amended).  The sections are exactly the nodes at most ten levels
    below the root whose tag is a landmark tag (header, nav, main, section,
    article, aside, footer), in pre-order.  Said of the elements that carry
    no landmark role:
    - the section records with a landmark tag are the records of the nodes
      with such a tag within ten levels, in pre-order;
    - every section record is the record of a node within ten levels;
    - such an element is recorded only if its tag is a landmark tag;
    - on a tree of such elements the sections are the records of the nodes
      with a landmark tag within ten levels, no more and no fewer. *)
Theorem sections_are_landmark_tags (root : Node) :
  filter (fun r => hasLandmarkTag (s_tag r)) (identifyPageSections (Some root))
  = map sectionOf (filter (fun n => hasLandmarkTag (tag n)) (within 10 root))
  /\ (forall r, In r (identifyPageSections (Some root)) ->
                exists n, In n (within 10 root) /\ r = sectionOf n)
  /\ (forall n, isPlainElement n = true ->
                In (sectionOf n) (identifyPageSections (Some root)) ->
                hasLandmarkTag (tag n) = true)
  /\ ((forall n, In n (within 10 root) -> isPlainElement n = true) ->
      identifyPageSections (Some root)
      = map sectionOf
          (filter (fun n => hasLandmarkTag (tag n)) (within 10 root))).
Proof.
  rewrite identifyPageSections_within. split; [|split; [|split]].
  - rewrite filter_map_comm. cbn [sectionOf s_tag].
    rewrite filter_filter; [reflexivity|].
    intros n. apply landmark_is_selector.
  - intros r H. apply in_map_iff in H as (n & <- & Hn).
    apply filter_In in Hn as [Hn _]. now exists n.
  - intros n P H. apply andb_prop in P as [E _].
    apply in_map_iff in H as (m & Hm & Hin).
    apply filter_In in Hin as [_ S].
    rewrite <- (selector_of_element n E). unfold isSectionTag in *.
    apply (f_equal s_tag) in Hm. cbn [sectionOf s_tag] in Hm. now rewrite <- Hm.
  - intros P. f_equal. apply filter_ext_in. intros n Hn.
    apply selector_of_element. apply P in Hn.
    now apply andb_prop in Hn as [E _].
Qed.

(** On the landing page every node is an element without a role; its
    sections are the header, the article and the footer, and the two plain
    containers are left out. *)
Lemma sections_are_landmark_tags_witness :
  Forall (fun n => isPlainElement n = true) (within 10 landingPage)
  /\ identifyPageSections (Some landingPage)
     = map sectionOf
         (filter (fun n => hasLandmarkTag (tag n)) (within 10 landingPage))
  /\ map s_tag (identifyPageSections (Some landingPage))
     = ["header"; "article"; "footer"].
Proof.
  assert (P : Forall (fun n => isPlainElement n = true) (within 10 landingPage))
    by (repeat constructor).
  split; [exact P|]. split; [|reflexivity].
  apply (proj2 (proj2 (proj2 (sections_are_landmark_tags landingPage)))).
  apply Forall_forall. exact P.
Defined.

(** C7, as stated, fails: a section element is a section record although it
    is none of the five tags and has no role, and a container whose role is
    navigation is not a section record. *)
Lemma sections_differ_from_spec_landmarks :
  identifyPageSections (Some roleNavigation) = [sectionOf plainSection]
  /\ specLandmark plainSection = false
  /\ specLandmark roleNavigation = true.
Proof. repeat split. Qed.


(** C9 (amended).  The layout of a navigation entry is grid when its classes,
    joined with spaces and lower-cased, contain grid; otherwise flex when
    they contain flex; otherwise block. *)
Theorem navigation_layout_type (report : AnalysisReport)
    (nav : ComponentMapper.NavigationComponent) :
  In nav (ComponentMapper.mapNavigationComponents report) ->
  let classes := toLowerCase (join " " (ComponentMapper.n_classes nav)) in
  ComponentMapper.n_layout nav
  = if includes classes "grid" then "grid"
    else if includes classes "flex" then "flex"
    else "block".
Proof.
  rewrite mapNavigationComponents_filter. intros H.
  apply in_map_iff in H as (section & <- & _). reflexivity.
Qed.

(** The navigation bar of a page is a navigation entry; its one class names
    no layout. *)
Lemma navigation_layout_type_witness :
  In (ComponentMapper.navigationOf (sectionOf navbar))
     (ComponentMapper.mapNavigationComponents
        (generateAnalysisReport "2024-01-01T00:00:00.000Z" (Some navbar)))
  /\ ComponentMapper.n_layout (ComponentMapper.navigationOf (sectionOf navbar))
     = "block".
Proof.
  assert (H : In (ComponentMapper.navigationOf (sectionOf navbar))
                 (ComponentMapper.mapNavigationComponents
                    (generateAnalysisReport "2024-01-01T00:00:00.000Z"
                       (Some navbar))))
    by (left; reflexivity).
  split; [exact H|].
  exact (navigation_layout_type _ _ H).
Defined.

(** C9, as stated, fails: a navigation entry whose classes contain neither
    keyword gets the layout block, not flex. *)
Lemma navigation_defaults_to_block :
  map ComponentMapper.n_layout
      (ComponentMapper.mapNavigationComponents
         (generateAnalysisReport "2024-01-01T00:00:00.000Z" (Some navbar)))
  = ["block"]
  /\ includes (toLowerCase (join " " (classes navbar))) "grid" = false
  /\ includes (toLowerCase (join " " (classes navbar))) "flex" = false.
Proof. repeat split. Qed.

(** C10.  On a null tree [generateAnalysisReport] returns the empty report,
    and so it does on a root that has nothing but its tag.  On the empty
    object it throws a [TypeError]: the component walk hands the object to
    [generateComponentSignature], which reads [node.classes.join] where
    [classes] is missing.  Every root without [classes] ends the call this
    way, although the layout walk, the token walk and the section walk,
    which read each field through a guard, return on the empty object.  On a
    tree with all its fields the call never throws: it returns the report
    that the walks over nodes compute. *)
Theorem empty_object_raises_type_error (now : string) :
  Loose.generateAnalysisReport now None = Loose.Normal (Loose.emptyReport now)
  /\ Loose.generateAnalysisReport now (Some (Loose.inject bareRoot))
     = Loose.Normal (Loose.emptyReport now)
  /\ Loose.generateAnalysisReport now (Some Loose.emptyObject)
     = Loose.Throw Loose.TypeError
  /\ Loose.generateComponentSignature Loose.emptyObject
     = Loose.Throw Loose.TypeError
  /\ (forall root,
         Loose.classes root = None ->
         Loose.generateAnalysisReport now (Some root)
         = Loose.Throw Loose.TypeError)
  /\ Loose.analyzeLayoutPatterns (Some Loose.emptyObject) = []
  /\ Loose.extractDesignTokens (Some Loose.emptyObject) = noTokens
  /\ Loose.identifyPageSections (Some Loose.emptyObject) = Loose.Normal []
  /\ (forall domData : option Node,
         Loose.generateAnalysisReport now (option_map Loose.inject domData)
         = Loose.Normal
             (Loose.injectReport (generateAnalysisReport now domData)))
  /\ Loose.injectReport (generateAnalysisReport now None)
     = Loose.emptyReport now.
Proof.
  repeat (split; [reflexivity|]).
  split.
  { intros root H. unfold Loose.generateAnalysisReport.
    replace (Loose.analyzeComponentStructure (Some root))
      with (@Loose.Throw (list Loose.ComponentRecord) Loose.TypeError);
      [reflexivity|].
    destruct root as [t i cl at_ r st cs]. cbn [Loose.classes] in H. subst cl.
    reflexivity. }
  repeat (split; [reflexivity|]).
  split; [apply loose_report | reflexivity].
Qed.


(** The empty object is a root without classes. *)
Lemma empty_object_raises_type_error_witness :
  Loose.classes Loose.emptyObject = None
  /\ Loose.generateAnalysisReport "2024-01-01T00:00:00.000Z"
       (Some Loose.emptyObject)
     = Loose.Throw Loose.TypeError.
Proof.
  assert (H : Loose.classes Loose.emptyObject = None) by reflexivity.
  split; [exact H|].
  destruct (empty_object_raises_type_error "2024-01-01T00:00:00.000Z")
    as (_ & _ & _ & _ & F & _).
  exact (F Loose.emptyObject H).
Defined.

(** * Further properties of the analysis *)

(** ** Classification *)

(** Decide the tests of a classifier on a literal tag. *)
Ltac literal_tests :=
  repeat match goal with
         | |- context [toLowerCase ?s] =>
             lazymatch s with
             | String _ _ =>
                 let v := eval vm_compute in (toLowerCase s) in
                 change (toLowerCase s) with v
             end
         | |- context [String.eqb ?a ?b] =>
             lazymatch a with
             | String _ _ =>
                 let v := eval vm_compute in (String.eqb a b) in
                 change (String.eqb a b) with v
             end
         end;
  cbn [orb andb].

Ltac split_tests :=
  repeat match goal with
         | |- context [if ?b then _ else _] => destruct b
         end.

Ltac pick := cbn; repeat (first [left; reflexivity | right]).

Section Classification.
Import Vocabulary ComponentMapper.

Lemma estimateComponentType_range (n : Node) :
  In (estimateComponentType n) semanticTypes.
Proof. unfold estimateComponentType. cbv zeta. split_tests; pick. Qed.

Lemma estimateComponentType_button (n : Node) :
  toLowerCase (tag n) = "button" -> estimateComponentType n = "button".
Proof. intros H. unfold estimateComponentType. rewrite H. reflexivity. Qed.


Lemma identifySectionPurpose_landmark (n : Node) :
  hasLandmarkTag (tag n) = true ->
  In (identifySectionPurpose n) sectionPurposes.
Proof.
  intros H. apply arrayIncludes_In in H. unfold landmarkTags in H.
  unfold identifySectionPurpose. cbv zeta.
  cbn [In] in H.
  repeat (destruct H as [<- | H]; [literal_tests; split_tests; pick|]).
  destruct H.
Qed.

(** What the classifier has ruled out when it answers input. *)
Lemma estimateComponentType_input (n : Node) :
  estimateComponentType n = "input" ->
  In (toLowerCase (tag n)) ["input"; "select"; "textarea"]
  /\ includes (lowerClasses (classes n)) "button" = false
  /\ includes (lowerId (id n)) "btn" = false
  /\ includes (lowerClasses (classes n)) "nav" = false
  /\ includes (lowerClasses (classes n)) "menu" = false
  /\ includes (lowerClasses (classes n)) "form" = false.
Proof.
  unfold estimateComponentType, lowerClasses, lowerId. cbv zeta.
  destruct (toLowerCase (tag n) =? "button") eqn:T1; cbn [orb];
    [discriminate|].
  destruct (includes (toLowerCase (join " " (classes n))) "button");
    cbn [orb]; [discriminate|].
  destruct (includes (toLowerCase (orElse (id n) "")) "btn");
    [discriminate|].
  destruct (toLowerCase (tag n) =? "nav"); cbn [orb]; [discriminate|].
  destruct (includes (toLowerCase (join " " (classes n))) "nav");
    cbn [orb]; [discriminate|].
  destruct (includes (toLowerCase (join " " (classes n))) "menu");
    [discriminate|].
  destruct (toLowerCase (tag n) =? "form"); cbn [orb]; [discriminate|].
  destruct (includes (toLowerCase (join " " (classes n))) "form");
    [discriminate|].
  destruct (toLowerCase (tag n) =? "input") eqn:I1; cbn [orb].
  { apply String.eqb_eq in I1. rewrite I1. intros _. repeat split. now left. }
  destruct (toLowerCase (tag n) =? "select") eqn:I2; cbn [orb].
  { apply String.eqb_eq in I2. rewrite I2. intros _. repeat split.
    right. now left. }
  destruct (toLowerCase (tag n) =? "textarea") eqn:I3.
  { apply String.eqb_eq in I3. rewrite I3. intros _. repeat split.
    right. right. now left. }
  split_tests; discriminate.
Qed.

Lemma pushEach_filter {A B : Type} (keep : A -> bool) (make : A -> B)
    (xs : list A) :
  pushEach keep make xs = map make (filter keep xs).
Proof. unfold pushEach. now rewrite fold_keep. Qed.

Lemma identifySectionPurpose_navigation (n : Node) :
  identifySectionPurpose n = "navigation" ->
  toLowerCase (tag n) <> "header"
  /\ includes (lowerId (id n)) "header" = false
  /\ (toLowerCase (tag n) = "nav"
      \/ includes (lowerClasses (classes n)) "nav" = true).
Proof.
  unfold identifySectionPurpose, lowerId, lowerClasses. cbv zeta.
  destruct (toLowerCase (tag n) =? "header") eqn:H1; cbn [orb];
    [discriminate|].
  apply String.eqb_neq in H1.
  destruct (includes (toLowerCase (orElse (id n) "")) "header");
    [discriminate|].
  destruct (toLowerCase (tag n) =? "nav") eqn:N1; cbn [orb].
  { apply String.eqb_eq in N1. intros _. auto. }
  destruct (includes (toLowerCase (join " " (classes n))) "nav").
  { intros _. auto. }
  split_tests; discriminate.
Qed.

Lemma detectLayout_display (n : Node) :
  match detectLayout n with
  | Some l => hasLayoutDisplay n = true /\ layoutType l = displayType n
  | None => hasLayoutDisplay n = false
  end.
Proof.
  unfold detectLayout, hasLayoutDisplay, displayType, strictEq.
  destruct (style display n) as [d|]; [|reflexivity].
  destruct (d =? "flex") eqn:F.
  { apply String.eqb_eq in F. subst d. now split. }
  destruct (d =? "grid") eqn:G.
  { apply String.eqb_eq in G. subst d. now split. }
  destruct (d =? "block") eqn:B; cbn [orb].
  { apply String.eqb_eq in B. subst d. now split. }
  destruct (d =? "inline-block") eqn:I.
  { apply String.eqb_eq in I. subst d. now split. }
  unfold arrayIncludes, layoutDisplays. cbn [existsb].
  now rewrite F, G, B, I.
Qed.

Lemma layoutsAt_display (n : Node) :
  map (fun r => (l_tag r, layoutType (l_layout r))) (layoutsAt n)
  = if hasLayoutDisplay n then [(tag n, displayType n)] else [].
Proof.
  pose proof (detectLayout_display n) as H. unfold layoutsAt.
  destruct (detectLayout n) as [l|].
  - destruct H as [-> <-]. reflexivity.
  - now rewrite H.
Qed.

End Classification.

(** X1.  The classifier answers with one of the eleven semantic types, and a
    node whose tag is button (in any case) is a button whatever its classes
    and id say. *)
Theorem classifier_closed_and_button_first (n : Node) :
  In (estimateComponentType n) Vocabulary.semanticTypes
  /\ (toLowerCase (tag n) = "button" -> estimateComponentType n = "button").
Proof.
  split; [apply estimateComponentType_range | apply estimateComponentType_button].
Qed.

(** A button with the class nav is a button, not a navigation. *)
Lemma classifier_closed_and_button_first_witness :
  includes (Vocabulary.lowerClasses (classes Vocabulary.navButton)) "nav" = true
  /\ estimateComponentType Vocabulary.navButton = "button".
Proof.
  split; [reflexivity|].
  exact (proj2 (classifier_closed_and_button_first Vocabulary.navButton)
           eq_refl).
Defined.

(** X2.  A section record whose tag is one of the seven landmark tags never
    has the purpose unknown: its purpose is header, navigation, main-content,
    sidebar, footer or content-section. *)
Theorem landmark_sections_have_purpose (root : Node) (r : SectionRecord) :
  In r (identifyPageSections (Some root)) ->
  hasLandmarkTag (s_tag r) = true ->
  In (s_purpose r) Vocabulary.sectionPurposes /\ s_purpose r <> "unknown".
Proof.
  rewrite identifyPageSections_within. intros H Htag.
  apply in_map_iff in H as (n & <- & _). cbn [sectionOf s_tag s_purpose] in *.
  pose proof (identifySectionPurpose_landmark n Htag) as P.
  split; [exact P|]. intros E. rewrite E in P. cbn in P.
  repeat (destruct P as [P | P]; [discriminate|]). destruct P.
Qed.

Lemma landmark_sections_have_purpose_witness :
  In (sectionOf Vocabulary.topNav)
     (identifyPageSections (Some Vocabulary.topNav))
  /\ s_purpose (sectionOf Vocabulary.topNav) <> "unknown".
Proof.
  assert (H : In (sectionOf Vocabulary.topNav)
                 (identifyPageSections (Some Vocabulary.topNav)))
    by (left; reflexivity).
  split; [exact H|].
  exact (proj2 (landmark_sections_have_purpose Vocabulary.topNav _ H eq_refl)).
Defined.

(** X3.  A node gets a layout descriptor exactly when its display is flex,
    grid, block or inline-block; the type of the descriptor is the display,
    with inline-block reported as block; display none gives no descriptor;
    and a flex container without a flex direction gets the direction row. *)
Theorem layout_of_display (n : Node) :
  (detectLayout n = None <-> Vocabulary.hasLayoutDisplay n = false)
  /\ (forall l, detectLayout n = Some l ->
                layoutType l = Vocabulary.displayType n)
  /\ (style display n = Some "none" -> detectLayout n = None)
  /\ (style display n = Some "flex" ->
      truthy (style flexDirection n) = false ->
      exists j a g, detectLayout n = Some (FlexLayout "row" j a g)).
Proof.
  pose proof (detectLayout_display n) as H.
  split; [|split; [|split]].
  - destruct (detectLayout n).
    + destruct H as [H _]. split; [discriminate | congruence].
    + now split.
  - intros l E. rewrite E in H. now destruct H.
  - intros D. unfold detectLayout, strictEq. now rewrite D.
  - intros D F. unfold detectLayout, strictEq, orElse. rewrite D, F.
    cbn. eauto.
Qed.

Lemma layout_of_display_witness :
  exists j a g, detectLayout (wrapper []) = Some (FlexLayout "row" j a g).
Proof.
  exact (proj2 (proj2 (proj2 (layout_of_display (wrapper []))))
           eq_refl eq_refl).
Defined.

(** ** The component map *)

Section ComponentMapFacts.
Import Vocabulary ComponentMapper.

Lemma components_of_report (now : string) (root : Node) :
  components (generateAnalysisReport now (Some root))
  = map componentOf (filter isComponentLike (preorder root)).
Proof. apply analyzeComponentStructure_preorder. Qed.

Lemma extractButtonVariant_range (c : ComponentRecord) :
  In (extractButtonVariant c) ["default"; "outline"; "destructive"; "ghost"].
Proof. unfold extractButtonVariant. cbv zeta. split_tests; pick. Qed.

Lemma extractButtonSize_range (c : ComponentRecord) :
  In (extractButtonSize c) ["lg"; "sm"; "default"].
Proof. unfold extractButtonSize. cbv zeta. split_tests; pick. Qed.

Lemma extractInputType_range (c : ComponentRecord) :
  In (extractInputType c) ["email"; "password"; "search"; "number"; "text"].
Proof. unfold extractInputType. cbv zeta. split_tests; pick. Qed.

Lemma filter_all {A : Type} (l : list A) : filter (fun _ => true) l = l.
Proof. induction l as [|a l IH]; cbn; [reflexivity | now rewrite IH]. Qed.

Lemma filter_cons_length {A : Type} (p : A -> bool) (a : A) (l : list A) :
  length (filter p (a :: l)) = (if p a then 1 else 0) + length (filter p l).
Proof. cbn [filter]. now destruct (p a). Qed.

(** Each component counts for exactly one of the five mapped types or for
    none of them. *)
Lemma partition_by_type (l : list ComponentRecord) :
  length (filter (hasType "button") l) + length (filter (hasType "form") l)
  + length (filter (hasType "card") l) + length (filter (hasType "modal") l)
  + length (filter (hasType "input") l)
  + length (filter (fun c => negb (arrayIncludes mappedTypes
                                     (c_estimatedType c))) l)
  = length l.
Proof.
  induction l as [|c l IH]; [reflexivity|].
  rewrite !filter_cons_length.
  set (n1 := length (filter (hasType "button") l)) in *.
  set (n2 := length (filter (hasType "form") l)) in *.
  set (n3 := length (filter (hasType "card") l)) in *.
  set (n4 := length (filter (hasType "modal") l)) in *.
  set (n5 := length (filter (hasType "input") l)) in *.
  set (n6 := length (filter (fun c => negb (arrayIncludes mappedTypes
                                              (c_estimatedType c))) l)) in *.
  clearbody n1 n2 n3 n4 n5 n6.
  unfold hasType, arrayIncludes, mappedTypes. cbn [existsb].
  destruct (c_estimatedType c =? "button") eqn:E1.
  { apply String.eqb_eq in E1. rewrite ?E1. cbn. lia. }
  destruct (c_estimatedType c =? "form") eqn:E2.
  { apply String.eqb_eq in E2. rewrite ?E2. cbn. lia. }
  destruct (c_estimatedType c =? "card") eqn:E3.
  { apply String.eqb_eq in E3. rewrite ?E3. cbn. lia. }
  destruct (c_estimatedType c =? "modal") eqn:E4.
  { apply String.eqb_eq in E4. rewrite ?E4. cbn. lia. }
  destruct (c_estimatedType c =? "input") eqn:E5.
  { apply String.eqb_eq in E5. rewrite ?E5. cbn. lia. }
  cbn. lia.
Qed.

End ComponentMapFacts.

(** X4.  The layout entries of the component map are, in pre-order, the
    nodes of the tree whose display is flex, grid, block or inline-block,
    each with its tag and with its display as layout type (inline-block
    reported as block). *)
Theorem layout_entries_follow_display (now : string) (root : Node) :
  map (fun y => (ComponentMapper.y_tag y, ComponentMapper.y_layoutType y))
      (ComponentMapper.mapLayoutComponents
         (generateAnalysisReport now (Some root)))
  = map (fun n => (tag n, Vocabulary.displayType n))
        (filter Vocabulary.hasLayoutDisplay (preorder root)).
Proof.
  unfold ComponentMapper.mapLayoutComponents.
  rewrite pushEach_filter. cbn [layouts generateAnalysisReport].
  rewrite analyzeLayoutPatterns_preorder, filter_all, map_map.
  change (fun r : LayoutRecord =>
            (ComponentMapper.y_tag (ComponentMapper.layoutComponentOf r),
             ComponentMapper.y_layoutType (ComponentMapper.layoutComponentOf r)))
    with (fun r : LayoutRecord => (l_tag r, layoutType (l_layout r))).
  induction (preorder root) as [|n l IH]; [reflexivity|].
  cbn [flat_map filter]. rewrite map_app, IH, layoutsAt_display.
  now destruct (Vocabulary.hasLayoutDisplay n).
Qed.

(** X5.  The button entries of the component map: every eligible node whose
    tag is button yields one; every entry is a Button with a variant among
    default, outline, destructive and ghost and a size among lg, sm and
    default; and classes that mention primary give the variant default even
    when they also mention secondary, danger or ghost. *)
Theorem button_entries (now : string) (root : Node) :
  let entries :=
    ComponentMapper.mapButtonComponents
      (generateAnalysisReport now (Some root)) in
  (forall n,
      In n (preorder root) -> isComponentLike n = true ->
      toLowerCase (tag n) = "button" ->
      In (ComponentMapper.buttonOf (componentOf n)) entries)
  /\ (forall b,
         In b entries ->
         ComponentMapper.b_reactComponent b = "Button"
         /\ In (ComponentMapper.p_variant (ComponentMapper.b_props b))
               ["default"; "outline"; "destructive"; "ghost"]
         /\ In (ComponentMapper.p_size (ComponentMapper.b_props b))
               ["lg"; "sm"; "default"]
         /\ (includes (Vocabulary.lowerClasses (ComponentMapper.b_classes b))
               "primary" = true ->
             ComponentMapper.p_variant (ComponentMapper.b_props b) = "default")).
Proof.
  cbv zeta. unfold ComponentMapper.mapButtonComponents.
  rewrite pushEach_filter, components_of_report. split.
  - intros n Hin Hc Ht. apply in_map. apply filter_In. split.
    + apply in_map. apply filter_In. now split.
    + unfold ComponentMapper.hasType. cbn [componentOf c_estimatedType].
      rewrite (estimateComponentType_button n Ht). reflexivity.
  - intros b Hb. apply in_map_iff in Hb as (c & <- & _).
    cbn [ComponentMapper.buttonOf ComponentMapper.b_reactComponent
         ComponentMapper.b_props ComponentMapper.p_variant
         ComponentMapper.p_size ComponentMapper.b_classes].
    split; [reflexivity|].
    split; [apply extractButtonVariant_range|].
    split; [apply extractButtonSize_range|].
    intros P. unfold ComponentMapper.extractButtonVariant.
    unfold Vocabulary.lowerClasses in P. now rewrite P.
Qed.

Lemma button_entries_witness :
  In (ComponentMapper.buttonOf (componentOf primaryButton))
     (ComponentMapper.mapButtonComponents
        (generateAnalysisReport "2024-01-01T00:00:00.000Z" (Some buttonBar))).
Proof.
  apply (proj1 (button_entries "2024-01-01T00:00:00.000Z" buttonBar)
           primaryButton).
  - right. left. reflexivity.
  - reflexivity.
  - reflexivity.
Defined.

(** X6.  The five component categories of the component map split the
    components by their semantic type: every component is in exactly one of
    buttons, forms, cards, modals and inputs, or its type is none of the
    five.  The map has one layout entry per layout record and at most one
    navigation entry per section. *)
Theorem component_map_partition (report : AnalysisReport) :
  let m := ComponentMapper.generateComponentMap report in
  length (ComponentMapper.buttons m) + length (ComponentMapper.forms m)
  + length (ComponentMapper.cards m) + length (ComponentMapper.modals m)
  + length (ComponentMapper.inputs m)
  + length (filter (fun c => negb (arrayIncludes Vocabulary.mappedTypes
                                     (c_estimatedType c)))
                   (components report))
  = length (components report)
  /\ length (ComponentMapper.layoutComponents m) = length (layouts report)
  /\ length (ComponentMapper.navigation m) <= length (sections report).
Proof.
  cbv zeta.
  cbn [ComponentMapper.generateComponentMap ComponentMapper.buttons
       ComponentMapper.forms ComponentMapper.cards ComponentMapper.modals
       ComponentMapper.inputs ComponentMapper.layoutComponents
       ComponentMapper.navigation].
  unfold ComponentMapper.mapButtonComponents, ComponentMapper.mapFormComponents,
    ComponentMapper.mapCardComponents, ComponentMapper.mapModalComponents,
    ComponentMapper.mapInputComponents, ComponentMapper.mapLayoutComponents.
  rewrite !pushEach_filter, !length_map, mapNavigationComponents_filter,
    length_map.
  split; [apply partition_by_type|]. split.
  - induction (layouts report) as [|r rs IH]; cbn; [reflexivity | now rewrite IH].
  - apply filter_length_le.
Qed.

(** X7.  An input entry of the component map comes from an element whose tag
    is input, select or textarea and whose classes mention none of button,
    nav, menu and form (a field with such a class is classified as a button,
    a navigation or a form instead); its type is email, password, search,
    number or text. *)
Theorem input_entries (now : string) (root : Node)
    (i : ComponentMapper.InputComponent) :
  In i (ComponentMapper.mapInputComponents
          (generateAnalysisReport now (Some root))) ->
  In (toLowerCase (ComponentMapper.i_originalTag i))
     ["input"; "select"; "textarea"]
  /\ includes (Vocabulary.lowerClasses (ComponentMapper.i_classes i)) "button"
     = false
  /\ includes (Vocabulary.lowerClasses (ComponentMapper.i_classes i)) "nav"
     = false
  /\ includes (Vocabulary.lowerClasses (ComponentMapper.i_classes i)) "menu"
     = false
  /\ includes (Vocabulary.lowerClasses (ComponentMapper.i_classes i)) "form"
     = false
  /\ In (ComponentMapper.i_type i)
        ["email"; "password"; "search"; "number"; "text"].
Proof.
  unfold ComponentMapper.mapInputComponents.
  rewrite pushEach_filter, components_of_report. intros H.
  apply in_map_iff in H as (c & <- & Hc).
  apply filter_In in Hc as [Hc Ht].
  apply in_map_iff in Hc as (n & <- & _).
  unfold ComponentMapper.hasType in Ht. cbn [componentOf c_estimatedType] in Ht.
  apply String.eqb_eq in Ht.
  destruct (estimateComponentType_input n Ht) as (T & B & _ & N & M & F).
  cbn [ComponentMapper.inputOf ComponentMapper.i_originalTag
       ComponentMapper.i_classes ComponentMapper.i_type componentOf c_tag
       c_classes].
  repeat (split; [assumption|]).
  apply extractInputType_range.
Qed.

(** In the search form the field with the class form-control counts as a
    form; the search field is the one input entry. *)
Lemma input_entries_witness :
  ComponentMapper.mapInputComponents
    (generateAnalysisReport "2024-01-01T00:00:00.000Z"
       (Some Vocabulary.searchForm))
  = [ComponentMapper.inputOf (componentOf Vocabulary.searchField)]
  /\ includes (Vocabulary.lowerClasses (classes Vocabulary.searchField)) "form"
     = false.
Proof.
  split; [reflexivity|].
  assert (H : In (ComponentMapper.inputOf (componentOf Vocabulary.searchField))
                 (ComponentMapper.mapInputComponents
                    (generateAnalysisReport "2024-01-01T00:00:00.000Z"
                       (Some Vocabulary.searchForm))))
    by (left; reflexivity).
  exact (proj1 (proj2 (proj2 (proj2 (proj2
           (input_entries _ _ _ H)))))).
Defined.

(** X8.  The navigation entries of the component map: every nav element at
    most ten levels below the root whose id does not mention header yields
    one; and every entry comes from a section node at most ten levels below
    the root that is no header, has no id mentioning header, and either is
    a nav element or has a class mentioning nav. *)
Theorem navigation_entries (now : string) (root : Node) :
  let entries :=
    ComponentMapper.mapNavigationComponents
      (generateAnalysisReport now (Some root)) in
  (forall n,
      In n (within 10 root) -> tag n = "nav" ->
      includes (Vocabulary.lowerId (id n)) "header" = false ->
      In (ComponentMapper.navigationOf (sectionOf n)) entries)
  /\ (forall nav,
         In nav entries ->
         exists n,
           In n (within 10 root)
           /\ nav = ComponentMapper.navigationOf (sectionOf n)
           /\ isSectionTag n = true
           /\ toLowerCase (tag n) <> "header"
           /\ includes (Vocabulary.lowerId (id n)) "header" = false
           /\ (toLowerCase (tag n) = "nav"
               \/ includes (Vocabulary.lowerClasses (classes n)) "nav" = true)).
Proof.
  cbv zeta. rewrite mapNavigationComponents_filter.
  cbn [sections generateAnalysisReport]. rewrite identifyPageSections_within.
  split.
  - intros n Hin Ht Hid. apply in_map. apply filter_In. split.
    + apply in_map. apply filter_In. split; [exact Hin|].
      unfold isSectionTag. rewrite Ht. reflexivity.
    + cbn [sectionOf s_purpose]. unfold identifySectionPurpose.
      unfold Vocabulary.lowerId in Hid. rewrite Ht, Hid. reflexivity.
  - intros nav H. apply in_map_iff in H as (r & <- & Hr).
    apply filter_In in Hr as [Hr Hp].
    apply in_map_iff in Hr as (n & <- & Hn).
    apply filter_In in Hn as [Hn Hs].
    cbn [sectionOf s_purpose] in Hp. apply String.eqb_eq in Hp.
    destruct (identifySectionPurpose_navigation n Hp) as (A & B & C).
    exists n. split; [exact Hn|]. split; [reflexivity|].
    split; [exact Hs|]. split; [exact A|]. split; [exact B | exact C].
Qed.

Lemma navigation_entries_witness :
  In (ComponentMapper.navigationOf (sectionOf Vocabulary.topNav))
     (ComponentMapper.mapNavigationComponents
        (generateAnalysisReport "2024-01-01T00:00:00.000Z"
           (Some Vocabulary.topNav))).
Proof.
  apply (proj1 (navigation_entries "2024-01-01T00:00:00.000Z"
                  Vocabulary.topNav) Vocabulary.topNav).
  - left. reflexivity.
  - reflexivity.
  - reflexivity.
Defined.

(** ** The design tokens *)

Section TokenFacts.
Import Vocabulary.

Lemma setAdd_In (v x : string) (s : list string) :
  In v (setAdd x s) <-> v = x \/ In v s.
Proof.
  unfold setAdd. destruct (arrayIncludes s x) eqn:E.
  - apply arrayIncludes_In in E. split; [auto|]. intros [-> | H]; assumption.
  - rewrite in_app_iff. cbn. intuition.
Qed.

Lemma setAdd_NoDup (x : string) (s : list string) :
  NoDup s -> NoDup (setAdd x s).
Proof.
  intros H. unfold setAdd. destruct (arrayIncludes s x) eqn:E; [exact H|].
  apply NoDup_app; [exact H | repeat constructor; intros [] |].
  intros a Ha [<- | []].
  apply arrayIncludes_In in Ha. congruence.
Qed.

Lemma addIf_In keep v (s : list string) (u : string) :
  In u (addIf keep v s) <-> In u s \/ offers keep v u.
Proof.
  unfold addIf, offers. destruct v as [raw|].
  - destruct (nonEmpty raw && keep raw) eqn:E.
    + apply andb_prop in E as [E1 E2]. rewrite setAdd_In. split.
      * intros [-> | H]; [right | left]; auto.
      * intros [H | ([= ->] & _)]; auto.
    + split; [auto|]. intros [H | ([= ->] & E1 & E2)]; [exact H|].
      rewrite E1, E2 in E. discriminate.
  - split; [auto|]. intros [H | (H & _)]; [exact H | discriminate].
Qed.

Lemma addIf_NoDup keep v (s : list string) :
  NoDup s -> NoDup (addIf keep v s).
Proof.
  intros H. unfold addIf. destruct v as [raw|]; [|exact H].
  destruct (nonEmpty raw && keep raw); [now apply setAdd_NoDup | exact H].
Qed.

Lemma contribute_In (sources : list Source) (n : Node) (u : string) :
  forall s,
    In u (contribute sources n s) <-> In u s \/ feeds sources n u.
Proof.
  unfold contribute, feeds.
  induction sources as [|[keep f] rest IH]; intros s; cbn [fold_left fst snd].
  - split; [auto|]. intros [H | (k & g & [] & _)]. exact H.
  - rewrite IH, addIf_In. split.
    + intros [[H | H] | (k & g & Hin & Ho)].
      * now left.
      * right. exists keep, f. split; [now left | exact H].
      * right. exists k, g. split; [now right | exact Ho].
    + intros [H | (k & g & [[= <- <-] | Hin] & Ho)].
      * left. now left.
      * left. now right.
      * right. exists k, g. now split.
Qed.

Lemma contribute_NoDup (sources : list Source) (n : Node) :
  forall s, NoDup s -> NoDup (contribute sources n s).
Proof.
  unfold contribute.
  induction sources as [|[keep f] rest IH]; intros s H; cbn [fold_left];
    [exact H|].
  now apply IH, addIf_NoDup.
Qed.

Lemma category_In cat sources (Hcat : fed_by cat sources) (u : string)
    (l : list Node) :
  forall tokens,
    In u (cat (fold_left (fun t m => collectTokens m t) l tokens))
    <-> In u (cat tokens) \/ exists n, In n l /\ feeds sources n u.
Proof.
  induction l as [|n l IH]; intros tokens; cbn [fold_left].
  - split; [auto|]. intros [H | (n & [] & _)]. exact H.
  - rewrite IH, Hcat, contribute_In. split.
    + intros [[H | H] | (m & Hm & Hf)].
      * now left.
      * right. exists n. split; [now left | exact H].
      * right. exists m. split; [now right | exact Hf].
    + intros [H | (m & [<- | Hm] & Hf)].
      * left. now left.
      * left. now right.
      * right. now exists m.
Qed.

Lemma category_NoDup cat sources (Hcat : fed_by cat sources) (l : list Node) :
  forall tokens,
    NoDup (cat tokens) ->
    NoDup (cat (fold_left (fun t m => collectTokens m t) l tokens)).
Proof.
  induction l as [|n l IH]; intros tokens H; cbn [fold_left]; [exact H|].
  apply IH. rewrite Hcat. now apply contribute_NoDup.
Qed.

Ltac fed := intros n tokens; unfold collectTokens, contribute, style;
            destruct (styles n); reflexivity.

Lemma colors_fed : fed_by colors colorSources.
Proof. fed. Qed.
Lemma fontSizes_fed : fed_by fontSizes fontSizeSources.
Proof. fed. Qed.
Lemma fontWeights_fed : fed_by fontWeights fontWeightSources.
Proof. fed. Qed.
Lemma spacing_fed : fed_by spacing spacingSources.
Proof. fed. Qed.
Lemma borderRadii_fed : fed_by borderRadii radiusSources.
Proof. fed. Qed.
Lemma shadows_fed : fed_by shadows shadowSources.
Proof. fed. Qed.

Lemma tokens_In cat sources (Hcat : fed_by cat sources) (root : Node)
    (u : string) :
  cat noTokens = [] ->
  In u (cat (extractDesignTokens (Some root)))
  <-> exists n, In n (preorder root) /\ feeds sources n u.
Proof.
  intros Hnil. rewrite extractDesignTokens_preorder.
  rewrite (category_In cat sources Hcat), Hnil. cbn [In]. tauto.
Qed.

Lemma tokens_NoDup cat sources (Hcat : fed_by cat sources) (root : Node) :
  cat noTokens = [] -> NoDup (cat (extractDesignTokens (Some root))).
Proof.
  intros Hnil. rewrite extractDesignTokens_preorder.
  apply (category_NoDup cat sources Hcat). rewrite Hnil. constructor.
Qed.

Lemma feeds_nonEmpty sources n u : feeds sources n u -> u <> "".
Proof. intros (k & f & _ & _ & H & _) ->. discriminate. Qed.

End TokenFacts.

(** X9.  A value is in a category of the palette exactly when some node of
    the tree offers it there: colors come from background colours other than
    the transparent one and from text colours, spacing from paddings and
    margins, radii from border radii other than 0px, shadows from box shadows
    other than none; an offered value is present and not the empty string. *)
Theorem palette_membership (root : Node) (u : string) :
  let palette := extractDesignTokens (Some root) in
  let fed sources :=
    exists n, In n (preorder root) /\ Vocabulary.feeds sources n u in
  (In u (colors palette) <-> fed Vocabulary.colorSources)
  /\ (In u (fontSizes palette) <-> fed Vocabulary.fontSizeSources)
  /\ (In u (fontWeights palette) <-> fed Vocabulary.fontWeightSources)
  /\ (In u (spacing palette) <-> fed Vocabulary.spacingSources)
  /\ (In u (borderRadii palette) <-> fed Vocabulary.radiusSources)
  /\ (In u (shadows palette) <-> fed Vocabulary.shadowSources).
Proof.
  cbv zeta.
  split; [apply (tokens_In _ _ colors_fed); reflexivity|].
  split; [apply (tokens_In _ _ fontSizes_fed); reflexivity|].
  split; [apply (tokens_In _ _ fontWeights_fed); reflexivity|].
  split; [apply (tokens_In _ _ spacing_fed); reflexivity|].
  split; [apply (tokens_In _ _ borderRadii_fed); reflexivity|].
  apply (tokens_In _ _ shadows_fed); reflexivity.
Qed.

(** The text colour of the deep leaf is in the palette of its tower. *)
Lemma palette_membership_witness :
  In "red" (colors (extractDesignTokens (Some (tower 2)))).
Proof.
  apply (proj1 (palette_membership (tower 2) "red")).
  exists deepLeaf. split.
  - cbn. right. right. right. left. reflexivity.
  - exists always, color. split; [right; left; reflexivity|].
    repeat split.
Defined.

(** X10.  No category of the palette holds a value twice or holds the empty
    string; the radii never hold 0px, the shadows never hold none, and a
    transparent background never puts its value among the colors (a
    transparent text colour does). *)
Theorem palette_invariants (root : Node) :
  let palette := extractDesignTokens (Some root) in
  (NoDup (colors palette) /\ NoDup (fontSizes palette)
   /\ NoDup (fontWeights palette) /\ NoDup (spacing palette)
   /\ NoDup (borderRadii palette) /\ NoDup (shadows palette))
  /\ (~ In "" (colors palette) /\ ~ In "" (fontSizes palette)
      /\ ~ In "" (fontWeights palette) /\ ~ In "" (spacing palette)
      /\ ~ In "" (borderRadii palette) /\ ~ In "" (shadows palette))
  /\ ~ In "0px" (borderRadii palette)
  /\ ~ In "none" (shadows palette)
  /\ (In "rgba(0, 0, 0, 0)" (colors palette) ->
      exists n, In n (preorder root)
                /\ style color n = Some "rgba(0, 0, 0, 0)").
Proof.
  cbv zeta. split; [|split; [|split; [|split]]].
  - split; [apply (tokens_NoDup _ _ colors_fed); reflexivity|].
    split; [apply (tokens_NoDup _ _ fontSizes_fed); reflexivity|].
    split; [apply (tokens_NoDup _ _ fontWeights_fed); reflexivity|].
    split; [apply (tokens_NoDup _ _ spacing_fed); reflexivity|].
    split; [apply (tokens_NoDup _ _ borderRadii_fed); reflexivity|].
    apply (tokens_NoDup _ _ shadows_fed); reflexivity.
  - assert (E : forall cat sources, Vocabulary.fed_by cat sources ->
                  cat noTokens = [] ->
                  ~ In "" (cat (extractDesignTokens (Some root)))).
    { intros cat sources Hcat Hnil H.
      apply (tokens_In _ _ Hcat root "" Hnil) in H as (n & _ & Hf).
      now apply feeds_nonEmpty in Hf. }
    split; [apply (E _ _ colors_fed); reflexivity|].
    split; [apply (E _ _ fontSizes_fed); reflexivity|].
    split; [apply (E _ _ fontWeights_fed); reflexivity|].
    split; [apply (E _ _ spacing_fed); reflexivity|].
    split; [apply (E _ _ borderRadii_fed); reflexivity|].
    apply (E _ _ shadows_fed); reflexivity.
  - intros H.
    apply (tokens_In _ _ borderRadii_fed root "0px" eq_refl) in H
      as (n & _ & k & f & [[= <- <-] | []] & _ & _ & K).
    discriminate.
  - intros H.
    apply (tokens_In _ _ shadows_fed root "none" eq_refl) in H
      as (n & _ & k & f & [[= <- <-] | []] & _ & _ & K).
    discriminate.
  - intros H.
    apply (tokens_In _ _ colors_fed root _ eq_refl) in H
      as (n & Hn & k & f & [[= <- <-] | [[= <- <-] | []]] & Hv & _ & K).
    + discriminate.
    + now exists n.
Qed.

(** ** Component records *)

Section RecordFacts.
Import Vocabulary.

Lemma stripNonAlnum_allAlnum (s : string) : allAlnum (stripNonAlnum s) = true.
Proof.
  induction s as [|c s IH]; [reflexivity|]. cbn [stripNonAlnum].
  destruct (isUpper c || isLower c || isDigit c) eqn:E; [|exact IH].
  cbn [allAlnum]. now rewrite E, IH.
Qed.

Lemma generateComponentName_shape (n : Node) :
  truthy (id n) = true \/ classes n <> [] ->
  (truthy (id n) = true -> Some (generateComponentName n) = id n)
  /\ (truthy (id n) = false ->
      exists first rest,
        classes n = first :: rest
        /\ generateComponentName n = stripNonAlnum first
        /\ allAlnum (generateComponentName n) = true).
Proof.
  intros H. unfold generateComponentName.
  destruct (truthy (id n)) eqn:T.
  - split; [|discriminate]. intros _. unfold orElse. rewrite T.
    destruct (id n); [reflexivity | discriminate].
  - split; [discriminate|]. intros _.
    destruct (classes n) as [|c rest].
    + destruct H as [H | H]; [discriminate | now destruct H].
    + exists c, rest. split; [reflexivity|]. split; [reflexivity|].
      apply stripNonAlnum_allAlnum.
Qed.

End RecordFacts.

(** X11.  Every component record is consistent with the node it was made
    from: its signature is its own tag, classes and child count put
    together; it has a non-empty id or a class; it has a child or the
    interactive flag; its type is one of the eleven semantic types; its
    name is its id when the id is non-empty; and otherwise the record has a
    first class and its name is that class without the characters that are
    no ASCII letter or digit, so the fallback name made of the tag never
    occurs in a record. *)
Theorem component_records_are_consistent (root : Node) (r : ComponentRecord) :
  In r (analyzeComponentStructure (Some root)) ->
  c_signature r
  = c_tag r ++ ":" ++ join "." (c_classes r) ++ ":"
      ++ natToString (c_childCount r)
  /\ (truthy (c_id r) = true \/ c_classes r <> [])
  /\ (0 < c_childCount r \/ c_hasInteractiveElements r = true)
  /\ In (c_estimatedType r) Vocabulary.semanticTypes
  /\ (truthy (c_id r) = true -> Some (c_name r) = c_id r)
  /\ (truthy (c_id r) = false ->
      exists first rest,
        c_classes r = first :: rest
        /\ c_name r = stripNonAlnum first
        /\ Vocabulary.allAlnum (c_name r) = true).
Proof.
  rewrite analyzeComponentStructure_preorder. intros H.
  apply in_map_iff in H as (n & <- & Hn).
  apply filter_In in Hn as [_ Hc].
  cbn [componentOf c_signature c_tag c_classes c_childCount c_id
       c_hasInteractiveElements c_estimatedType c_name].
  unfold isComponentLike in Hc. cbv zeta in Hc.
  apply andb_prop in Hc as [Hname Hbody].
  apply orb_prop in Hname. apply orb_prop in Hbody.
  assert (Hid : truthy (id n) = true \/ classes n <> []).
  { destruct Hname as [H | H]; [now left | right].
    now apply nonempty_length in H. }
  split; [reflexivity|]. split; [exact Hid|]. split.
  - destruct Hbody as [H | H]; [left | now right].
    apply Nat.ltb_lt in H. exact H.
  - split; [apply estimateComponentType_range|].
    now apply generateComponentName_shape.
Qed.

(** The card named after its first class, card--wide, is called cardwide. *)
Lemma component_records_are_consistent_witness :
  In (componentOf Vocabulary.wideCard)
     (analyzeComponentStructure (Some Vocabulary.wideCard))
  /\ c_name (componentOf Vocabulary.wideCard) = "cardwide"
  /\ c_signature (componentOf Vocabulary.wideCard)
     = c_tag (componentOf Vocabulary.wideCard) ++ ":"
       ++ join "." (c_classes (componentOf Vocabulary.wideCard)) ++ ":"
       ++ natToString (c_childCount (componentOf Vocabulary.wideCard)).
Proof.
  assert (H : In (componentOf Vocabulary.wideCard)
                 (analyzeComponentStructure (Some Vocabulary.wideCard)))
    by (left; reflexivity).
  split; [exact H|]. split; [reflexivity|].
  exact (proj1 (component_records_are_consistent _ _ H)).
Defined.

(** ** The quantizers *)

Section Quantizers.
Import Vocabulary StyleExtractor.

Lemma mapSpacing_mapWith (value : option string) :
  mapSpacing value = mapWith spacingMap value.
Proof. reflexivity. Qed.

Lemma mapFontSize_mapWith (value : option string) :
  mapFontSize value = mapWith fontSizeMap value.
Proof. reflexivity. Qed.

Lemma matchHere_px (r : string) (l : list string) :
  matchHere (lits "px") r = Some l -> l = [].
Proof.
  change (lits "px") with [Lit "p"%char; Lit "x"%char]. cbn [matchHere].
  destruct r as [|c1 r]; [discriminate|].
  destruct (Ascii.eqb "p" c1); [|discriminate].
  destruct r as [|c2 r]; [discriminate|].
  destruct (Ascii.eqb "x" c2); [|discriminate].
  now intros [= <-].
Qed.

(** A match of [(\d+)px] captures exactly one group, and it is not empty. *)
Lemma greedy_px_shape (rest : string) : forall taken l,
  greedy Digit
    (fun t r => finishRep true true t (matchHere (lits "px") r)) taken rest
  = Some l ->
  exists t, l = [t] /\ nonEmpty t = true.
Proof.
  assert (F : forall t r l,
             finishRep true true t (matchHere (lits "px") r) = Some l ->
             exists t', l = [t'] /\ nonEmpty t' = true).
  { intros t r l. unfold finishRep.
    destruct (nonEmpty t) eqn:E; cbn [negb andb]; [|discriminate].
    destruct (matchHere (lits "px") r) as [groups|] eqn:M; [|discriminate].
    apply matchHere_px in M. subst groups.
    intros [= <-]. now exists t. }
  induction rest as [|c rest IH]; intros taken l; cbn [greedy].
  - apply F.
  - destruct (inClass Digit c); [|apply F].
    destruct (greedy _ _ (taken ++ String c "") rest) eqn:G.
    + intros [= <-]. now apply (IH _ _ G).
    + apply F.
Qed.

Lemma exec_px_shape (s : string) (l : list string) :
  exec pxPattern s = Some l -> exists t, l = [t] /\ nonEmpty t = true.
Proof.
  induction s as [|c s IH]; cbn [exec].
  - destruct (matchHere pxPattern "") eqn:M; [|discriminate].
    intros [= <-]. now apply (greedy_px_shape "" "").
  - destruct (matchHere pxPattern (String c s)) eqn:M; [|exact IH].
    intros [= <-]. now apply (greedy_px_shape (String c s) "").
Qed.

Lemma fold_closer_In px (l : Dict) : forall x,
  In (fold_left (closer px) l x) (x :: l).
Proof.
  induction l as [|e l IH]; intros x; cbn [fold_left]; [now left|].
  destruct (IH (closer px x e)) as [H | H]; [|now right; right].
  rewrite <- H. unfold closer. destruct (lessThan _ _); cbn; auto.
Qed.

Lemma reduce_closer_In px (d : Dict) e :
  reduce1 (closer px) d = Some e -> In e d.
Proof.
  destruct d as [|x l]; cbn [reduce1]; [discriminate|].
  intros [= <-]. apply fold_closer_In.
Qed.

Lemma mapWith_token (d : Dict) (value t : string) :
  mapWith d (Some value) = Some (VStr t) -> exists key, In (key, t) d.
Proof.
  unfold mapWith.
  destruct (negb (truthy (Some value))); [discriminate|]. cbv zeta.
  destruct (truthyValue (getProp d (orElse (Some value) ""))).
  - intros H. apply getProp_token in H. eexists. exact H.
  - destruct (exec pxPattern _) as [[|digits groups]|]; try discriminate.
    destruct (reduce1 _ d) as [[key tok]|] eqn:R; [|discriminate].
    intros [= <-]. exists key. now apply reduce_closer_In in R.
Qed.

Lemma truthy_getProp (d : Dict) (value : string) :
  Forall (fun e => nonEmpty (snd e) = true) d ->
  truthyValue (getProp d value) = false <-> getProp d value = None.
Proof.
  intros Hd. split; [|now intros ->].
  destruct (getProp d value) as [[t|k]|] eqn:G; cbn; try discriminate; auto.
  apply getProp_token in G. rewrite Forall_forall in Hd.
  specialize (Hd _ G). cbn in Hd. congruence.
Qed.

Lemma mapWith_null (d : Dict) (value : string) :
  d <> [] ->
  Forall (fun e => nonEmpty (snd e) = true) d ->
  mapWith d (Some value) = None
  <-> value = "" \/ (getProp d value = None /\ exec pxPattern value = None).
Proof.
  intros Hne Hd. unfold mapWith. cbn [truthy].
  destruct value as [|c value].
  { cbn. split; auto. }
  cbn [nonEmpty negb]. cbv zeta.
  change (orElse (Some (String c value)) "") with (String c value).
  destruct (truthyValue (getProp d (String c value))) eqn:T.
  - split.
    + intros H. rewrite H in T. discriminate.
    + intros [H | [H _]]; [discriminate|]. rewrite H in T. discriminate.
  - apply truthy_getProp in T; [|exact Hd].
    destruct (exec pxPattern (String c value)) as [l|] eqn:E.
    + destruct (exec_px_shape _ _ E) as (t & -> & _).
      destruct d as [|x rest]; [now destruct Hne|]. cbn [reduce1].
      split; [discriminate|]. intros [H | [_ H]]; discriminate.
    + split; auto.
Qed.

Lemma spacingMap_values :
  Forall (fun e => nonEmpty (snd e) = true) spacingMap.
Proof. repeat constructor. Qed.

Lemma fontSizeMap_values :
  Forall (fun e => nonEmpty (snd e) = true) fontSizeMap.
Proof. repeat constructor. Qed.

Lemma fontSizeMap_parses :
  Forall (fun e => parseInt (fst e) <> None) fontSizeMap.
Proof. repeat constructor; discriminate. Qed.

Lemma reduce_fontSizeMap (px : N) :
  exists best,
    reduce1 (closer (Some px)) fontSizeMap = Some best
    /\ FirstNearest px fontSizeMap best.
Proof.
  unfold fontSizeMap, buildFontSizeMap, reduce1.
  eexists. split; [reflexivity|].
  apply (reduce_closer px _ [_]).
  - apply fontSizeMap_parses.
  - exists [], []. split; [reflexivity|]. split; intros e [].
Qed.

Lemma mapFontSize_pxString (px : N) :
  assoc (pxString px) fontSizeMap = None ->
  exists best,
    mapFontSize (Some (pxString px)) = Some (VStr (snd best))
    /\ FirstNearest px fontSizeMap best.
Proof.
  intros Hkey.
  destruct (reduce_fontSizeMap px) as (best & Hred & Hbest).
  exists best. split; [|exact Hbest].
  unfold mapFontSize.
  assert (Hne : nonEmpty (pxString px) = true).
  { unfold pxString. pose proof (numberToString_nonEmpty px) as H.
    destruct (numberToString px); [discriminate | reflexivity]. }
  unfold truthy, orElse, truthy. rewrite Hne. cbn [negb].
  unfold getProp. rewrite Hkey, pxString_not_inherited. cbn [truthyValue].
  rewrite exec_pxString, parseInt_numberToString, Hred. reflexivity.
Qed.

End Quantizers.

(** X12.  A raw font size [N px], with [N] below 2^53 and no exact key in
    the font-size dictionary, resolves to the token of the entry nearest to
    [N], and among equally near entries to the one declared first: raw 13px,
    at distance 1 from both the 12px and the 14px entry, resolves to xs. *)
Theorem font_size_first_nearest :
  (forall px : N,
      (px < 2 ^ 53)%N ->
      assoc (pxString px) StyleExtractor.fontSizeMap = None ->
      exists entry,
        StyleExtractor.mapFontSize (Some (pxString px))
        = Some (VStr (snd entry))
        /\ FirstNearest px StyleExtractor.fontSizeMap entry)
  /\ StyleExtractor.mapFontSize (Some "13px") = Some (VStr "xs")
  /\ distance 13 ("12px", "xs") = distance 13 ("14px", "sm").
Proof.
  split; [intros px _; apply mapFontSize_pxString|].
  split; reflexivity.
Qed.

Lemma font_size_first_nearest_witness :
  (13 < 2 ^ 53)%N
  /\ assoc (pxString 13) StyleExtractor.fontSizeMap = None
  /\ exists entry,
       StyleExtractor.mapFontSize (Some (pxString 13))
       = Some (VStr (snd entry))
       /\ FirstNearest 13 StyleExtractor.fontSizeMap entry.
Proof.
  assert (Hlt : (13 < 2 ^ 53)%N) by reflexivity.
  assert (Hkey : assoc (pxString 13) StyleExtractor.fontSizeMap = None)
    by reflexivity.
  split; [exact Hlt|]. split; [exact Hkey|].
  exact (proj1 font_size_first_nearest 13%N Hlt Hkey).
Defined.

(** X13.  The quantizers never make up a token: a token that [mapSpacing] or
    [mapFontSize] returns is a token of its dictionary.  They return null
    exactly for the empty string and for a value that names no property of
    the dictionary and holds no run of digits directly followed by px. *)
Theorem quantizers_stay_in_dictionary (value : string) :
  (forall t,
      StyleExtractor.mapSpacing (Some value) = Some (VStr t) ->
      exists key, In (key, t) StyleExtractor.spacingMap)
  /\ (StyleExtractor.mapSpacing (Some value) = None
      <-> value = ""
          \/ (getProp StyleExtractor.spacingMap value = None
              /\ exec StyleExtractor.pxPattern value = None))
  /\ (forall t,
         StyleExtractor.mapFontSize (Some value) = Some (VStr t) ->
         exists key, In (key, t) StyleExtractor.fontSizeMap)
  /\ (StyleExtractor.mapFontSize (Some value) = None
      <-> value = ""
          \/ (getProp StyleExtractor.fontSizeMap value = None
              /\ exec StyleExtractor.pxPattern value = None)).
Proof.
  split; [intros t; rewrite mapSpacing_mapWith; apply mapWith_token|].
  split.
  { rewrite mapSpacing_mapWith.
    apply mapWith_null; [discriminate | apply spacingMap_values]. }
  split; [intros t; rewrite mapFontSize_mapWith; apply mapWith_token|].
  rewrite mapFontSize_mapWith.
  apply mapWith_null; [discriminate | apply fontSizeMap_values].
Qed.

(** A shorthand of two paddings is quantized to a token of the spacing
    dictionary. *)
Lemma quantizers_stay_in_dictionary_witness :
  StyleExtractor.mapSpacing (Some "9px 16px") = Some (VStr "2")
  /\ exists key, In (key, "2") StyleExtractor.spacingMap.
Proof.
  assert (H : StyleExtractor.mapSpacing (Some "9px 16px") = Some (VStr "2"))
    by reflexivity.
  split; [exact H|].
  exact (proj1 (quantizers_stay_in_dictionary "9px 16px") "2" H).
Defined.

(** ** Quantization keeps the order of the magnitudes *)

Lemma pxString_inj (a b : N) : pxString a = pxString b -> a = b.
Proof.
  unfold pxString. intros E.
  change (numberToString a ++ String "p" "x"
          = numberToString b ++ String "p" "x") in E.
  apply cut_last in E; [|reflexivity | reflexivity].
  now apply numberToString_inj.
Qed.

Lemma fold_left_step {A B : Type} (f : A -> B -> A) (b : B) (l : list B)
    (a : A) :
  fold_left f (b :: l) a = fold_left f l (f a b).
Proof. reflexivity. Qed.

Lemma closer_picks_new (px : N) (prev entry : string * string) :
  parseInt (fst prev) <> None -> parseInt (fst entry) <> None ->
  (distance px entry < distance px prev)%Z ->
  StyleExtractor.closer (Some px) prev entry = entry.
Proof.
  intros Hp He Hd. rewrite closer_step by assumption.
  apply Z.ltb_lt in Hd. now rewrite Hd.
Qed.

(** One step of the [reduce] towards a nearer entry, for a magnitude that is
    only known by a bound. *)
Ltac nearer_step :=
  rewrite fold_left_step;
  match goal with
  | |- context [StyleExtractor.closer (Some ?px) ?prev ?e] =>
      rewrite (closer_picks_new px prev e);
      [ | vm_compute; discriminate | vm_compute; discriminate
        | unfold distance;
          let a := eval vm_compute in (pixels e) in
          change (pixels e) with a;
          let b := eval vm_compute in (pixels prev) in
          change (pixels prev) with b;
          lia ]
  end.

(** Identify the magnitude of a value that is a key of a dictionary, and
    evaluate the quantizer there. *)
Ltac key_cases H :=
  cbn [In] in H;
  repeat (destruct H as [H | H];
          [ injection H as H _;
            match type of H with
            | ?k = pxString ?px =>
                let n := eval vm_compute in (JS.parseInt k) in
                match n with
                | Some ?v =>
                    change k with (pxString v) in H;
                    apply pxString_inj in H; subst px; reflexivity
                end
            end
          | ]);
  destruct H.

Section Monotone.
Import Vocabulary.
Variable d : Dict.
Variable threshold : nat.
Variable top : Z.

Hypothesis saturates :
  forall px, (N.of_nat threshold <= px)%N -> pixels (bestEntry d px) = top.
Hypothesis bounded : forall px, (pixels (bestEntry d px) <= top)%Z.
Hypothesis checked :
  forallb (fun i => (pixels (bestEntry d (N.of_nat i))
                     <=? pixels (bestEntry d (N.of_nat (S i))))%Z)
          (seq 0 threshold) = true.

Lemma best_monotone (a b : N) :
  (a <= b)%N -> (pixels (bestEntry d a) <= pixels (bestEntry d b))%Z.
Proof.
  intros Hab.
  destruct (N.le_gt_cases (N.of_nat threshold) b) as [Hb | Hb].
  { rewrite (saturates b Hb). apply bounded. }
  assert (Hstep : forall i, i < threshold ->
            (pixels (bestEntry d (N.of_nat i))
             <= pixels (bestEntry d (N.of_nat (S i))))%Z).
  { intros i Hi. rewrite forallb_forall in checked.
    apply Z.leb_le. apply checked. apply in_seq. lia. }
  assert (Hrun : forall k i, i + k <= threshold ->
            (pixels (bestEntry d (N.of_nat i))
             <= pixels (bestEntry d (N.of_nat (i + k))))%Z).
  { induction k as [|k IH]; intros i Hi.
    - rewrite Nat.add_0_r. lia.
    - replace (i + S k) with (S (i + k)) by lia.
      etransitivity; [apply IH; lia | apply Hstep; lia]. }
  rewrite <- (N2Nat.id a), <- (N2Nat.id b).
  replace (N.to_nat b) with (N.to_nat a + (N.to_nat b - N.to_nat a)) by lia.
  apply Hrun. lia.
Qed.

End Monotone.

Section SpacingOrder.
Import Vocabulary StyleExtractor.

Lemma bestEntry_In (d : Dict) (px : N) : d <> [] -> In (bestEntry d px) d.
Proof.
  intros Hd. unfold bestEntry.
  destruct (reduce1 (closer (Some px)) d) as [e|] eqn:R.
  - now apply reduce_closer_In in R.
  - destruct d; [now destruct Hd | discriminate].
Qed.

Lemma mapSpacing_best (px : N) :
  mapSpacing (Some (pxString px))
  = Some (VStr (snd (bestEntry spacingMap px))).
Proof.
  destruct (assoc (pxString px) spacingMap) as [t|] eqn:K.
  - apply assoc_In in K. unfold spacingMap, buildSpacingMap in K.
    key_cases K.
  - unfold mapSpacing.
    assert (Hne : nonEmpty (pxString px) = true).
    { unfold pxString. pose proof (numberToString_nonEmpty px) as H.
      destruct (numberToString px); [discriminate | reflexivity]. }
    unfold truthy, orElse, truthy. rewrite Hne. cbn [negb].
    unfold getProp. rewrite K, pxString_not_inherited. cbn [truthyValue].
    rewrite exec_pxString, parseInt_numberToString. reflexivity.
Qed.

End SpacingOrder.

Section QuantizerOrder.
Import Vocabulary StyleExtractor.

Lemma spacing_saturates (px : N) :
  (89 <= px)%N -> bestEntry spacingMap px = ("96px", "24").
Proof.
  intros H. unfold bestEntry, spacingMap, buildSpacingMap, reduce1.
  do 15 nearer_step. reflexivity.
Qed.

Lemma spacing_bounded (px : N) : (pixels (bestEntry spacingMap px) <= 96)%Z.
Proof.
  assert (A : Forall (fun e => (pixels e <= 96)%Z) spacingMap)
    by (repeat constructor; vm_compute; discriminate).
  rewrite Forall_forall in A. apply A, bestEntry_In. discriminate.
Qed.

Lemma spacing_monotone (a b : N) :
  (a <= b)%N ->
  (pixels (bestEntry spacingMap a) <= pixels (bestEntry spacingMap b))%Z.
Proof.
  apply (best_monotone spacingMap 89 96).
  - intros px H. now rewrite spacing_saturates.
  - apply spacing_bounded.
  - vm_compute. reflexivity.
Qed.

Lemma spacing_tokenPixels (px : N) :
  tokenPixels spacingMap (snd (bestEntry spacingMap px))
  = pixels (bestEntry spacingMap px).
Proof.
  assert (A : Forall (fun e => tokenPixels spacingMap (snd e) = pixels e)
                     spacingMap) by (repeat constructor).
  rewrite Forall_forall in A. apply A, bestEntry_In. discriminate.
Qed.

Lemma mapFontSize_best (px : N) :
  mapFontSize (Some (pxString px))
  = Some (VStr (snd (bestEntry fontSizeMap px))).
Proof.
  destruct (assoc (pxString px) fontSizeMap) as [t|] eqn:K.
  - apply assoc_In in K. unfold fontSizeMap, buildFontSizeMap in K.
    key_cases K.
  - unfold mapFontSize.
    assert (Hne : nonEmpty (pxString px) = true).
    { unfold pxString. pose proof (numberToString_nonEmpty px) as H.
      destruct (numberToString px); [discriminate | reflexivity]. }
    unfold truthy, orElse, truthy. rewrite Hne. cbn [negb].
    unfold getProp. rewrite K, pxString_not_inherited. cbn [truthyValue].
    rewrite exec_pxString, parseInt_numberToString. reflexivity.
Qed.

Lemma fontSize_saturates (px : N) :
  (43 <= px)%N -> bestEntry fontSizeMap px = ("48px", "5xl").
Proof.
  intros H. unfold bestEntry, fontSizeMap, buildFontSizeMap, reduce1.
  do 8 nearer_step. reflexivity.
Qed.

Lemma fontSize_bounded (px : N) : (pixels (bestEntry fontSizeMap px) <= 48)%Z.
Proof.
  assert (A : Forall (fun e => (pixels e <= 48)%Z) fontSizeMap)
    by (repeat constructor; vm_compute; discriminate).
  rewrite Forall_forall in A. apply A, bestEntry_In. discriminate.
Qed.

Lemma fontSize_monotone (a b : N) :
  (a <= b)%N ->
  (pixels (bestEntry fontSizeMap a) <= pixels (bestEntry fontSizeMap b))%Z.
Proof.
  apply (best_monotone fontSizeMap 43 48).
  - intros px H. now rewrite fontSize_saturates.
  - apply fontSize_bounded.
  - vm_compute. reflexivity.
Qed.

Lemma fontSize_tokenPixels (px : N) :
  tokenPixels fontSizeMap (snd (bestEntry fontSizeMap px))
  = pixels (bestEntry fontSizeMap px).
Proof.
  assert (A : Forall (fun e => tokenPixels fontSizeMap (snd e) = pixels e)
                     fontSizeMap) by (repeat constructor).
  rewrite Forall_forall in A. apply A, bestEntry_In. discriminate.
Qed.

End QuantizerOrder.

(** X14.  Spacing quantization keeps the order of the magnitudes and
    saturates: of two raw pixel values below 2^53 the larger never gets a
    token of a smaller step; every value from 89px on gets the last token,
    24, and every value up to 2px gets the first token, 0. *)
Theorem spacing_quantization_is_monotone :
  (forall (a b : N) (ta tb : string),
      (a <= b)%N -> (b < 2 ^ 53)%N ->
      StyleExtractor.mapSpacing (Some (pxString a)) = Some (VStr ta) ->
      StyleExtractor.mapSpacing (Some (pxString b)) = Some (VStr tb) ->
      (Vocabulary.tokenPixels StyleExtractor.spacingMap ta
       <= Vocabulary.tokenPixels StyleExtractor.spacingMap tb)%Z)
  /\ (forall px : N,
         (89 <= px)%N -> (px < 2 ^ 53)%N ->
         StyleExtractor.mapSpacing (Some (pxString px)) = Some (VStr "24"))
  /\ (forall px : N,
         (px <= 2)%N ->
         StyleExtractor.mapSpacing (Some (pxString px)) = Some (VStr "0")).
Proof.
  split; [|split].
  - intros a b ta tb Hab _. rewrite !mapSpacing_best.
    pose proof (spacing_monotone a b Hab) as M.
    rewrite <- !spacing_tokenPixels in M.
    set (ea := Vocabulary.bestEntry StyleExtractor.spacingMap a) in *.
    set (eb := Vocabulary.bestEntry StyleExtractor.spacingMap b) in *.
    clearbody ea eb. intros Ha Hb.
    assert (Ea : snd ea = ta) by congruence.
    assert (Eb : snd eb = tb) by congruence.
    now rewrite <- Ea, <- Eb.
  - intros px H _. rewrite mapSpacing_best, spacing_saturates by exact H.
    reflexivity.
  - intros px H.
    assert (C : px = 0%N \/ px = 1%N \/ px = 2%N) by lia.
    destruct C as [-> | [-> | ->]]; vm_compute; reflexivity.
Qed.

Lemma spacing_quantization_is_monotone_witness :
  (Vocabulary.tokenPixels StyleExtractor.spacingMap "2"
   <= Vocabulary.tokenPixels StyleExtractor.spacingMap "4")%Z.
Proof.
  apply (proj1 spacing_quantization_is_monotone 10%N 17%N "2" "4");
    reflexivity || (vm_compute; discriminate).
Defined.

(** X15.  Font-size quantization keeps the order of the magnitudes and
    saturates: of two raw pixel values below 2^53 the larger never gets a
    token of a smaller size; every value from 43px on gets the largest
    token, 5xl, and every value up to 13px gets the smallest, xs. *)
Theorem font_size_quantization_is_monotone :
  (forall (a b : N) (ta tb : string),
      (a <= b)%N -> (b < 2 ^ 53)%N ->
      StyleExtractor.mapFontSize (Some (pxString a)) = Some (VStr ta) ->
      StyleExtractor.mapFontSize (Some (pxString b)) = Some (VStr tb) ->
      (Vocabulary.tokenPixels StyleExtractor.fontSizeMap ta
       <= Vocabulary.tokenPixels StyleExtractor.fontSizeMap tb)%Z)
  /\ (forall px : N,
         (43 <= px)%N -> (px < 2 ^ 53)%N ->
         StyleExtractor.mapFontSize (Some (pxString px)) = Some (VStr "5xl"))
  /\ (forall px : N,
         (px <= 13)%N ->
         StyleExtractor.mapFontSize (Some (pxString px)) = Some (VStr "xs")).
Proof.
  split; [|split].
  - intros a b ta tb Hab _. rewrite !mapFontSize_best.
    pose proof (fontSize_monotone a b Hab) as M.
    rewrite <- !fontSize_tokenPixels in M.
    set (ea := Vocabulary.bestEntry StyleExtractor.fontSizeMap a) in *.
    set (eb := Vocabulary.bestEntry StyleExtractor.fontSizeMap b) in *.
    clearbody ea eb. intros Ha Hb.
    assert (Ea : snd ea = ta) by congruence.
    assert (Eb : snd eb = tb) by congruence.
    now rewrite <- Ea, <- Eb.
  - intros px H _. rewrite mapFontSize_best, fontSize_saturates by exact H.
    reflexivity.
  - intros px H.
    assert (C : In px [0; 1; 2; 3; 4; 5; 6; 7; 8; 9; 10; 11; 12; 13]%N).
    { cbn [In]. lia. }
    cbn [In] in C.
    repeat (destruct C as [<- | C]; [vm_compute; reflexivity|]).
    destruct C.
Qed.

Lemma font_size_quantization_is_monotone_witness :
  (Vocabulary.tokenPixels StyleExtractor.fontSizeMap "sm"
   <= Vocabulary.tokenPixels StyleExtractor.fontSizeMap "xl")%Z.
Proof.
  apply (proj1 font_size_quantization_is_monotone 15%N 21%N "sm" "xl");
    reflexivity || (vm_compute; discriminate).
Defined.

(** ** The structure list of the similarity score *)

Section StructureFacts.
Import SimilarityScore.

Lemma flat_map_agree {A B : Type} (f g : A -> list B) (l : list A) :
  Forall (fun a => f a = g a) l -> flat_map f l = flat_map g l.
Proof.
  induction 1 as [|a l Ha _ IH]; cbn; [reflexivity | now rewrite Ha, IH].
Qed.

Lemma map_over_flat_map {A B C : Type} (f : B -> C) (g : A -> list B)
    (l : list A) :
  map f (flat_map g l) = flat_map (fun a => map f (g a)) l.
Proof.
  induction l as [|a l IH]; cbn; [reflexivity|]. now rewrite map_app, IH.
Qed.

Lemma flat_map_nil {A B : Type} (l : list A) :
  flat_map (fun _ : A => @nil B) l = [].
Proof. induction l as [|a l IH]; cbn; [reflexivity | exact IH]. Qed.

Lemma structure_walk (n : Node) :
  forall depth,
    Structure.extractStructure n depth
    = if (10 <? depth)%nat then []
      else map tag (within (10 - depth) n).
Proof.
  induction n as [t i cl at_ r st cs IH] using Node_rose_ind.
  intros depth. cbn [Structure.extractStructure tag children].
  destruct (10 <? depth)%nat eqn:Hd; [reflexivity|].
  apply Nat.ltb_ge in Hd.
  destruct (Nat.eq_dec depth 10) as [->|Hne].
  - cbn [Nat.sub within map tag]. f_equal.
    rewrite (flat_map_agree _ (fun _ => [])); [apply flat_map_nil|].
    eapply Forall_impl; [|exact IH]. intros c Hc. now rewrite Hc.
  - replace (10 - depth) with (S (10 - S depth)) by lia.
    cbn [within map tag children]. f_equal.
    rewrite map_over_flat_map. apply flat_map_agree.
    eapply Forall_impl; [|exact IH]. intros c Hc. rewrite Hc.
    replace (10 <? S depth)%nat with false; [reflexivity|].
    symmetry. apply Nat.ltb_ge. lia.
Qed.

Lemma tags_prune (d : nat) : forall n,
  map tag (within d (prune d n)) = map tag (within d n).
Proof.
  induction d as [|d IH]; intros n; [reflexivity|].
  cbn [within map]. f_equal.
  rewrite prune_children, !map_over_flat_map.
  induction (children n) as [|c cs IHcs]; cbn [map flat_map]; [reflexivity|].
  now rewrite IH, IHcs.
Qed.

End StructureFacts.

(** X16.  The structure list of a tree is the list of the tags of its nodes
    at most ten levels below the root, in pre-order; a missing tree has the
    empty list; what lies deeper than ten levels never changes the list. *)
Theorem structure_is_tags_within_ten :
  SimilarityScore.extractStructure None = []
  /\ (forall root,
         SimilarityScore.extractStructure (Some root)
         = map tag (within 10 root))
  /\ (forall root,
         SimilarityScore.extractStructure (Some root)
         = SimilarityScore.extractStructure (Some (prune 10 root))).
Proof.
  split; [reflexivity|].
  assert (H : forall root,
             SimilarityScore.extractStructure (Some root)
             = map tag (within 10 root)).
  { intros root. unfold SimilarityScore.extractStructure.
    now rewrite structure_walk. }
  split; [exact H|].
  intros root. rewrite !H. symmetry. apply tags_prune.
Qed.

(** ** Border radii *)

Section RadiusFacts.
Import Vocabulary StyleExtractor.

Lemma mapBorderRadius_class (v : string) :
  nonEmpty v = true -> v <> "0px" ->
  exists cls,
    mapBorderRadius (Some v) = Some cls
    /\ In cls ["sm"; "md"; "lg"; "xl"; "full"].
Proof.
  intros Hne Hz. unfold mapBorderRadius. cbn [truthy].
  rewrite Hne. cbn [negb]. cbv zeta.
  unfold orElse. cbn [truthy]. rewrite Hne.
  apply String.eqb_neq in Hz. rewrite Hz.
  split_tests; eexists; (split; [reflexivity | pick]).
Qed.

Lemma mapBorderRadius_null (v : option string) :
  mapBorderRadius v = None <-> truthy v = false \/ v = Some "0px".
Proof.
  unfold mapBorderRadius. destruct (truthy v) eqn:T; cbn [negb].
  - cbv zeta. destruct v as [s|]; [|discriminate].
    unfold orElse. rewrite T.
    destruct (s =? "0px") eqn:Z.
    + apply String.eqb_eq in Z. subst. split; auto.
    + apply String.eqb_neq in Z. split.
      * split_tests; discriminate.
      * intros [H | [= H]]; [discriminate | contradiction].
  - split; auto.
Qed.

End RadiusFacts.

(** X17.  [mapBorderRadius] gives no class exactly for a missing or empty
    value and for 0px; every radius that the token walk collects gets one of
    the classes sm, md, lg, xl and full. *)
Theorem collected_radii_get_a_class :
  (forall v,
      StyleExtractor.mapBorderRadius v = None
      <-> truthy v = false \/ v = Some "0px")
  /\ (forall root v,
         In v (borderRadii (extractDesignTokens (Some root))) ->
         exists cls,
           StyleExtractor.mapBorderRadius (Some v) = Some cls
           /\ In cls ["sm"; "md"; "lg"; "xl"; "full"]).
Proof.
  split; [exact mapBorderRadius_null|].
  intros root v H.
  apply (tokens_In _ _ borderRadii_fed root v eq_refl) in H
    as (n & _ & k & f & [[= <- <-] | []] & _ & Hne & K).
  apply mapBorderRadius_class; [exact Hne|].
  unfold isNot in K. apply negb_true_iff in K. now apply String.eqb_neq in K.
Qed.

(** The box with a radius of 4px: the radius is collected and gets a class. *)
Lemma collected_radii_get_a_class_witness :
  In "4px" (borderRadii (extractDesignTokens (Some Vocabulary.roundedBox)))
  /\ exists cls,
       StyleExtractor.mapBorderRadius (Some "4px") = Some cls
       /\ In cls ["sm"; "md"; "lg"; "xl"; "full"].
Proof.
  assert (H : In "4px" (borderRadii
                          (extractDesignTokens (Some Vocabulary.roundedBox))))
    by (left; reflexivity).
  split; [exact H|].
  exact (proj2 collected_radii_get_a_class Vocabulary.roundedBox "4px" H).
Defined.


(** X18.  Colors are matched without regard to case: a raw color whose
    lower-case form is a key of the color dictionary maps to the token of
    that key. *)
Theorem color_keys_match_any_case (color token : string) :
  assoc (toLowerCase color) StyleExtractor.colorMap = Some token ->
  StyleExtractor.mapColor (Some color) = Some (VStr token).
Proof. apply mapColor_lower. Qed.

Lemma color_keys_match_any_case_witness :
  StyleExtractor.mapColor (Some "#3B82F6") = Some (VStr "blue-500").
Proof.
  apply (color_keys_match_any_case "#3B82F6" "blue-500"). reflexivity.
Defined.

(** ** The Tailwind configuration *)

Section ConfigFacts.
Import Vocabulary StyleExtractor.

Lemma valueEqb_eq (a b : Value) : valueEqb a b = true <-> a = b.
Proof.
  destruct a as [s | s], b as [t | t]; cbn; try (split; discriminate).
  - rewrite String.eqb_eq. split; [now intros -> | now intros [= ->]].
  - rewrite String.eqb_eq. split; [now intros -> | now intros [= ->]].
Qed.

Lemma lookup_setEntry (m k : Value) (raw : string) obj :
  lookupEntry m (setEntry k raw obj)
  = if valueEqb m k then Some raw else lookupEntry m obj.
Proof.
  induction obj as [|[k0 old] obj IH]; cbn [setEntry lookupEntry].
  - reflexivity.
  - destruct (valueEqb k k0) eqn:K; cbn [lookupEntry].
    + apply valueEqb_eq in K. subst k0.
      destruct (valueEqb m k); reflexivity.
    + rewrite IH. destruct (valueEqb m k0) eqn:M0; [|reflexivity].
      destruct (valueEqb m k) eqn:M; [|reflexivity].
      apply valueEqb_eq in M0, M. subst.
      assert (T : valueEqb k0 k0 = true) by now apply valueEqb_eq.
      congruence.
Qed.

Lemma lookup_extend mapper (m : Value) (raw : string) obj :
  lookupEntry m (extend mapper obj raw)
  = if accepts mapper m raw then Some raw else lookupEntry m obj.
Proof.
  unfold extend, accepts.
  destruct (mapper (Some raw)) as [v|]; [|reflexivity].
  destruct (truthyValue (Some v)); cbn [andb]; [|reflexivity].
  apply lookup_setEntry.
Qed.

Lemma find_snoc {A : Type} (p : A -> bool) (l : list A) (x : A) :
  find p (l ++ [x])
  = match find p l with
    | Some r => Some r
    | None => if p x then Some x else None
    end.
Proof.
  induction l as [|a l IH]; cbn [app find]; [reflexivity|].
  destruct (p a); [reflexivity | exact IH].
Qed.

Lemma lookup_collected mapper (m : Value) (raws : list string) : forall obj,
  lookupEntry m (fold_left (extend mapper) raws obj)
  = match lastAccepted mapper m raws with
    | Some raw => Some raw
    | None => lookupEntry m obj
    end.
Proof.
  unfold lastAccepted.
  induction raws as [|raw raws IH]; intros obj; cbn [fold_left rev find];
    [reflexivity|].
  rewrite IH, find_snoc, lookup_extend.
  destruct (find (accepts mapper m) (rev raws)); [reflexivity|].
  destruct (accepts mapper m raw); reflexivity.
Qed.

Lemma lookup_config mapper (m : Value) (raws : list string) :
  lookupEntry m (fold_left (extend mapper) raws [])
  = lastAccepted mapper m raws.
Proof.
  rewrite lookup_collected. cbn [lookupEntry].
  now destruct (lastAccepted mapper m raws).
Qed.

Lemma lastAccepted_sound mapper (m : Value) (raws : list string) (raw : string) :
  lastAccepted mapper m raws = Some raw ->
  mapper (Some raw) = Some m /\ In raw raws.
Proof.
  unfold lastAccepted. intros H. apply find_some in H as [Hin Ha].
  apply in_rev in Hin. split; [|exact Hin].
  unfold accepts in Ha. destruct (mapper (Some raw)) as [v|]; [|discriminate].
  apply andb_prop in Ha as [_ Ha]. apply valueEqb_eq in Ha. now subst.
Qed.

End ConfigFacts.

(** X19.  Each object of the Tailwind configuration maps a token to the last
    raw value, in discovery order, that its mapper sends to that token; a
    raw value stored under a token is a value of the palette that maps to
    it. *)
Theorem tailwind_config_keeps_last_value (designTokens : DesignTokens)
    (m : Value) :
  let config := StyleExtractor.generateTailwindConfig designTokens in
  StyleExtractor.lookupEntry m (StyleExtractor.cfg_colors config)
  = Vocabulary.lastAccepted StyleExtractor.mapColor m (colors designTokens)
  /\ StyleExtractor.lookupEntry m (StyleExtractor.cfg_fontSize config)
     = Vocabulary.lastAccepted StyleExtractor.mapFontSize m
         (fontSizes designTokens)
  /\ StyleExtractor.lookupEntry m (StyleExtractor.cfg_spacing config)
     = Vocabulary.lastAccepted StyleExtractor.mapSpacing m
         (spacing designTokens)
  /\ (forall raw,
         StyleExtractor.lookupEntry m (StyleExtractor.cfg_colors config)
         = Some raw ->
         StyleExtractor.mapColor (Some raw) = Some m
         /\ In raw (colors designTokens))
  /\ (forall raw,
         StyleExtractor.lookupEntry m (StyleExtractor.cfg_fontSize config)
         = Some raw ->
         StyleExtractor.mapFontSize (Some raw) = Some m
         /\ In raw (fontSizes designTokens))
  /\ (forall raw,
         StyleExtractor.lookupEntry m (StyleExtractor.cfg_spacing config)
         = Some raw ->
         StyleExtractor.mapSpacing (Some raw) = Some m
         /\ In raw (spacing designTokens)).
Proof.
  cbv zeta.
  cbn [StyleExtractor.generateTailwindConfig StyleExtractor.cfg_colors
       StyleExtractor.cfg_fontSize StyleExtractor.cfg_spacing].
  rewrite !lookup_config.
  repeat (split; [reflexivity|]).
  split; [|split]; intros raw H; now apply lastAccepted_sound in H.
Qed.

(** Of the paddings 9px and 8px, found in this order, token 2 keeps 8px. *)
Lemma tailwind_config_keeps_last_value_witness :
  StyleExtractor.lookupEntry (VStr "2")
    (StyleExtractor.cfg_spacing
       (StyleExtractor.generateTailwindConfig Vocabulary.twoPaddings))
  = Some "8px"
  /\ StyleExtractor.mapSpacing (Some "8px") = Some (VStr "2").
Proof.
  assert (H : StyleExtractor.lookupEntry (VStr "2")
                (StyleExtractor.cfg_spacing
                   (StyleExtractor.generateTailwindConfig
                      Vocabulary.twoPaddings))
              = Some "8px") by (vm_compute; reflexivity).
  split; [exact H|].
  exact (proj1 (proj2 (proj2 (proj2 (proj2 (proj2
           (tailwind_config_keeps_last_value Vocabulary.twoPaddings
              (VStr "2")))))) "8px" H)).
Defined.


(** X20.  A computed color [rgb(r, g, b)] with channels below 2^53 is
    normalized to a hash sign and three pairs of lower-case hex digits, and
    it maps to the token the dictionary has for that hex form, or to null
    when it has none; for channels below 256 each pair has two digits and
    reads back as the value of its channel. *)
Theorem computed_colors_become_hex :
  (forall r g b : N,
      (r < 2 ^ 53)%N -> (g < 2 ^ 53)%N -> (b < 2 ^ 53)%N ->
      StyleExtractor.normalizeColor (Vocabulary.rgbString r g b)
      = "#" ++ Vocabulary.hexPair r ++ Vocabulary.hexPair g
          ++ Vocabulary.hexPair b
      /\ StyleExtractor.mapColor (Some (Vocabulary.rgbString r g b))
         = option_map VStr
             (assoc ("#" ++ Vocabulary.hexPair r ++ Vocabulary.hexPair g
                       ++ Vocabulary.hexPair b)
                    StyleExtractor.colorMap))
  /\ (forall n : N,
         (n < 256)%N ->
         String.length (Vocabulary.hexPair n) = 2
         /\ Vocabulary.hexValue (Vocabulary.hexPair n) = Some n).
Proof.
  split; [|exact hexPair_bytes].
  intros r g b _ _ _.
  split; [apply normalizeColor_rgbString | apply mapColor_rgbString].
Qed.

(** The computed color rgb(59, 130, 246) becomes #3b82f6 and maps to
    blue-500. *)
Lemma computed_colors_become_hex_witness :
  StyleExtractor.normalizeColor (Vocabulary.rgbString 59 130 246) = "#3b82f6"
  /\ StyleExtractor.mapColor (Some (Vocabulary.rgbString 59 130 246))
     = Some (VStr "blue-500").
Proof.
  destruct (proj1 computed_colors_become_hex 59%N 130%N 246%N
              eq_refl eq_refl eq_refl) as [H1 H2].
  split.
  - exact (eq_trans H1 eq_refl).
  - exact (eq_trans H2 eq_refl).
Defined.
